(** * onthefile: retrieval-augmented answering pipeline

    A shallow embedding of the TypeScript sources

      - [src/lib/chunking.ts]            (module [Chunking])
      - [src/lib/embeddings.ts]          (module [Embeddings])
      - [src/app/api/documents/route.ts] (module [Documents])
      - [src/app/api/upload/route.ts]    (modules [Upload] and [Rag]: the
        ingestion handler and the answering handler; [UploadJson] and
        [UploadPdf]: the reading of the request body; [Delivery]: the
        body of an answer while its consumer reads it)
      - [src/app/api/documents/route.ts] (module [DocumentsStore]: DELETE)
      - [src/app/page.tsx]               (module [Chat])
      - the citations component          (module [Citations])

    followed by the properties proved about them.  [ChunkingNumbers] is
    [Chunking] again with sizes that may be [NaN].

    Conventions.  A JavaScript string is the list of its UTF-16 code units
    ([jsstring]); integers held in JavaScript numbers are [Z]; a thrown
    [Error] is a value of [exn]; an expression that may throw evaluates to a
    [completion].  Remote collaborators (embedding service, vector store,
    generative model) are function arguments that give the outcome of each
    call. *)

From Stdlib Require Import ZArith QArith List String Ascii Lia.
From stdpp Require Import base decidable option list numbers gmap.

Local Open Scope Z_scope.

(* ===================================================================== *)
(** * JavaScript values                                                   *)
(* ===================================================================== *)

Module JS.

(** A string is a sequence of 16-bit code units. *)
Definition jsstring := list Z.

(** String literals of the sources (all of them ASCII). *)
Definition lit (s : string) : jsstring :=
  map (fun a => Z.of_N (N_of_ascii a)) (list_ascii_of_string s).
Arguments lit : simpl never.

(** [s.length] *)
Definition strlen (s : jsstring) : Z := Z.of_nat (length s).

(** [a === b] on strings. *)
Definition streq (a b : jsstring) : bool := bool_decide (a = b).

(** Truthiness of a string: [!s] is [negb (truthy s)]. *)
Definition truthy (s : jsstring) : bool :=
  match s with [] => false | _ :: _ => true end.

(** [s.slice(start, end)]: a negative bound counts from the end, both
    bounds are clamped to [0 .. s.length], an empty range gives [""]. *)
Definition clamp_index (len i : Z) : Z :=
  if i <? 0 then Z.max (len + i) 0 else Z.min i len.

Definition slice (s : jsstring) (start end_ : Z) : jsstring :=
  let len := strlen s in
  let from := clamp_index len start in
  let to := clamp_index len end_ in
  take (Z.to_nat (to - from)) (drop (Z.to_nat from) s).

(** [parts.join(sep)] *)
Fixpoint join (sep : jsstring) (parts : list jsstring) : jsstring :=
  match parts with
  | [] => []
  | [p] => p
  | p :: rest => p ++ sep ++ join sep rest
  end.

(** A thrown error object with its message. *)
Inductive exn :=
| Error (message : jsstring)
| TypeError (message : jsstring).

Definition message (e : exn) : jsstring :=
  match e with Error m | TypeError m => m end.

(** The result of evaluating code that may throw. *)
Inductive completion (A : Type) :=
| Return (a : A)
| Throw (e : exn).
Arguments Return {A} a.
Arguments Throw {A} e.

End JS.

(* ===================================================================== *)
(** * src/lib/chunking.ts                                                 *)
(* ===================================================================== *)

Module Chunking.
Import JS.

Record Chunk := mkChunk { text : jsstring; index : Z }.

(** The [while (position < text.length)] loop.  [fuel] bounds the number
    of iterations; [None] means the bound was reached before the loop
    ended. *)
Fixpoint chunk_loop (fuel : nat) (text : jsstring) (chunkSize overlap : Z)
    (position index : Z) (chunks : list Chunk) : option (list Chunk) :=
  if position <? strlen text then
    match fuel with
    | O => None
    | S fuel' =>
        let chunkText := slice text position (position + chunkSize) in
        let chunks := chunks ++ [mkChunk chunkText index] in
        chunk_loop fuel' text chunkSize overlap
          (position + (chunkSize - overlap)) (index + 1) chunks
    end
  else Some chunks.

(** [chunkText(text, chunkSize = 500, overlap = 50)]; an argument left
    out ([None]) takes its default. *)
Definition chunkText (fuel : nat) (text : jsstring)
    (chunkSize_arg overlap_arg : option Z)
    : option (completion (list Chunk)) :=
  let chunkSize := default 500 chunkSize_arg in
  let overlap := default 50 overlap_arg in
  if chunkSize <=? 0 then
    Some (Throw (Error (lit "chunkSize must be positive")))
  else if overlap <? 0 then
    Some (Throw (Error (lit "overlap cannot be negative")))
  else if overlap >=? chunkSize then
    Some (Throw (Error (lit "overlap must be smaller than chunkSize")))
  else
    Return <$> chunk_loop fuel text chunkSize overlap 0 0 [].

End Chunking.

(* ===================================================================== *)
(** * Platform functions used by the handlers                             *)
(* ===================================================================== *)

Module Platform.
Import JS.

Definition is_high_surrogate (c : Z) : bool := (55296 <=? c) && (c <=? 56319).
Definition is_low_surrogate (c : Z) : bool := (56320 <=? c) && (c <=? 57343).

(** UTF-8 bytes of one Unicode scalar value. *)
Definition utf8_bytes (cp : Z) : list Z :=
  if cp <? 128 then [cp]
  else if cp <? 2048 then
    [Z.lor 192 (Z.shiftr cp 6); Z.lor 128 (Z.land cp 63)]
  else if cp <? 65536 then
    [Z.lor 224 (Z.shiftr cp 12);
     Z.lor 128 (Z.land (Z.shiftr cp 6) 63);
     Z.lor 128 (Z.land cp 63)]
  else
    [Z.lor 240 (Z.shiftr cp 18);
     Z.lor 128 (Z.land (Z.shiftr cp 12) 63);
     Z.lor 128 (Z.land (Z.shiftr cp 6) 63);
     Z.lor 128 (Z.land cp 63)].

(** [new TextEncoder().encode(s)]: UTF-8 of the string; a surrogate pair
    is one code point, a surrogate on its own becomes U+FFFD. *)
Fixpoint encode (s : jsstring) : list Z :=
  match s with
  | [] => []
  | c :: rest =>
      if is_high_surrogate c then
        match rest with
        | d :: rest' =>
            if is_low_surrogate d then
              utf8_bytes (65536 + Z.shiftl (c - 55296) 10 + (d - 56320))
                ++ encode rest'
            else utf8_bytes 65533 ++ encode rest
        | [] => utf8_bytes 65533
        end
      else if is_low_surrogate c then utf8_bytes 65533 ++ encode rest
      else utf8_bytes c ++ encode rest
  end.

(** The quoting of a string by [JSON.stringify]. *)
Definition hex_digit (d : Z) : Z := if d <? 10 then 48 + d else 87 + d.

Definition unicode_escape (c : Z) : jsstring :=
  [92; 117;
   hex_digit (Z.land (Z.shiftr c 12) 15); hex_digit (Z.land (Z.shiftr c 8) 15);
   hex_digit (Z.land (Z.shiftr c 4) 15); hex_digit (Z.land c 15)].

Definition quote_unit (c : Z) : jsstring :=
  if c =? 8 then [92; 98]
  else if c =? 9 then [92; 116]
  else if c =? 10 then [92; 110]
  else if c =? 12 then [92; 102]
  else if c =? 13 then [92; 114]
  else if c =? 34 then [92; 34]
  else if c =? 92 then [92; 92]
  else if c <? 32 then unicode_escape c
  else [c].

Fixpoint quote_units (s : jsstring) : jsstring :=
  match s with
  | [] => []
  | c :: rest =>
      if is_high_surrogate c then
        match rest with
        | d :: rest' =>
            if is_low_surrogate d then c :: d :: quote_units rest'
            else unicode_escape c ++ quote_units rest
        | [] => unicode_escape c
        end
      else if is_low_surrogate c then unicode_escape c ++ quote_units rest
      else quote_unit c ++ quote_units rest
  end.

Definition quote (s : jsstring) : jsstring := [34] ++ quote_units s ++ [34].

Section Json.
(** JavaScript numbers that are not known to be integers (vector
    components, similarity scores) are values of a type [number]; their
    decimal rendering by [JSON.stringify] is [number_to_json]. *)
Context {number : Type} (number_to_json : number -> jsstring).

(** A value as received from a JSON response. *)
#[warnings="-register-all"]
Inductive json :=
| JNull
| JBool (b : bool)
| JNumber (n : number)
| JString (s : jsstring)
| JArray (items : list json)
| JObject (props : list (jsstring * json)).

(** [JSON.stringify(v)] *)
Fixpoint stringify (v : json) : jsstring :=
  match v with
  | JNull => lit "null"
  | JBool true => lit "true"
  | JBool false => lit "false"
  | JNumber n => number_to_json n
  | JString s => quote s
  | JArray items => lit "[" ++ join (lit ",") (map stringify items) ++ lit "]"
  | JObject props =>
      lit "{"
      ++ join (lit ",")
           (map (fun kv => quote (fst kv) ++ lit ":" ++ stringify (snd kv)) props)
      ++ lit "}"
  end.

(** [v?.[key]] for a key that no prototype defines: the property of an
    object, [undefined] ([None]) for anything else. *)
Fixpoint assoc (key : jsstring) (props : list (jsstring * json)) : option json :=
  match props with
  | [] => None
  | (k, v) :: rest => if streq k key then Some v else assoc key rest
  end.

Definition get_property (v : option json) (key : jsstring) : option json :=
  match v with
  | Some (JObject props) => assoc key props
  | _ => None
  end.
End Json.
Arguments json : clear implicits.

(** ** ReadableStream controller

    The state of the response body: the queue of the chunks handed over
    and not yet read, and whether the stream is still open.  The producer
    calls [enqueue], [error] and [close]; the consumer calls [read]. *)
Inductive stream_state :=
| Readable
| Closed
| Errored (reason : exn).

Record controller := mkController {
  enqueued : list (list Z);
  state : stream_state
}.

Definition new_controller : controller := mkController [] Readable.

Definition invalid_state : exn := TypeError (lit "Invalid state").

(** [controller.enqueue(chunk)]: throws unless the stream is readable. *)
Definition enqueue (c : controller) (chunk : list Z) : controller * option exn :=
  match state c with
  | Readable => (mkController (enqueued c ++ [chunk]) Readable, None)
  | _ => (c, Some invalid_state)
  end.

(** [controller.error(e)]: does nothing unless the stream is readable.
    Otherwise the stream is errored and its queue is reset: the chunks
    that were waiting to be read are discarded. *)
Definition error (c : controller) (e : exn) : controller :=
  match state c with
  | Readable => mkController [] (Errored e)
  | _ => c
  end.

(** [controller.close()]: throws unless the stream is readable. *)
Definition close (c : controller) : controller * option exn :=
  match state c with
  | Readable => (mkController (enqueued c) Closed, None)
  | _ => (c, Some invalid_state)
  end.

(** The bytes of the chunks waiting in the queue, in order. *)
Definition bytes (c : controller) : list Z := concat (enqueued c).

(** [reader.read()]: the next chunk of the queue; when the queue is empty,
    the end of a closed stream, the rejection of an errored one, and a
    promise that stays pending while the stream is readable. *)
Inductive read_result :=
| Value (chunk : list Z)        (* { value: chunk, done: false } *)
| Done                          (* { value: undefined, done: true } *)
| Rejected (reason : exn)
| Pending.

Definition read (c : controller) : controller * read_result :=
  match enqueued c with
  | chunk :: rest => (mkController rest (state c), Value chunk)
  | [] =>
      (c, match state c with
          | Readable => Pending
          | Closed => Done
          | Errored e => Rejected e
          end)
  end.

End Platform.

(* ===================================================================== *)
(** * src/lib/embeddings.ts                                               *)
(* ===================================================================== *)

Module Embeddings.
Import JS.

(** What the code does to the outside world, in order. *)
Inductive effect :=
| Create (model input : jsstring)   (* openai.embeddings.create({model, input}) *)
| SetTimeout (ms : Z).              (* await new Promise(r => setTimeout(r, ms)) *)

Definition MAX_RETRIES : Z := 3.

Section WithNumber.
Context {number : Type}.

(** The response of [openai.embeddings.create]. *)
Record EmbeddingData := mkEmbeddingData { embedding : option (list number) }.
Record CreateEmbeddingResponse := mkResponse { data : list EmbeddingData }.

(** The service: the outcome of the [n]-th call made by one invocation
    of [generateEmbedding] (n = 0, 1, 2, ...). *)
Definition service := nat -> completion CreateEmbeddingResponse.

(** The body of the [try] block, given the outcome of the call. *)
Definition try_create (outcome : completion CreateEmbeddingResponse)
    : completion (list number) :=
  match outcome with
  | Throw e => Throw e
  | Return response =>
      match head (data response) ≫= embedding with
      | None => Throw (Error (lit "No embedding returned from OpenAI"))
      | Some embedding => Return embedding
      end
  end.

(** The [while (attempt < MAX_RETRIES)] loop.  [calls] counts the calls
    made to the service so far, [trace] records the effects so far. *)
Fixpoint retry_loop (fuel : nat) (api : service) (text : jsstring)
    (attempt delayMs : Z) (calls : nat) (trace : list effect)
    : option (completion (list number) * list effect) :=
  if attempt <? MAX_RETRIES then
    match fuel with
    | O => None
    | S fuel' =>
        let trace := trace ++ [Create (lit "text-embedding-ada-002") text] in
        match try_create (api calls) with
        | Return embedding => Some (Return embedding, trace)
        | Throw error =>
            let attempt := attempt + 1 in
            if attempt >=? MAX_RETRIES then Some (Throw error, trace)
            else
              let trace := trace ++ [SetTimeout delayMs] in
              retry_loop fuel' api text attempt (delayMs * 2) (S calls) trace
        end
    end
  else Some (Throw (Error (lit "Failed to generate embedding")), trace).

(** [generateEmbedding(text)]: the result and the effects performed. *)
Definition generateEmbedding (fuel : nat) (api : service) (text : jsstring)
    : option (completion (list number) * list effect) :=
  retry_loop fuel api text 0 250 0 [].

End WithNumber.
Arguments EmbeddingData : clear implicits.
Arguments CreateEmbeddingResponse : clear implicits.
Arguments service : clear implicits.

(** Views of a trace: the number of calls to the service, and the waits
    in order. *)
Fixpoint attempts (trace : list effect) : nat :=
  match trace with
  | [] => O
  | Create _ _ :: rest => S (attempts rest)
  | SetTimeout _ :: rest => attempts rest
  end.

Fixpoint delays (trace : list effect) : list Z :=
  match trace with
  | [] => []
  | SetTimeout ms :: rest => ms :: delays rest
  | Create _ _ :: rest => delays rest
  end.

End Embeddings.

(* ===================================================================== *)
(** * src/app/api/documents/route.ts                                      *)
(* ===================================================================== *)

Module Documents.
Import JS.

(** A row of [select("metadata, created_at")]; [metadata_source] is
    [metadata?.source], a string when present. *)
Record Metadata := mkMetadata { metadata_source : option jsstring }.
Record Row := mkRow { row_metadata : option Metadata; row_created_at : jsstring }.

Record DocumentSummary := mkSummary {
  source : jsstring;
  chunk_count : Z;
  created_at : jsstring
}.

(** The result [{ data, error }] of the query. *)
Record SelectResult := mkSelect {
  select_data : option (list Row);
  select_error : option jsstring
}.

Inductive Body :=
| Summaries (l : list DocumentSummary)
| Failure (error : jsstring).

Record Response := mkResponse { status : Z; body : Body }.

(** [summaries] is a plain object ([{}]): besides its own properties, a
    lookup finds the properties of [Object.prototype]. *)
Definition Object_prototype_keys : list jsstring :=
  map lit
    ["constructor"; "__defineGetter__"; "__defineSetter__"; "hasOwnProperty";
     "__lookupGetter__"; "__lookupSetter__"; "isPrototypeOf";
     "propertyIsEnumerable"; "toString"; "valueOf"; "__proto__";
     "toLocaleString"]%string.

Inductive property :=
| Own (summary : DocumentSummary)
| Inherited.

(** [summaries[key]] *)
Definition get (summaries : gmap jsstring DocumentSummary) (key : jsstring)
    : option property :=
  match summaries !! key with
  | Some summary => Some (Own summary)
  | None =>
      if bool_decide (key ∈ Object_prototype_keys) then Some Inherited else None
  end.

Definition increment (summary : DocumentSummary) : DocumentSummary :=
  mkSummary (source summary) (chunk_count summary + 1) (created_at summary).

(** The body of [for (const row of data ?? [])].  A property found on the
    prototype is truthy, so no entry is made for such a key and the
    increment lands on the prototype's object, not on [summaries]. *)
Definition visit (summaries : gmap jsstring DocumentSummary) (row : Row)
    : completion (gmap jsstring DocumentSummary) :=
  match row_metadata row ≫= metadata_source with
  | None => Return summaries
  | Some source =>
      if negb (truthy source) then Return summaries
      else
        let summaries :=
          match get summaries source with
          | None => <[source := mkSummary source 0 (row_created_at row)]> summaries
          | Some _ => summaries
          end in
        match get summaries source with
        | Some (Own summary) => Return (<[source := increment summary]> summaries)
        | Some Inherited => Return summaries
        | None => Throw (TypeError (lit "Cannot read properties of undefined"))
        end
  end.

Fixpoint scan (summaries : gmap jsstring DocumentSummary) (rows : list Row)
    : completion (gmap jsstring DocumentSummary) :=
  match rows with
  | [] => Return summaries
  | row :: rest =>
      match visit summaries row with
      | Return summaries => scan summaries rest
      | Throw e => Throw e
      end
  end.

(** [Object.values(summaries)]; the order of enumeration is not modelled,
    the listing is read as a collection. *)
Definition Object_values (summaries : gmap jsstring DocumentSummary)
    : list DocumentSummary :=
  snd <$> map_to_list summaries.

(** [GET()] given the result of the query. *)
Definition GET (result : SelectResult) : Response :=
  let attempt :=
    match select_error result with
    | Some msg => Throw (Error msg)
    | None => scan ∅ (default [] (select_data result))
    end in
  match attempt with
  | Return summaries => mkResponse 200 (Summaries (Object_values summaries))
  | Throw error => mkResponse 500 (Failure (message error))
  end.

End Documents.

(* ===================================================================== *)
(** * src/app/api/upload/route.ts: ingestion                              *)
(* ===================================================================== *)

Module Upload.
Import JS.

(** [Promise.all(promises)]: all the results in order, or a rejection.
    Which rejection wins depends on timing; the model takes the first in
    the order of the array. *)
Fixpoint Promise_all {A : Type} (results : list (completion A)) : completion (list A) :=
  match results with
  | [] => Return []
  | Throw e :: _ => Throw e
  | Return a :: rest =>
      match Promise_all rest with
      | Return l => Return (a :: l)
      | Throw e => Throw e
      end
  end.

Section WithNumber.
Context {number : Type}.

(** The JSON body; a field is [None] when absent or not a string. *)
Record UploadRequest := mkRequest {
  req_content : option jsstring;
  req_filename : option jsstring
}.

(** [{ ...chunk, embedding }] *)
Record Embedded := mkEmbedded {
  text : jsstring;
  index : Z;
  embedding : list number
}.

Record RowMetadata := mkMetadata {
  source : jsstring;
  chunk_index : Z;
  total_chunks : Z
}.

(** A row handed to [insert]. *)
Record NewRow := mkRow {
  content : jsstring;
  row_embedding : list number;
  metadata : RowMetadata
}.

(** The collaborators during one request: the embedding service as seen
    by the call for the chunk at each position of [chunks], and the
    error, if any, that the insert reports. *)
Record World := mkWorld {
  embeddings_create : nat -> Embeddings.service number;
  insert_error : option jsstring
}.

Inductive Body :=
| Created (chunks_created : Z)   (* { success: true, chunks_created, time_taken } *)
| Failure (error : jsstring).

Record Response := mkResponse { status : Z; body : Body }.

(** [chunks.map(async (chunk) => ...)] awaited by [Promise.all]. *)
Definition embed_chunk (fuel : nat) (w : World) (i : nat) (chunk : Chunking.Chunk)
    : option (completion Embedded) :=
  r ← Embeddings.generateEmbedding fuel (embeddings_create w i) (Chunking.text chunk);
  Some match fst r with
       | Return embedding =>
           Return (mkEmbedded (Chunking.text chunk) (Chunking.index chunk) embedding)
       | Throw e => Throw e
       end.

Definition to_row (filename : jsstring) (chunks : list Chunking.Chunk) (e : Embedded)
    : NewRow :=
  mkRow (text e) (embedding e)
    (mkMetadata filename (index e) (Z.of_nat (length chunks))).

(** [supabase.from("documents").insert(rows)]: the whole batch or
    nothing. *)
Definition insert (w : World) (table rows : list NewRow)
    : list NewRow * option jsstring :=
  match insert_error w with
  | Some msg => (table, Some msg)
  | None => (table ++ rows, None)
  end.

(** From [const chunks = chunkText(content)] to the response, inside the
    handler's [try]. *)
Definition ingest (fuel : nat) (w : World) (table : list NewRow)
    (content filename : jsstring) : option (Response * list NewRow) :=
  chunked ← Chunking.chunkText fuel content None None;
  match chunked with
  | Throw e => Some (mkResponse 500 (Failure (message e)), table)
  | Return chunks =>
      results ← mapM (fun ic => embed_chunk fuel w (fst ic) (snd ic))
                  (imap (fun i c => (i, c)) chunks);
      match Promise_all results with
      | Throw e => Some (mkResponse 500 (Failure (message e)), table)
      | Return embeddings =>
          let rows := map (to_row filename chunks) embeddings in
          match insert w table rows with
          | (table, Some msg) => Some (mkResponse 500 (Failure msg), table)
          | (table, None) =>
              Some (mkResponse 200 (Created (Z.of_nat (length rows))), table)
          end
      end
  end.

(** [POST(req)] for a JSON body, from the properties [content] and
    [filename] of the value read ([UploadJson.POST] has the reading of the
    body before that).  (A multipart body has its text extracted from the
    PDF by a library and then takes the same path from [ingest] on.) *)
Definition POST (fuel : nat) (w : World) (table : list NewRow)
    (body : UploadRequest) : option (Response * list NewRow) :=
  match req_content body with
  | None =>
      Some (mkResponse 400
              (Failure (lit "Invalid content. Expecting non-empty string.")), table)
  | Some content =>
      if negb (truthy content) then
        Some (mkResponse 400
                (Failure (lit "Invalid content. Expecting non-empty string.")), table)
      else
        match req_filename body with
        | None =>
            Some (mkResponse 400
                    (Failure (lit "Invalid filename. Expecting non-empty string.")),
                  table)
        | Some filename =>
            if negb (truthy filename) then
              Some (mkResponse 400
                      (Failure (lit "Invalid filename. Expecting non-empty string.")),
                    table)
            else if strlen content >? 50000 then
              Some (mkResponse 400
                      (Failure (lit "File too large. Limit is 50,000 characters.")),
                    table)
            else ingest fuel w table content filename
        end
  end.

End WithNumber.
Arguments UploadRequest : clear implicits.
Arguments Embedded : clear implicits.
Arguments NewRow : clear implicits.
Arguments World : clear implicits.

End Upload.

(* ===================================================================== *)
(** * src/app/api/upload/route.ts: answering (the rag route)              *)
(* ===================================================================== *)

Module Rag.
Import JS Platform.

Definition SOURCE_MARKER : jsstring := lit "__SOURCES__".

Definition nl : jsstring := [10].

(** An event of the model's stream: [event.type] and [event.delta]. *)
Record Delta := mkDelta { delta_type : jsstring; delta_text : jsstring }.
Record StreamEvent := mkEvent { event_type : jsstring; event_delta : option Delta }.

(** What iterating the stream gives: the events, then either the end of
    the stream ([None]) or an error raised by the iteration. *)
Definition MessageStream : Type := list StreamEvent * option exn.

Definition system_instruction : jsstring :=
  lit "You are a helpful assistant. Answer questions based ONLY on the provided context. If the context doesn't contain enough information, say "
  ++ [34] ++ lit "I don't have that information in the available documents." ++ [34].

Section WithNumber.
Context {number : Type} (zero : number) (number_to_json : number -> jsstring).

Record RagRequest := mkRequest {
  question : option jsstring;          (* [None]: absent or not a string *)
  document_source : option jsstring
}.

Record RetrievedDocument := mkDocument {
  content : jsstring;
  embedding : list number;
  metadata : option (json number);     (* [None]: undefined *)
  similarity : option number           (* [None]: null or undefined *)
}.

(** [{ data, error }] of [supabase.rpc("match_documents", ...)]. *)
Record RpcResult := mkRpc {
  rpc_data : option (list RetrievedDocument);
  rpc_error : option jsstring
}.

(** The calls made to the collaborators, in order. *)
Inductive call :=
| Embedding (e : Embeddings.effect)
| MatchDocuments (query_embedding : list number) (match_threshold : Q) (match_count : Z)
| MessagesStream (model : jsstring) (max_tokens : Z) (system content : jsstring).

Record World := mkWorld {
  ANTHROPIC_API_KEY : option jsstring;
  embeddings_create : Embeddings.service number;
  match_documents : list number -> RpcResult;
  messages_stream : jsstring -> MessageStream
}.

Inductive Response :=
| Json (status : Z) (error : jsstring)          (* NextResponse.json({ error }, { status }) *)
| Streaming (status : Z) (body : controller).   (* new Response(readable, ...) *)

(** [doc.metadata?.source === document_source] *)
Definition source_is (document_source : jsstring) (doc : RetrievedDocument) : bool :=
  match get_property (metadata doc) (lit "source") with
  | Some (JString s) => streq s document_source
  | _ => false
  end.

Definition narrow (document_source : option jsstring) (matches : list RetrievedDocument)
    : list RetrievedDocument :=
  match document_source with
  | Some src =>
      if truthy src then List.filter (source_is src) matches else matches
  | None => matches
  end.

Definition build_context (matches : list RetrievedDocument) : jsstring :=
  join nl (map (fun doc => content doc ++ nl ++ lit "---") matches).

Definition contextPrompt (matches : list RetrievedDocument) (question : jsstring)
    : jsstring :=
  lit "Context from documents:" ++ nl ++ nl ++ build_context matches ++ nl
  ++ lit "Question: " ++ question ++ nl ++ nl
  ++ lit "Answer based ONLY on the context above. Be specific and cite which information came from which part of the context.".

(** One element of [sourcesPayload]; a property whose value is
    [undefined] is left out by [JSON.stringify]. *)
Definition payload_entry (m : RetrievedDocument) : json number :=
  JObject
    ([(lit "content", JString (content m))]
     ++ match metadata m with
        | Some v => [(lit "metadata", v)]
        | None => []
        end
     ++ [(lit "similarity", JNumber (default zero (similarity m)))]).

Definition sourcesPayload (matches : list RetrievedDocument) : json number :=
  JArray (map payload_entry matches).

Definition is_text_delta (event : StreamEvent) : bool :=
  streq (event_type event) (lit "content_block_delta")
  && match event_delta event with
     | Some d => streq (delta_type d) (lit "text_delta")
     | None => false
     end.

(** The [for await] loop over the events received; it ends early if
    [enqueue] throws. *)
Fixpoint forward (events : list StreamEvent) (c : controller)
    : controller * option exn :=
  match events with
  | [] => (c, None)
  | event :: rest =>
      if is_text_delta event then
        match enqueue c (encode (from_option delta_text [] (event_delta event))) with
        | (c, None) => forward rest c
        | (c, Some e) => (c, Some e)
        end
      else forward rest c
  end.

(** The [try] block of [start]. *)
Definition try_block (claudeStream : MessageStream) (payload : json number)
    (c : controller) : controller * option exn :=
  match forward (fst claudeStream) c with
  | (c, Some e) => (c, Some e)
  | (c, None) =>
      match snd claudeStream with
      | Some e => (c, Some e)
      | None =>
          enqueue c
            (encode (nl ++ SOURCE_MARKER ++ stringify number_to_json payload))
      end
  end.

(** [start(controller)]: try, catch, finally. *)
Definition start (claudeStream : MessageStream) (payload : json number)
    (c : controller) : controller * option exn :=
  let (c, thrown) := try_block claudeStream payload c in
  let c := match thrown with
           | Some streamError => error c streamError
           | None => c
           end in
  close c.

(** [new ReadableStream({ start })]: an exception leaving [start] puts
    the stream in the error state, if it is still readable. *)
Definition ReadableStream (start : controller -> controller * option exn)
    : controller :=
  let (c, thrown) := start new_controller in
  match thrown with
  | Some r => error c r
  | None => c
  end.

(** [POST(req)]: the calls made and the response. *)
Definition POST (fuel : nat) (w : World) (body : RagRequest)
    : option (list call * Response) :=
  match question body with
  | None => Some ([], Json 400 (lit "Missing or invalid question"))
  | Some question =>
      if negb (truthy question) then
        Some ([], Json 400 (lit "Missing or invalid question"))
      else if negb (from_option truthy false (ANTHROPIC_API_KEY w)) then
        Some ([], Json 500 (lit "ANTHROPIC_API_KEY is not set"))
      else
        r ← Embeddings.generateEmbedding fuel (embeddings_create w) question;
        let calls := map Embedding (snd r) in
        match fst r with
        | Throw error => Some (calls, Json 500 (message error))
        | Return questionEmbedding =>
            let result := match_documents w questionEmbedding in
            let calls := calls ++ [MatchDocuments questionEmbedding 0.7%Q 3] in
            match rpc_error result with
            | Some msg =>
                Some (calls,
                      Json 500 (lit "Supabase match_documents failed: " ++ msg))
            | None =>
                let matches := default [] (rpc_data result) in
                let matches := narrow (document_source body) matches in
                if (length matches =? 0)%nat then
                  Some (calls,
                        Json 404
                          (lit "No relevant chunks found. Try rephrasing or uploading."))
                else
                  let prompt := contextPrompt matches question in
                  let claudeStream := messages_stream w prompt in
                  let calls :=
                    calls ++ [MessagesStream (lit "claude-sonnet-4-5-20250929") 2048
                                system_instruction prompt] in
                  let readable :=
                    ReadableStream (start claudeStream (sourcesPayload matches)) in
                  Some (calls, Streaming 200 readable)
            end
        end
  end.

End WithNumber.
Arguments RagRequest : clear implicits.
Arguments RetrievedDocument : clear implicits.
Arguments RpcResult : clear implicits.
Arguments call : clear implicits.
Arguments World : clear implicits.

End Rag.

(* ===================================================================== *)
(** * Vocabulary of the properties                                      *)
(* ===================================================================== *)

(** ** Of the segmenter *)

Section ChunkingVocabulary.
Import JS Chunking.

(** Ceiling of [a / b] for positive [b]. *)
Definition ceil_div (a b : nat) : nat := ((a + b - 1) / b)%nat.

(** The chunk that starts at [k * step]: at most [size] code units from
    there, with index [k]. *)
Definition chunk_at (text : jsstring) (size step k : nat) : Chunk :=
  mkChunk (take size (drop (k * step) text)) (Z.of_nat k).

(** The chunk sequence in closed form. *)
Definition chunks_of (text : jsstring) (size step : nat) : list Chunk :=
  map (chunk_at text size step) (seq 0 (ceil_div (length text) step)).

(** The parameters that pass the three guards. *)
Definition valid (chunkSize overlap : Z) : Prop :=
  0 < chunkSize /\ 0 <= overlap < chunkSize.

(** The three messages with which the guards of [chunkText] throw. *)
Definition InvalidParameter (r : option (completion (list Chunk))) : Prop :=
  exists msg,
    r = Some (Throw (Error msg)) /\
    In msg [lit "chunkSize must be positive";
            lit "overlap cannot be negative";
            lit "overlap must be smaller than chunkSize"].

End ChunkingVocabulary.

(** ** Of the embedding client *)

Section EmbeddingsVocabulary.
Import JS Embeddings.
Context {number : Type}.

Definition embedding_model : jsstring := lit "text-embedding-ada-002".

(** The longest trace an invocation can leave: three calls, a wait of
    250 between the first two and of 500 between the last two. *)
Definition full_trace (text : jsstring) : list effect :=
  [Create embedding_model text; SetTimeout 250;
   Create embedding_model text; SetTimeout 500;
   Create embedding_model text].

(** The [n]-th attempt of an invocation failed. *)
Definition failed (api : service number) (n : nat) : Prop :=
  exists e, try_create (api n) = Throw e.

End EmbeddingsVocabulary.

(** ** Of the document listing *)

Section DocumentsVocabulary.
Import JS Documents.

(** [row.metadata.source] is [src]. *)
Definition has_source (src : jsstring) (row : Row) : bool :=
  match row_metadata row ≫= metadata_source with
  | Some s => streq s src
  | None => false
  end.

(** The rows of one source, in the order of the scan. *)
Definition rows_of (src : jsstring) (rows : list Row) : list Row :=
  List.filter (has_source src) rows.

(** The sources that get an entry of their own: non-empty strings that
    are not the name of a property of [Object.prototype]. *)
Definition listable (src : jsstring) : bool :=
  truthy src && negb (bool_decide (src ∈ Object_prototype_keys)).

(** The summary of a source: the number of its rows and the [created_at]
    of the first of them. *)
Definition summary_of (src : jsstring) (rows : list Row) : option DocumentSummary :=
  if listable src then
    match rows_of src rows with
    | [] => None
    | first :: rest =>
        Some (mkSummary src (Z.of_nat (length (first :: rest))) (row_created_at first))
    end
  else None.

Definition add_rows (s : DocumentSummary) (n : nat) : DocumentSummary :=
  mkSummary (source s) (chunk_count s + Z.of_nat n) (created_at s).

(** Every entry is stored under its own source, and only listable sources
    have entries. *)
Definition well_keyed (m : gmap jsstring DocumentSummary) : Prop :=
  forall k s, m !! k = Some s -> source s = k /\ listable k = true.

(** Lexicographic order on code units; on timestamps written in one
    ISO-8601 format this is the order in time. *)
Fixpoint before (a b : jsstring) : bool :=
  match a, b with
  | _, [] => false
  | [], _ :: _ => true
  | x :: a', y :: b' => (x <? y) || ((x =? y) && before a' b')
  end.

(** The state of [summaries] after the scan of [rows], started from a
    well-keyed [m]. *)
Definition after_scan (m : gmap jsstring DocumentSummary) (rows : list Row)
    (src : jsstring) : option DocumentSummary :=
  match m !! src with
  | Some s => Some (add_rows s (length (rows_of src rows)))
  | None => summary_of src rows
  end.

End DocumentsVocabulary.

(** ** Of ingestion *)

Section UploadVocabulary.
Import JS Upload.
Context {number : Type}.

(** [rows] is the batch made from [chunks] under [filename]: one row per
    chunk, in order, stamped with the file name, the index of the chunk
    and the number of chunks. *)
Definition rows_for (filename : jsstring) (chunks : list Chunking.Chunk)
    (rows : list (NewRow number)) : Prop :=
  length rows = length chunks
  /\ forall i chunk,
       chunks !! i = Some chunk ->
       exists row,
         rows !! i = Some row
         /\ content row = Chunking.text chunk
         /\ source (metadata row) = filename
         /\ chunk_index (metadata row) = Chunking.index chunk
         /\ total_chunks (metadata row) = Z.of_nat (length chunks).

(** All the rows of [table] stored under [filename] agree on
    [total_chunks]. *)
Definition same_total (filename : jsstring) (table : list (NewRow number)) : Prop :=
  forall r1 r2,
    r1 ∈ table -> r2 ∈ table ->
    source (metadata r1) = filename -> source (metadata r2) = filename ->
    total_chunks (metadata r1) = total_chunks (metadata r2).

(** What one run of [ingest] leaves in the table. *)
Definition ingested (fuel : nat) (table : list (NewRow number))
    (content filename : jsstring) (response : Response)
    (table' : list (NewRow number)) : Prop :=
  (status response <> 200 -> table' = table)
  /\ (status response = 200 ->
      exists chunks rows,
        Chunking.chunkText fuel content None None = Some (Return chunks)
        /\ table' = table ++ rows
        /\ body response = Created (Z.of_nat (length chunks))
        /\ rows_for filename chunks rows).

End UploadVocabulary.

(** ** Of answering *)

Section RagVocabulary.
Import JS Platform Rag.
Context {number : Type} (zero : number) (number_to_json : number -> jsstring).

(** The text increments of a sequence of events, in order. *)
Definition increments (events : list StreamEvent) : list jsstring :=
  map (fun event => from_option delta_text [] (event_delta event))
    (List.filter is_text_delta events).

(** The trailer: newline, marker, JSON of the matches. *)
Definition trailer (matches : list (RetrievedDocument number)) : jsstring :=
  nl ++ SOURCE_MARKER ++ stringify number_to_json (sourcesPayload zero matches).

(** The log holds a call to the generative model. *)
Definition is_generation (c : call number) : bool :=
  match c with MessagesStream _ _ _ _ => true | _ => false end.

Definition generation_calls (calls : list (call number)) : nat :=
  length (List.filter is_generation calls).

(** A request that passes validation, whose question is embedded and whose
    store query succeeds with [candidates]. *)
Record retrieved (fuel : nat) (w : World number) (request : RagRequest)
    (q : jsstring) (vector : list number) (trace : list Embeddings.effect)
    (candidates : list (RetrievedDocument number)) : Prop := {
  retrieved_question : question request = Some q;
  retrieved_nonempty : truthy q = true;
  retrieved_key : from_option truthy false (ANTHROPIC_API_KEY w) = true;
  retrieved_embedding :
    Embeddings.generateEmbedding fuel (embeddings_create w) q
    = Some (Return vector, trace);
  retrieved_no_error : rpc_error (match_documents w vector) = None;
  retrieved_candidates : candidates = default [] (rpc_data (match_documents w vector))
}.

End RagVocabulary.

(* ===================================================================== *)
(** * Concrete runs                                                       *)
(* ===================================================================== *)

Module Samples.
Import JS Platform.

Definition fox : jsstring := lit "The quick brown fox.".

(** ** Segmenter *)

Definition two_chunks : list Chunking.Chunk :=
  [Chunking.mkChunk fox 0; Chunking.mkChunk (lit " fox.") 1].

(** Seven code units cut with [chunkSize = 5], [overlap = 3]: the last code
    unit lies in three chunks. *)
Definition seven : jsstring := lit "abcdefg".

Definition four_chunks : list Chunking.Chunk :=
  [Chunking.mkChunk (lit "abcde") 0; Chunking.mkChunk (lit "cdefg") 1;
   Chunking.mkChunk (lit "efg") 2; Chunking.mkChunk (lit "g") 3].

(** ** Embedding service: numbers are integers here *)

Definition vector : list Z := [1; 2; 3].

Definition ok : completion (Embeddings.CreateEmbeddingResponse Z) :=
  Return (Embeddings.mkResponse [Embeddings.mkEmbeddingData (Some vector)]).

Definition no_payload : completion (Embeddings.CreateEmbeddingResponse Z) :=
  Return (Embeddings.mkResponse []).

Definition network_error : completion (Embeddings.CreateEmbeddingResponse Z) :=
  Throw (Error (lit "fetch failed")).

(** A network error, then a response without a vector, then a vector. *)
Definition flaky : Embeddings.service Z :=
  fun n => match n with
           | O => network_error
           | S O => no_payload
           | _ => ok
           end.

Definition steady : Embeddings.service Z := fun _ => ok.

(** ** Document listing *)

Definition listed_row (src created : string) : Documents.Row :=
  Documents.mkRow (Some (Documents.mkMetadata (Some (lit src)))) (lit created).

(** Two rows of one source, the later one first. *)
Definition rows_out_of_order : list Documents.Row :=
  [listed_row "notes.txt" "2024-02-01T00:00:00+00:00";
   listed_row "notes.txt" "2024-01-01T00:00:00+00:00"].

(** ** Ingestion *)

Definition upload_world : Upload.World Z := Upload.mkWorld (fun _ => steady) None.

Definition short_upload : Upload.UploadRequest :=
  Upload.mkRequest (Some (lit "a")) (Some (lit "notes.txt")).

Definition long_upload : Upload.UploadRequest :=
  Upload.mkRequest (Some (replicate 451 97)) (Some (lit "notes.txt")).

(** The table after [short_upload] and then [long_upload]. *)
Definition table_after_both : option (list (Upload.NewRow Z)) :=
  r1 ← Upload.POST 3 upload_world [] short_upload;
  r2 ← Upload.POST 451 upload_world (snd r1) long_upload;
  Some (snd r2).

(** ** Answering *)

Definition render (n : Z) : jsstring := if n =? 0 then lit "0" else lit "0.9".

Definition stored_metadata (src : string) : option (json Z) :=
  Some (JObject [(lit "source", JString (lit src))]).

Definition fox_match : Rag.RetrievedDocument Z :=
  Rag.mkDocument fox [] (stored_metadata "fox.txt") (Some 1).

Definition other_match : Rag.RetrievedDocument Z :=
  Rag.mkDocument (lit "Lorem ipsum.") [] (stored_metadata "lorem.txt") None.

Definition text_delta (s : string) : Rag.StreamEvent :=
  Rag.mkEvent (lit "content_block_delta") (Some (Rag.mkDelta (lit "text_delta") (lit s))).

Definition message_start : Rag.StreamEvent := Rag.mkEvent (lit "message_start") None.

Definition events : list Rag.StreamEvent :=
  [message_start; text_delta "The fox "; text_delta "is quick."].

Definition overloaded : exn := Error (lit "Overloaded").

Definition rag_world (outcome : option exn) : Rag.World Z :=
  Rag.mkWorld (Some (lit "sk-key")) flaky
    (fun _ => Rag.mkRpc (Some [fox_match; other_match]) None)
    (fun _ => (events, outcome)).

Definition ask (src : option string) : Rag.RagRequest :=
  Rag.mkRequest (Some (lit "What is quick?")) (lit <$> src).

Definition asked : jsstring := lit "What is quick?".

Definition flaky_trace : list Embeddings.effect := full_trace asked.

End Samples.

(* ===================================================================== *)
(** * String functions of the platform                                    *)
(* ===================================================================== *)

Module Text.
Import JS.

(** [s.startsWith(p)] *)
Fixpoint startsWith (s p : jsstring) : bool :=
  match p, s with
  | [], _ => true
  | _ :: _, [] => false
  | x :: p', y :: s' => (x =? y) && startsWith s' p'
  end.

(** [s.endsWith(p)] *)
Definition endsWith (s p : jsstring) : bool := startsWith (rev s) (rev p).

(** [s.indexOf(p)], with [from] the position of [s] in the whole string:
    the first position at which [p] occurs, or [-1]. *)
Fixpoint indexOf_from (from : Z) (s p : jsstring) : Z :=
  if startsWith s p then from
  else match s with
       | [] => -1
       | _ :: rest => indexOf_from (from + 1) rest p
       end.

Definition indexOf (s p : jsstring) : Z := indexOf_from 0 s p.

(** [s.includes(p)] *)
Definition includes (s p : jsstring) : bool := negb (indexOf s p =? -1).

(** White space and line terminators, as [trim] sees them. *)
Definition is_space (c : Z) : bool :=
  (c =? 9) || (c =? 10) || (c =? 11) || (c =? 12) || (c =? 13) || (c =? 32)
  || (c =? 160) || (c =? 5760) || ((8192 <=? c) && (c <=? 8202))
  || (c =? 8232) || (c =? 8233) || (c =? 8239) || (c =? 8287)
  || (c =? 12288) || (c =? 65279).

Fixpoint trimStart (s : jsstring) : jsstring :=
  match s with
  | [] => []
  | c :: rest => if is_space c then trimStart rest else s
  end.

Definition trimEnd (s : jsstring) : jsstring := rev (trimStart (rev s)).

(** [s.trim()] *)
Definition trim (s : jsstring) : jsstring := trimEnd (trimStart s).

End Text.

(* ===================================================================== *)
(** * src/app/api/documents/route.ts: DELETE                              *)
(* ===================================================================== *)

Module DocumentsStore.
Import JS Documents.

Inductive DeleteBody :=
| Deleted                          (* { success: true } *)
| DeleteFailure (error : jsstring).

Record DeleteResponse := mkDeleteResponse {
  delete_status : Z;
  delete_body : DeleteBody
}.

(** [supabase.from("documents").delete().eq("metadata->>source", src)] on
    the rows of the table: the rows whose source is [src] go, or the store
    reports an error and nothing changes. *)
Definition delete_eq_source (store_error : option jsstring) (src : jsstring)
    (table : list Row) : list Row * option jsstring :=
  match store_error with
  | Some msg => (table, Some msg)
  | None => (List.filter (fun row => negb (has_source src row)) table, None)
  end.

(** [DELETE(req)]; [body_source] is [body?.source], [None] when absent. *)
Definition DELETE (store_error : option jsstring) (table : list Row)
    (body_source : option jsstring) : DeleteResponse * list Row :=
  match body_source with
  | None => (mkDeleteResponse 400 (DeleteFailure (lit "Missing source to delete")), table)
  | Some src =>
      if negb (truthy src) then
        (mkDeleteResponse 400 (DeleteFailure (lit "Missing source to delete")), table)
      else
        match delete_eq_source store_error src table with
        | (table, Some msg) => (mkDeleteResponse 500 (DeleteFailure msg), table)
        | (table, None) => (mkDeleteResponse 200 Deleted, table)
        end
  end.

End DocumentsStore.

(* ===================================================================== *)
(** * src/app/api/upload/route.ts: PDF upload                             *)
(* ===================================================================== *)

Module UploadPdf.
Import JS Text.

(** What [pdfExtraction(buffer)] resolves to: [data], with [data.text]. *)
Record PdfData := mkPdfData { pdf_text : option jsstring }.

(** An uploaded file, with the outcome of [pdfExtraction] on its bytes. *)
Record File := mkFile {
  name : jsstring;
  type : jsstring;
  size : Z;
  extraction : completion (option PdfData)
}.

Definition empty_pdf : exn :=
  Error (lit "PDF appears to be empty or contains no extractable text.").

(** The [try] block of [extractTextFromPDF]. *)
Definition try_extract (file : File) : completion jsstring :=
  match extraction file with
  | Throw e => Throw e
  | Return data =>
      match data ≫= pdf_text with
      | None => Throw empty_pdf
      | Some text =>
          if negb (truthy text) || negb (truthy (trim text)) then Throw empty_pdf
          else Return (trim text)
      end
  end.

(** The [catch] block of [extractTextFromPDF]. *)
Definition catch_extract (error : exn) : exn :=
  let m := message error in
  if includes m (lit "password") || includes m (lit "encrypted") then
    Error (lit "This PDF is password-protected and cannot be processed.")
  else if includes m (lit "corrupt") || includes m (lit "invalid") then
    Error (lit "This PDF file appears to be corrupted or invalid.")
  else if includes m (lit "empty") || includes m (lit "no extractable text") then
    error
  else Error (lit "Failed to extract text from PDF: " ++ m).

(** [extractTextFromPDF(file)] *)
Definition extractTextFromPDF (file : File) : completion jsstring :=
  match try_extract file with
  | Return text => Return text
  | Throw error => Throw (catch_extract error)
  end.

Section WithNumber.
Context {number : Type}.

Definition bad_request (msg : string) : Upload.Response :=
  Upload.mkResponse 400 (Upload.Failure (lit msg)).

(** [POST(req)] for a multipart body: [file] is [formData.get("file")] when
    it is a [File], [filenameParam] is [formData.get("filename")]. *)
Definition POST (fuel : nat) (w : Upload.World number) (table : list (Upload.NewRow number))
    (file : option File) (filenameParam : option jsstring)
    : option (Upload.Response * list (Upload.NewRow number)) :=
  match file with
  | None => Some (bad_request "No file provided in FormData.", table)
  | Some file =>
      let filename :=
        match filenameParam with
        | Some f => if truthy f then f else name file
        | None => name file
        end in
      if negb (truthy filename) then Some (bad_request "Invalid filename.", table)
      else if size file >? 10 * 1024 * 1024 then
        Some (bad_request "File too large. Limit is 10MB.", table)
      else
        let isPdf :=
          streq (type file) (lit "application/pdf") || endsWith filename (lit ".pdf") in
        if negb isPdf then
          Some (bad_request
                  "Only PDF files are supported via file upload. Use text paste for .txt files.",
                table)
        else
          match extractTextFromPDF file with
          | Throw error =>
              Some (Upload.mkResponse 500 (Upload.Failure (message error)), table)
          | Return content =>
              if negb (truthy content) || (strlen (trim content) =? 0) then
                Some (bad_request
                        "PDF appears to be empty or contains no extractable text.",
                      table)
              else Upload.ingest fuel w table content filename
          end
  end.

End WithNumber.

End UploadPdf.

(* ===================================================================== *)
(** * src/app/page.tsx: the reply as the chat page reads it               *)
(* ===================================================================== *)

Module Chat.
Import JS Text.

Definition SOURCE_MARKER : jsstring := lit "__SOURCES__".

(** [visibleText] of the reading loop, for the text received so far. *)
Definition visibleText (fullText : jsstring) : jsstring :=
  let markerIndex := indexOf fullText SOURCE_MARKER in
  if markerIndex =? -1 then fullText else slice fullText 0 markerIndex.

(** ** What [JSON.parse] accepts

    A JSON text is made of strings between double quotes and, outside
    them, of white space, digits, signs, brackets, colons, commas and the
    letters of [true], [false] and [null]; inside a string no code unit
    is below 32 and a backslash is followed by one of nine characters.
    [scan] follows a text through these three places; [JSON.parse] throws
    on a text that [scan] does not follow to its end outside a string. *)
Inductive place := Outside | Inside | Escaped.

Definition outside_char (c : Z) : bool :=
  (c =? 9) || (c =? 10) || (c =? 13) || (c =? 32)            (* white space *)
  || ((48 <=? c) && (c <=? 57))                              (* digits *)
  || (c =? 43) || (c =? 45) || (c =? 46) || (c =? 69) || (c =? 101)   (* + - . E e *)
  || (c =? 91) || (c =? 93) || (c =? 123) || (c =? 125)      (* brackets and braces *)
  || (c =? 58) || (c =? 44)                                  (* colon and comma *)
  || (c =? 97) || (c =? 102) || (c =? 108) || (c =? 110)     (* a f l n *)
  || (c =? 114) || (c =? 115) || (c =? 116) || (c =? 117).   (* r s t u *)

Definition escape_char (c : Z) : bool :=
  (c =? 34) || (c =? 92) || (c =? 47) || (c =? 98) || (c =? 102)
  || (c =? 110) || (c =? 114) || (c =? 116) || (c =? 117).

Definition step (p : place) (c : Z) : option place :=
  match p with
  | Outside =>
      if c =? 34 then Some Inside
      else if outside_char c then Some Outside else None
  | Inside =>
      if c =? 34 then Some Outside
      else if c =? 92 then Some Escaped
      else if c <? 32 then None else Some Inside
  | Escaped => if escape_char c then Some Inside else None
  end.

Fixpoint scan (p : place) (s : jsstring) : option place :=
  match s with
  | [] => Some p
  | c :: rest =>
      match step p c with
      | Some p' => scan p' rest
      | None => None
      end
  end.

Definition scans (s : jsstring) : bool :=
  match scan Outside s with
  | Some Outside => true
  | _ => false
  end.

Section WithSource.
Context {Source : Type}.

(** [JSON.parse(text) as Source[]]: the array, or the error thrown. *)
Variable JSON_parse : jsstring -> completion (list Source).

(** The assistant message: it starts with [content: ""] and
    [sources: []]. *)
Record Message := mkMessage { content : jsstring; sources : list Source }.

(** The assistant message once the body has been read to its end.  The
    reading loop leaves [visibleText] in it.  Then, when the marker is
    there, what follows the marker goes to [JSON.parse]: the message gets
    the answer and the parsed sources, or, when [JSON.parse] throws, the
    [catch] clause puts the message of the error in [content]. *)
Definition read_reply (fullText : jsstring) : Message :=
  let shown := mkMessage (visibleText fullText) [] in
  let markerIndex := indexOf fullText SOURCE_MARKER in
  if negb (markerIndex =? -1) then
    let answer := slice fullText 0 markerIndex in
    let sourcesJson :=
      slice fullText (markerIndex + strlen SOURCE_MARKER) (strlen fullText) in
    match JSON_parse (if truthy sourcesJson then sourcesJson else lit "[]") with
    | Return parsedSources => mkMessage (trim answer) parsedSources
    | Throw err => mkMessage (message err) (sources shown)
    end
  else shown.

End WithSource.
Arguments Message : clear implicits.

End Chat.

(* ===================================================================== *)
(** * SourceCitations: the colour of the similarity badge                 *)
(* ===================================================================== *)

Module Citations.
Import JS.

(** [similarityColor(score)] for a whole number [score], on which
    [Math.round(score * 100)] is [score * 100]. *)
Definition similarityColor (score : Z) : jsstring :=
  let percent := score * 100 in
  if percent >? 85 then lit "text-emerald-400"
  else if percent >=? 70 then lit "text-amber-400"
  else lit "text-red-400".

(** The class of the badge in [SourceCitations], where [percent] is
    [Math.round(source.similarity * 100)]. *)
Definition badge_class (percent : Z) : jsstring :=
  similarityColor percent ++ lit " bg-transparent".

End Citations.

(* ===================================================================== *)
(** * src/app/api/upload/route.ts: the body of an answer while it is read *)
(* ===================================================================== *)

(** [start] is an async function: it runs until the [for await] waits for
    the next event of the model's stream, and the consumer of the response
    reads the body in between.  [Rag.POST] gives the body as it ends up
    when nothing is read meanwhile; here the reads fall where a schedule
    puts them. *)
Module Delivery.
Import JS Platform Rag.

(** Who runs next: [start], up to its next wait or its end, or the
    consumer, which reads one chunk at a time: it calls [reader.read()]
    and waits for the result before it does anything else. *)
Inductive turn := Produce | Read.

Section WithNumber.
Context {number : Type} (number_to_json : number -> jsstring).

Record body := mkBody {
  upcoming : option MessageStream;   (* what the loop waits for; [None]: [start] has ended *)
  readable : controller;
  waiting : bool                     (* a read of the consumer is pending *)
}.

Definition new_body (claudeStream : MessageStream) : body :=
  mkBody (Some claudeStream) new_controller false.

(** What is left of [start] once the iteration is over, normally or with
    [ending] raised, and what [new ReadableStream] does with an exception
    that leaves [start]. *)
Definition finish (payload : json number) (ending : option exn) (c : controller)
    : controller :=
  let (c, thrown) := start number_to_json ([], ending) payload c in
  match thrown with
  | Some r => error c r
  | None => c
  end.

(** The producer's turn: the next event goes through the body of the
    loop, or the iteration is over and [start] runs to its end. *)
Definition produce (payload : json number) (b : body) : body :=
  match upcoming b with
  | None => b
  | Some ([], ending) => mkBody None (finish payload ending (readable b)) (waiting b)
  | Some (event :: rest, ending) =>
      match forward [event] (readable b) with
      | (c, None) => mkBody (Some (rest, ending)) c (waiting b)
      | (c, Some e) => mkBody None (finish payload (Some e) c) (waiting b)
      end
  end.

(** A read against the stream as it is: its result goes to the consumer's
    log, unless the stream is readable and has nothing to give, in which
    case the read is pending. *)
Definition attempt (b : body) (log : list read_result) : body * list read_result :=
  match read (readable b) with
  | (_, Pending) => (mkBody (upcoming b) (readable b) true, log)
  | (c, r) => (mkBody (upcoming b) c false, log ++ [r])
  end.

(** The consumer's turn: a new read, unless its last one is still
    pending. *)
Definition consume (b : body) (log : list read_result) : body * list read_result :=
  if waiting b then (b, log) else attempt b log.

(** After a turn of the producer a pending read gets what the producer
    has made available: the chunk enqueued, the end of the stream, or the
    rejection. *)
Definition settle (b : body) (log : list read_result) : body * list read_result :=
  if waiting b then attempt b log else (b, log).

Fixpoint run (payload : json number) (schedule : list turn) (b : body)
    (log : list read_result) : body * list read_result :=
  match schedule with
  | [] => (b, log)
  | Produce :: rest =>
      let (b, log) := settle (produce payload b) log in run payload rest b log
  | Read :: rest => let (b, log) := consume b log in run payload rest b log
  end.

End WithNumber.

End Delivery.

(* ===================================================================== *)
(** * src/lib/chunking.ts on any number                                   *)
(* ===================================================================== *)

(** The sizes of [chunkText] are JavaScript numbers.  [Chunking] has them
    as integers; here a size may also be [NaN], which every comparison
    answers with false and every sum and difference hands on. *)
Module JSNumber.
Import JS.

Inductive number :=
| NaN
| Int (z : Z).

(** [a + b] and [a - b] *)
Definition add (a b : number) : number :=
  match a, b with
  | Int x, Int y => Int (x + y)
  | _, _ => NaN
  end.

Definition sub (a b : number) : number :=
  match a, b with
  | Int x, Int y => Int (x - y)
  | _, _ => NaN
  end.

(** [a < b], [a <= b], [a > b] and [a >= b] *)
Definition lt (a b : number) : bool :=
  match a, b with
  | Int x, Int y => x <? y
  | _, _ => false
  end.

Definition le (a b : number) : bool :=
  match a, b with
  | Int x, Int y => x <=? y
  | _, _ => false
  end.

Definition gt (a b : number) : bool := lt b a.

Definition ge (a b : number) : bool := le b a.

(** The integer that an argument of [slice] stands for: [NaN] counts
    as 0. *)
Definition to_integer (n : number) : Z :=
  match n with
  | NaN => 0
  | Int z => z
  end.

(** [s.slice(start, end)] *)
Definition slice (s : jsstring) (start end_ : number) : jsstring :=
  JS.slice s (to_integer start) (to_integer end_).

End JSNumber.

Module ChunkingNumbers.
Import JS.

(** The [while (position < text.length)] loop. *)
Fixpoint chunk_loop (fuel : nat) (text : jsstring) (chunkSize overlap : JSNumber.number)
    (position : JSNumber.number) (index : Z) (chunks : list Chunking.Chunk)
    : option (list Chunking.Chunk) :=
  if JSNumber.lt position (JSNumber.Int (strlen text)) then
    match fuel with
    | O => None
    | S fuel' =>
        let chunkText :=
          JSNumber.slice text position (JSNumber.add position chunkSize) in
        let chunks := chunks ++ [Chunking.mkChunk chunkText index] in
        chunk_loop fuel' text chunkSize overlap
          (JSNumber.add position (JSNumber.sub chunkSize overlap)) (index + 1) chunks
    end
  else Some chunks.

(** [chunkText(text, chunkSize = 500, overlap = 50)] *)
Definition chunkText (fuel : nat) (text : jsstring)
    (chunkSize_arg overlap_arg : option JSNumber.number)
    : option (completion (list Chunking.Chunk)) :=
  let chunkSize := default (JSNumber.Int 500) chunkSize_arg in
  let overlap := default (JSNumber.Int 50) overlap_arg in
  if JSNumber.le chunkSize (JSNumber.Int 0) then
    Some (Throw (Error (lit "chunkSize must be positive")))
  else if JSNumber.lt overlap (JSNumber.Int 0) then
    Some (Throw (Error (lit "overlap cannot be negative")))
  else if JSNumber.ge overlap chunkSize then
    Some (Throw (Error (lit "overlap must be smaller than chunkSize")))
  else
    Return <$> chunk_loop fuel text chunkSize overlap (JSNumber.Int 0) 0 [].

End ChunkingNumbers.

(* ===================================================================== *)
(** * src/app/api/upload/route.ts: reading the JSON body                  *)
(* ===================================================================== *)

(** [Upload.POST] starts from the properties of the body.  Before that the
    handler awaits [req.json()] and reads [body.content], both inside its
    [try]: a body that is not JSON rejects the promise, and the JSON text
    [null] makes the property access throw. *)
Module UploadJson.
Import JS.

(** The [TypeError] of reading a property of [null]; the wording of its
    message is the engine's. *)
Definition null_body : exn :=
  TypeError (lit "Cannot read properties of null (reading 'content')").

(** A value that [req.json()] resolves to: [null], or a value whose
    [content] and [filename] can be read. *)
Inductive Parsed :=
| Null
| Fields (request : Upload.UploadRequest).

Section WithNumber.
Context {number : Type}.

(** [POST(req)] for a request that is not multipart; [json] is the outcome
    of [req.json()]. *)
Definition POST (fuel : nat) (w : Upload.World number) (table : list (Upload.NewRow number))
    (json : completion Parsed)
    : option (Upload.Response * list (Upload.NewRow number)) :=
  match json with
  | Throw error => Some (Upload.mkResponse 500 (Upload.Failure (message error)), table)
  | Return Null =>
      Some (Upload.mkResponse 500 (Upload.Failure (message null_body)), table)
  | Return (Fields body) => Upload.POST fuel w table body
  end.

End WithNumber.

End UploadJson.

(* ===================================================================== *)
(** * Vocabulary of the further properties                                *)
(* ===================================================================== *)

Section DocumentsMoreVocabulary.
Import JS Documents.

(** The row has a source that gets an entry in the listing. *)
Definition counted (row : Row) : bool :=
  match row_metadata row ≫= metadata_source with
  | Some s => listable s
  | None => false
  end.

(** The sum of the [chunk_count]s of a listing. *)
Definition total_count (l : list DocumentSummary) : Z :=
  fold_right Z.add 0 (map chunk_count l).

(** The listing that [GET] answers with, [[]] when it answers an error. *)
Definition listing (rows : list Row) : list DocumentSummary :=
  match body (GET (mkSelect (Some rows) None)) with
  | Summaries l => l
  | Failure _ => []
  end.

End DocumentsMoreVocabulary.

Section DocumentsMoreVocabulary2.
Import JS Documents.

(** The object [summaries] after the loop body has run on [row]. *)
Definition visited (m : gmap jsstring DocumentSummary) (row : Row)
    : gmap jsstring DocumentSummary :=
  match row_metadata row ≫= metadata_source with
  | Some s =>
      if listable s then
        <[s := increment (default (mkSummary s 0 (row_created_at row)) (m !! s))]> m
      else m
  | None => m
  end.

End DocumentsMoreVocabulary2.

Section UploadMoreVocabulary.
Import JS Upload.
Context {number : Type}.

(** The call of [generateEmbedding] for the chunk at position [i] returns
    the vector [v]. *)
Definition embeds (fuel : nat) (w : World number) (i : nat) (chunk : Chunking.Chunk)
    (v : list number) : Prop :=
  exists trace,
    Embeddings.generateEmbedding fuel (embeddings_create w i) (Chunking.text chunk)
    = Some (Return v, trace).

(** The call of [generateEmbedding] for the chunk at position [i] throws
    [e]. *)
Definition rejects (fuel : nat) (w : World number) (i : nat) (chunk : Chunking.Chunk)
    (e : exn) : Prop :=
  exists trace,
    Embeddings.generateEmbedding fuel (embeddings_create w i) (Chunking.text chunk)
    = Some (Throw e, trace).

(** The content and the file name of a JSON body that passes the checks of
    the handler. *)
Definition validated (request : UploadRequest) : option (jsstring * jsstring) :=
  match req_content request, req_filename request with
  | Some c, Some f =>
      if truthy c && truthy f && (strlen c <=? 50000) then Some (c, f) else None
  | _, _ => None
  end.

(** The chunks of an upload: the defaults of the segmenter. *)
Definition upload_chunks (content : jsstring) : list Chunking.Chunk :=
  chunks_of content 500 450.

End UploadMoreVocabulary.

Section UploadPdfVocabulary.
Import JS Text UploadPdf.

(** The file name a multipart upload goes under: the [filename] field when
    it is a non-empty string, the name of the file otherwise. *)
Definition upload_name (file : File) (filenameParam : option jsstring) : jsstring :=
  match filenameParam with
  | Some f => if truthy f then f else name file
  | None => name file
  end.

(** The upload passes the checks made before the PDF is opened. *)
Definition is_pdf_upload (file : File) (filenameParam : option jsstring) : bool :=
  truthy (upload_name file filenameParam)
  && (size file <=? 10485760)
  && (streq (type file) (lit "application/pdf")
      || endsWith (upload_name file filenameParam) (lit ".pdf")).

(** What the library extracted holds nothing but white space. *)
Definition blank (data : option PdfData) : bool :=
  negb (from_option (fun t => truthy (trim t)) false (data ≫= pdf_text)).

End UploadPdfVocabulary.

Section RagMoreVocabulary.
Import JS Platform Rag.
Context {number : Type}.

(** The calls that may follow the embedding of the question: none, the
    store query, or the store query and then the generation. *)
Inductive call_tail : list (call number) -> Prop :=
| tail_none : call_tail []
| tail_store (v : list number) : call_tail [MatchDocuments v 0.7%Q 3]
| tail_generation (v : list number) (prompt : jsstring) :
    call_tail [MatchDocuments v 0.7%Q 3;
               MessagesStream (lit "claude-sonnet-4-5-20250929") 2048
                 system_instruction prompt].

(** The request passes the checks made before any call. *)
Definition askable (w : World number) (request : RagRequest) : bool :=
  from_option truthy false (question request)
  && from_option truthy false (ANTHROPIC_API_KEY w).

(** The [content] fields of a JSON array of objects, in order. *)
Definition cited_contents (payload : json number) : list (option (json number)) :=
  match payload with
  | JArray items => map (fun item => get_property (Some item) (lit "content")) items
  | _ => []
  end.

End RagMoreVocabulary.

Section ChatVocabulary.
Import JS Chat.
Context {Source : Type}.

(** [JSON.parse] returns only on texts that [scans] follows. *)
Definition lexical (JSON_parse : jsstring -> completion (list Source)) : Prop :=
  forall s v, JSON_parse s = Return v -> scans s = true.

(** The message for an answer whose sources went through [JSON.parse]. *)
Definition parsed_reply (answer : jsstring) (parsed : completion (list Source))
    : Message Source :=
  match parsed with
  | Return parsedSources => mkMessage answer parsedSources
  | Throw err => mkMessage (message err) []
  end.

End ChatVocabulary.

Section UploadJsonVocabulary.
Import JS UploadJson.

(** The properties read from the body, when there is a body to read them
    from. *)
Definition fields (json : completion Parsed) : option Upload.UploadRequest :=
  match json with
  | Return (Fields request) => Some request
  | _ => None
  end.

End UploadJsonVocabulary.

Section ChunkingNumbersVocabulary.
Import JS JSNumber.

(** The preconditions [chunkSize > 0] and [0 <= overlap < chunkSize], as
    the comparisons of the language decide them. *)
Definition preconditions (chunkSize overlap : number) : bool :=
  gt chunkSize (Int 0) && le (Int 0) overlap && lt overlap chunkSize.

(** One of the three guards of [chunkText] fires. *)
Definition guarded (chunkSize overlap : number) : bool :=
  le chunkSize (Int 0) || lt overlap (Int 0) || ge overlap chunkSize.

End ChunkingNumbersVocabulary.

Section DeliveryVocabulary.
Import JS Platform Delivery.

(** The chunks among the results of the consumer's reads, in order. *)
Definition values (log : list read_result) : list (list Z) :=
  omap (fun r => match r with Value chunk => Some chunk | _ => None end) log.

(** The turns of the producer and of the consumer in a schedule. *)
Fixpoint produces (schedule : list turn) : nat :=
  match schedule with
  | [] => 0
  | Produce :: rest => S (produces rest)
  | Read :: rest => produces rest
  end.

Fixpoint reads (schedule : list turn) : nat :=
  match schedule with
  | [] => 0
  | Produce :: rest => reads rest
  | Read :: rest => S (reads rest)
  end.

End DeliveryVocabulary.

(* ===================================================================== *)
(** * More concrete runs                                                  *)
(* ===================================================================== *)

Module MoreSamples.
Import JS Platform Samples.

(** A PDF whose text is the fox sentence between spaces. *)
Definition pdf_file : UploadPdf.File :=
  UploadPdf.mkFile (lit "report.pdf") (lit "application/pdf") 2048
    (Return (Some (UploadPdf.mkPdfData (Some (lit "  The quick brown fox.  "))))).

(** A PDF with nothing but white space in it. *)
Definition blank_file : UploadPdf.File :=
  UploadPdf.mkFile (lit "scan.pdf") (lit "application/pdf") 2048
    (Return (Some (UploadPdf.mkPdfData (Some (lit "   "))))).

(** A text file sent as a file. *)
Definition text_file : UploadPdf.File :=
  UploadPdf.mkFile (lit "notes.txt") (lit "text/plain") 2048
    (Return (Some (UploadPdf.mkPdfData (Some fox)))).

(** An answer that holds the marker. *)
Definition marked_answer : jsstring := lit "see __SOURCES__ above".

Definition plain_answer : jsstring := lit "The fox is quick.".

(** The JSON of the match [fox_match], and a parser that knows this one
    text. *)
Definition fox_json : jsstring := stringify render (Rag.sourcesPayload 0 [fox_match]).

Definition parse_fox (s : jsstring) : completion (list (json Z)) :=
  if streq s fox_json then Return [Rag.payload_entry 0 fox_match]
  else Throw (Error (lit "Unexpected token")).

(** An embedding service that is down. *)
Definition down : Embeddings.service Z := fun _ => network_error.

Definition world_down : Rag.World Z :=
  Rag.mkWorld (Some (lit "sk-key")) down
    (fun _ => Rag.mkRpc (Some [fox_match; other_match]) None)
    (fun _ => (events, None)).

(** A consumer that reads once after the second event and again at the
    end: the turns of the producer and of the consumer. *)
Definition prompt_reader : list Delivery.turn :=
  [Delivery.Produce; Delivery.Produce; Delivery.Read; Delivery.Produce;
   Delivery.Produce; Delivery.Read].

Definition stored_rows : list Documents.Row :=
  [listed_row "notes.txt" "2024-01-01T00:00:00+00:00";
   listed_row "fox.txt" "2024-01-02T00:00:00+00:00";
   listed_row "notes.txt" "2024-01-03T00:00:00+00:00"].

End MoreSamples.

(* ===================================================================== *)
(** * Properties of the segmenter                                         *)
(* ===================================================================== *)

Section ChunkingProperties.
Import JS Chunking.

Lemma ceil_div_0 b : ceil_div 0 b = 0%nat.
Proof.
  unfold ceil_div. destruct b as [|b]; [reflexivity|].
  apply Nat.div_small. lia.
Qed.

Lemma ceil_div_step a b :
  (0 < b)%nat -> (0 < a)%nat -> ceil_div a b = S (ceil_div (a - b) b).
Proof.
  intros Hb Ha. unfold ceil_div.
  destruct (le_lt_dec b a) as [Hle|Hlt].
  - replace (a + b - 1)%nat with ((a - b + b - 1) + 1 * b)%nat by lia.
    rewrite Nat.div_add by lia. lia.
  - replace (a - b)%nat with 0%nat by lia.
    rewrite (Nat.div_small (0 + b - 1) b) by lia.
    symmetry. apply (Nat.div_unique _ _ 1%nat (a - 1)%nat); lia.
Qed.

Lemma ceil_div_bounds a b :
  (0 < b)%nat -> (0 < a)%nat ->
  ((ceil_div a b - 1) * b < a <= ceil_div a b * b)%nat.
Proof.
  intros Hb Ha. unfold ceil_div.
  pose proof (Nat.div_mod_eq (a + b - 1) b) as E.
  pose proof (Nat.mod_upper_bound (a + b - 1) b ltac:(lia)) as U.
  set (q := ((a + b - 1) / b)%nat) in *.
  set (r := ((a + b - 1) mod b)%nat) in *.
  assert (1 <= q)%nat by (destruct q; [lia | lia]).
  nia.
Qed.

Lemma slice_from (text : jsstring) (p : nat) (size : Z) :
  0 < size ->
  slice text (Z.of_nat p) (Z.of_nat p + size)
  = take (Z.to_nat size) (drop p text).
Proof.
  intros Hs. unfold slice, clamp_index, strlen.
  destruct (Z.ltb_spec (Z.of_nat p) 0); [lia|].
  destruct (Z.ltb_spec (Z.of_nat p + size) 0); [lia|].
  destruct (le_lt_dec p (length text)) as [Hle|Hlt].
  - rewrite (Z.min_l (Z.of_nat p)) by lia.
    rewrite Nat2Z.id.
    destruct (Z.le_ge_cases (Z.of_nat p + size) (Z.of_nat (length text))).
    + rewrite Z.min_l by lia. f_equal. lia.
    + rewrite Z.min_r by lia.
      rewrite !take_ge; [reflexivity | |]; rewrite length_drop; lia.
  - rewrite !Z.min_r by lia. rewrite Nat2Z.id.
    rewrite !drop_ge by lia. by rewrite !take_nil.
Qed.

(** The loop, started at position [p] with [p + fuel] past the end of the
    text, appends the chunks that start at [p], [p + step], ... *)
Lemma chunk_loop_spec (text : jsstring) (chunkSize overlap : Z) :
  valid chunkSize overlap ->
  let size := Z.to_nat chunkSize in
  let step := Z.to_nat (chunkSize - overlap) in
  forall fuel p idx acc,
    (length text - p <= fuel)%nat ->
    chunk_loop fuel text chunkSize overlap (Z.of_nat p) idx acc
    = Some (acc ++ map (fun j => mkChunk (take size (drop (p + j * step) text))
                                   (idx + Z.of_nat j))
                     (seq 0 (ceil_div (length text - p) step))).
Proof.
  intros [Hsize Hov] size step.
  assert (Hstep : (0 < step)%nat) by (subst step; lia).
  induction fuel as [|fuel IH]; intros p idx acc Hfuel; cbn [chunk_loop].
  - unfold strlen. destruct (Z.ltb_spec (Z.of_nat p) (Z.of_nat (length text))); [lia|].
    replace (length text - p)%nat with 0%nat by lia.
    rewrite ceil_div_0. cbn. by rewrite app_nil_r.
  - unfold strlen. destruct (Z.ltb_spec (Z.of_nat p) (Z.of_nat (length text))).
    + replace (Z.of_nat p + (chunkSize - overlap)) with (Z.of_nat (p + step))
        by (subst step; lia).
      rewrite IH by lia.
      rewrite (ceil_div_step (length text - p) step) by lia.
      cbn [seq map]. rewrite <- seq_shift, map_map.
      rewrite slice_from by lia.
      rewrite <- app_assoc. cbn [app]. do 3 f_equal.
      * subst size. f_equal; [do 2 f_equal; lia | lia].
      * replace (length text - (p + step))%nat with (length text - p - step)%nat by lia.
        apply map_ext. intros j. f_equal; [do 2 f_equal; lia | lia].
    + replace (length text - p)%nat with 0%nat by lia.
      rewrite ceil_div_0. cbn. by rewrite app_nil_r.
Qed.

(** With valid parameters and fuel for [text.length] iterations the
    segmenter returns the closed form. *)
Lemma chunkText_spec (fuel : nat) (text : jsstring) (chunkSize overlap : Z) :
  valid chunkSize overlap ->
  (length text <= fuel)%nat ->
  chunkText fuel text (Some chunkSize) (Some overlap)
  = Some (Return (chunks_of text (Z.to_nat chunkSize) (Z.to_nat (chunkSize - overlap)))).
Proof.
  intros Hv Hfuel. pose proof Hv as [Hsize Hov].
  unfold chunkText. cbv beta iota zeta delta [from_option id].
  destruct (Z.leb_spec chunkSize 0); [lia|].
  destruct (Z.ltb_spec overlap 0); [lia|].
  unfold Z.geb. destruct (Z.compare_spec overlap chunkSize); try lia.
  change (chunk_loop fuel text chunkSize overlap 0 0 [])
    with (chunk_loop fuel text chunkSize overlap (Z.of_nat 0) 0 []).
  rewrite (chunk_loop_spec text chunkSize overlap Hv) by lia.
  cbn. unfold chunks_of, chunk_at. rewrite Nat.sub_0_r.
  do 2 f_equal.
Qed.

Lemma chunks_of_length text size step :
  length (chunks_of text size step) = ceil_div (length text) step.
Proof. unfold chunks_of. by rewrite length_map, length_seq. Qed.

Lemma chunks_of_lookup text size step k c :
  chunks_of text size step !! k = Some c <->
  (k < ceil_div (length text) step)%nat /\ c = chunk_at text size step k.
Proof.
  unfold chunks_of. rewrite list_lookup_fmap. split.
  - intros H. destruct (seq 0 _ !! k) as [j|] eqn:E; [|discriminate].
    apply lookup_seq in E as [-> ?]. cbn in H. split; [lia | congruence].
  - intros [Hk ->]. by rewrite (lookup_seq_lt 0 _ k Hk).
Qed.

(** A chunk exists at [k] exactly when its start lies inside the text. *)
Lemma lt_ceil_div k a b :
  (0 < b)%nat -> (k < ceil_div a b)%nat <-> (k * b < a)%nat.
Proof.
  intros Hb. destruct a as [|a].
  - rewrite ceil_div_0. lia.
  - pose proof (ceil_div_bounds (S a) b Hb ltac:(lia)). nia.
Qed.

(** The first [step] code units of the chunks from position [p] on make up
    the text from [p] on. *)
Lemma coverage_from (text : jsstring) (size step : nat) :
  (0 < step <= size)%nat ->
  forall m p,
    (length text - p <= m)%nat ->
    concat (map (fun j => take step (take size (drop (p + j * step) text)))
              (seq 0 (ceil_div (length text - p) step)))
    = drop p text.
Proof.
  intros Hstep. induction m as [|m IH]; intros p Hm.
  - replace (length text - p)%nat with 0%nat by lia.
    rewrite ceil_div_0, drop_ge by lia. reflexivity.
  - destruct (le_lt_dec (length text) p) as [Hle|Hlt].
    + replace (length text - p)%nat with 0%nat by lia.
      rewrite ceil_div_0, drop_ge by lia. reflexivity.
    + rewrite (ceil_div_step (length text - p) step) by lia.
      cbn [seq map concat]. rewrite <- seq_shift, map_map.
      rewrite Nat.add_0_r, take_take, Nat.min_l by lia.
      rewrite <- (take_drop step (drop p text)) at 2.
      f_equal. rewrite drop_drop, <- (IH (p + step)%nat) by lia.
      replace (length text - (p + step))%nat with (length text - p - step)%nat by lia.
      f_equal. apply map_ext. intros j. do 3 f_equal. lia.
Qed.

(** The final chunk is no longer than one step. *)
Lemma last_chunk_short (text : jsstring) (size step : nat) c :
  (0 < step)%nat ->
  last (chunks_of text size step) = Some c ->
  (length (Chunking.text c) <= step)%nat.
Proof.
  intros Hstep. unfold chunks_of. rewrite fmap_last.
  destruct (ceil_div (length text) step) as [|n] eqn:E; [discriminate|].
  rewrite seq_S, last_snoc. cbn. intros [= <-]. cbn.
  rewrite length_take, length_drop.
  destruct (length text) as [|L] eqn:EL; [by rewrite ceil_div_0 in E|].
  pose proof (ceil_div_bounds (S L) step Hstep ltac:(lia)) as B.
  rewrite E in B. nia.
Qed.

Lemma chunkText_guards fuel text chunkSize overlap :
  ~ valid chunkSize overlap ->
  InvalidParameter (chunkText fuel text (Some chunkSize) (Some overlap)).
Proof.
  intros Hinv. unfold chunkText, InvalidParameter.
  cbv beta iota zeta delta [from_option id].
  destruct (Z.leb_spec chunkSize 0).
  { eexists; split; [reflexivity | cbn; auto]. }
  destruct (Z.ltb_spec overlap 0).
  { eexists; split; [reflexivity | cbn; auto]. }
  unfold Z.geb. destruct (Z.compare_spec overlap chunkSize);
    try (eexists; split; [reflexivity | cbn; auto]).
  exfalso. apply Hinv. unfold valid. lia.
Qed.

(** On sizes that are integers the loop is the loop of [Chunking]. *)
Lemma chunk_loop_Int fuel (text : jsstring) (chunkSize overlap : Z) :
  forall position index chunks,
    ChunkingNumbers.chunk_loop fuel text (JSNumber.Int chunkSize) (JSNumber.Int overlap)
      (JSNumber.Int position) index chunks
    = chunk_loop fuel text chunkSize overlap position index chunks.
Proof.
  induction fuel as [|fuel IH]; intros position index chunks; cbn.
  - reflexivity.
  - destruct (position <? strlen text); [apply IH | reflexivity].
Qed.

Lemma chunkText_Int fuel (text : jsstring) (chunkSize overlap : Z) :
  ChunkingNumbers.chunkText fuel text
    (Some (JSNumber.Int chunkSize)) (Some (JSNumber.Int overlap))
  = chunkText fuel text (Some chunkSize) (Some overlap).
Proof.
  unfold ChunkingNumbers.chunkText, chunkText.
  cbv beta iota zeta delta [from_option id JSNumber.le JSNumber.lt JSNumber.ge].
  by rewrite chunk_loop_Int, Z.geb_leb.
Qed.

Lemma preconditions_Int (chunkSize overlap : Z) :
  preconditions (JSNumber.Int chunkSize) (JSNumber.Int overlap) = true
  <-> valid chunkSize overlap.
Proof.
  unfold preconditions, valid, JSNumber.gt, JSNumber.lt, JSNumber.le.
  rewrite !andb_true_iff, !Z.ltb_lt, Z.leb_le. tauto.
Qed.

(** The guards decide whether [chunkText] throws. *)
Lemma chunkText_guarded fuel (text : jsstring) (chunkSize overlap : JSNumber.number) :
  InvalidParameter (ChunkingNumbers.chunkText fuel text (Some chunkSize) (Some overlap))
  <-> guarded chunkSize overlap = true.
Proof.
  unfold ChunkingNumbers.chunkText, guarded, InvalidParameter.
  cbv beta iota zeta delta [from_option id].
  destruct (JSNumber.le chunkSize (JSNumber.Int 0)).
  { split; [done|]. intros _. eexists; split; [reflexivity | cbn; auto]. }
  destruct (JSNumber.lt overlap (JSNumber.Int 0)).
  { split; [done|]. intros _. eexists; split; [reflexivity | cbn; auto]. }
  destruct (JSNumber.ge overlap chunkSize).
  { split; [done|]. intros _. eexists; split; [reflexivity | cbn; auto]. }
  split; [|done]. intros (msg & E & _).
  by destruct (ChunkingNumbers.chunk_loop fuel text chunkSize overlap (JSNumber.Int 0) 0 []).
Qed.

(** Once the position is [NaN] the loop is over. *)
Lemma chunk_loop_NaN fuel (text : jsstring) (chunkSize overlap : JSNumber.number)
    (index : Z) (chunks : list Chunk) :
  ChunkingNumbers.chunk_loop fuel text chunkSize overlap JSNumber.NaN index chunks
  = Some chunks.
Proof. by destruct fuel. Qed.

Lemma slice_0_NaN (text : jsstring) :
  JSNumber.slice text (JSNumber.Int 0) JSNumber.NaN = [].
Proof.
  unfold JSNumber.slice, slice, clamp_index, strlen. cbn [JSNumber.to_integer].
  change (0 <? 0) with false. cbn iota. by rewrite Z.min_l by lia.
Qed.

(** C6. On sizes that are integers [chunkText] throws one of its three
    parameter errors whenever [chunkSize > 0] and [0 <= overlap < chunkSize]
    do not both hold, with no loop iteration at all; so it does for
    [chunkSize = 0] with any overlap, for [overlap = chunkSize] and for
    [overlap = chunkSize + 1].  On any number it throws exactly when one
    of the guards' comparisons holds, and a pair that is guarded violates
    the preconditions.  Not the other way round: a comparison with [NaN]
    is false, so a [chunkSize] that is [NaN] violates [chunkSize > 0] and
    passes every guard unless the overlap is negative, and an overlap
    that is [NaN] passes them under any positive [chunkSize].  The loop
    then runs once on a text that is not empty: [chunkText("abc", NaN, 0)]
    returns one chunk, with the empty text. *)
Theorem chunkText_NaN_passes_guards :
  (forall fuel text chunkSize overlap,
     ChunkingNumbers.chunkText fuel text
       (Some (JSNumber.Int chunkSize)) (Some (JSNumber.Int overlap))
     = chunkText fuel text (Some chunkSize) (Some overlap)
     /\ (preconditions (JSNumber.Int chunkSize) (JSNumber.Int overlap) = false ->
         InvalidParameter
           (ChunkingNumbers.chunkText fuel text
              (Some (JSNumber.Int chunkSize)) (Some (JSNumber.Int overlap)))))
  /\ (forall fuel text c overlap_arg,
        InvalidParameter
          (ChunkingNumbers.chunkText fuel text (Some (JSNumber.Int 0)) overlap_arg)
        /\ InvalidParameter
             (ChunkingNumbers.chunkText fuel text
                (Some (JSNumber.Int c)) (Some (JSNumber.Int c)))
        /\ InvalidParameter
             (ChunkingNumbers.chunkText fuel text
                (Some (JSNumber.Int c)) (Some (JSNumber.Int (c + 1)))))
  /\ (forall fuel text chunkSize overlap,
        (InvalidParameter
           (ChunkingNumbers.chunkText fuel text (Some chunkSize) (Some overlap))
         <-> guarded chunkSize overlap = true)
        /\ (guarded chunkSize overlap = true -> preconditions chunkSize overlap = false))
  /\ (forall fuel text overlap,
        preconditions JSNumber.NaN overlap = false
        /\ (JSNumber.lt overlap (JSNumber.Int 0) = false ->
            ChunkingNumbers.chunkText (S fuel) text (Some JSNumber.NaN) (Some overlap)
            = Some (Return (if truthy text then [mkChunk [] 0] else []))))
  /\ (forall fuel text chunkSize,
        preconditions (JSNumber.Int chunkSize) JSNumber.NaN = false
        /\ (0 < chunkSize ->
            ChunkingNumbers.chunkText (S fuel) text
              (Some (JSNumber.Int chunkSize)) (Some JSNumber.NaN)
            = Some (Return (if truthy text
                            then [mkChunk (take (Z.to_nat chunkSize) text) 0]
                            else []))))
  /\ preconditions JSNumber.NaN (JSNumber.Int 0) = false
  /\ ChunkingNumbers.chunkText 1 (lit "abc") (Some JSNumber.NaN) (Some (JSNumber.Int 0))
     = Some (Return [mkChunk [] 0]).
Proof.
  split; [|split; [|split; [|split; [|split; [|split]]]]].
  - intros fuel text chunkSize overlap. split; [apply chunkText_Int|].
    intros Hp. rewrite chunkText_Int. apply chunkText_guards.
    intros Hv. apply preconditions_Int in Hv. congruence.
  - intros fuel text c overlap_arg. split; [|split].
    + exists (lit "chunkSize must be positive"). split; [reflexivity | cbn; auto].
    + rewrite chunkText_Int. apply chunkText_guards. unfold valid. lia.
    + rewrite chunkText_Int. apply chunkText_guards. unfold valid. lia.
  - intros fuel text chunkSize overlap. split; [apply chunkText_guarded|].
    unfold guarded, preconditions, JSNumber.gt, JSNumber.ge, JSNumber.le, JSNumber.lt.
    destruct chunkSize as [|c], overlap as [|o]; cbn; rewrite ?andb_false_r; try done.
    rewrite !orb_true_iff, !andb_false_iff, !Z.leb_le, Z.ltb_lt, Z.leb_gt, !Z.ltb_ge.
    lia.
  - intros fuel text overlap. split; [done|]. intros Ho.
    unfold ChunkingNumbers.chunkText. cbv beta iota zeta delta [from_option id].
    rewrite Ho. cbn [JSNumber.le JSNumber.ge].
    destruct text as [|c text]; [reflexivity|].
    cbn [ChunkingNumbers.chunk_loop JSNumber.lt fmap option_fmap option_map truthy].
    unfold strlen. cbn [length].
    destruct (Z.ltb_spec 0 (Z.of_nat (S (length text)))); [|lia].
    cbn [JSNumber.add JSNumber.sub JSNumber.lt app].
    by rewrite chunk_loop_NaN, slice_0_NaN.
  - intros fuel text chunkSize.
    split; [unfold preconditions; cbn; by rewrite andb_false_r|].
    intros Hc. unfold ChunkingNumbers.chunkText.
    cbv beta iota zeta delta [from_option id]. cbn [JSNumber.le JSNumber.lt JSNumber.ge].
    destruct (Z.leb_spec chunkSize 0); [lia|].
    destruct text as [|c text]; [reflexivity|].
    cbn [ChunkingNumbers.chunk_loop JSNumber.lt fmap option_fmap option_map truthy].
    unfold strlen at 1. cbn [length].
    destruct (Z.ltb_spec 0 (Z.of_nat (S (length text)))); [|lia].
    cbn [JSNumber.add JSNumber.sub JSNumber.lt app].
    unfold JSNumber.slice. cbn [JSNumber.to_integer].
    rewrite chunk_loop_NaN.
    pose proof (slice_from (c :: text) 0 chunkSize Hc) as Hs.
    change (Z.of_nat 0) with 0 in Hs. rewrite Hs. by rewrite drop_0.
  - reflexivity.
  - vm_compute. reflexivity.
Qed.

(** C4. With valid parameters, the first [chunkSize - overlap] code units
    of every chunk, in index order, followed by what is left of the final
    chunk, are the text. *)
Theorem chunkText_lossless :
  forall (text : jsstring) (chunkSize overlap : Z) (fuel : nat),
    valid chunkSize overlap ->
    (length text <= fuel)%nat ->
    exists chunks,
      chunkText fuel text (Some chunkSize) (Some overlap) = Some (Return chunks)
      /\ let step := Z.to_nat (chunkSize - overlap) in
         concat (map (fun c => take step (Chunking.text c)) chunks)
         ++ from_option (fun c => drop step (Chunking.text c)) [] (last chunks)
         = text.
Proof.
  intros text chunkSize overlap fuel Hv Hfuel.
  eexists. split; [by apply chunkText_spec|]. cbn zeta.
  set (size := Z.to_nat chunkSize). set (step := Z.to_nat (chunkSize - overlap)).
  assert (Hstep : (0 < step <= size)%nat) by (unfold valid in Hv; subst size step; lia).
  assert (Hrest : from_option (fun c => drop step (Chunking.text c)) []
                    (last (chunks_of text size step)) = []).
  { destruct (last (chunks_of text size step)) as [c|] eqn:E; [|reflexivity].
    cbn. apply drop_ge. eapply last_chunk_short; [|exact E]. lia. }
  rewrite Hrest, app_nil_r. unfold chunks_of. rewrite map_map.
  pose proof (coverage_from text size step Hstep (length text) 0%nat ltac:(lia)) as C.
  rewrite Nat.sub_0_r in C. cbn [drop] in C. exact C.
Qed.

(** C5, as the code has it. With valid parameters, chunk [k] is the
    substring of at most [chunkSize] code units that starts at
    [k * (chunkSize - overlap)], its index is [k], and there is a chunk
    [k] exactly when that start lies before the end of the text.  The
    empty text gives no chunk; a text no longer than
    [chunkSize - overlap] gives the single chunk that is the whole text; a
    text no longer than [chunkSize] has the whole text as its first chunk
    (and further chunks when it is longer than [chunkSize - overlap]); the
    defaults are 500 and 50. *)
Theorem chunkText_chunks :
  forall (text : jsstring) (chunkSize overlap : Z) (fuel : nat),
    valid chunkSize overlap ->
    (length text <= fuel)%nat ->
    exists chunks,
      chunkText fuel text (Some chunkSize) (Some overlap) = Some (Return chunks)
      /\ (forall (k : nat) c,
            chunks !! k = Some c ->
            c = mkChunk
                  (take (Z.to_nat chunkSize)
                     (drop (Z.to_nat (Z.of_nat k * (chunkSize - overlap))) text))
                  (Z.of_nat k))
      /\ (forall k : nat,
            (k < length chunks)%nat <->
            Z.of_nat k * (chunkSize - overlap) < strlen text)
      /\ (text = [] -> chunks = [])
      /\ (0 < strlen text <= chunkSize - overlap -> chunks = [mkChunk text 0])
      /\ (0 < strlen text <= chunkSize -> head chunks = Some (mkChunk text 0))
      /\ chunkText fuel text None None = chunkText fuel text (Some 500) (Some 50).
Proof.
  intros text chunkSize overlap fuel Hv Hfuel. pose proof Hv as [Hsize Hov].
  eexists. split; [by apply chunkText_spec|].
  set (size := Z.to_nat chunkSize). set (step := Z.to_nat (chunkSize - overlap)).
  assert (Hstep : (0 < step)%nat) by (subst step; lia).
  assert (Hlen : forall k : nat,
             (k < length (chunks_of text size step))%nat <->
             Z.of_nat k * (chunkSize - overlap) < strlen text).
  { intros k. rewrite chunks_of_length, lt_ceil_div by lia.
    unfold strlen. subst step. nia. }
  repeat split.
  - intros k c Hk. apply chunks_of_lookup in Hk as [_ ->].
    unfold chunk_at. do 3 f_equal. subst step. nia.
  - apply Hlen.
  - apply Hlen.
  - intros ->. unfold chunks_of. cbn [length]. by rewrite ceil_div_0.
  - intros [Hpos Hshort]. unfold strlen in *.
    assert (E : ceil_div (length text) step = 1%nat).
    { pose proof (lt_ceil_div 0 (length text) step Hstep).
      pose proof (lt_ceil_div 1 (length text) step Hstep).
      assert (~ (1 * step < length text)%nat) by (subst step; lia).
      lia. }
    unfold chunks_of. rewrite E. cbn. unfold chunk_at. cbn.
    f_equal. f_equal. apply take_ge. subst size step. lia.
  - intros [Hpos Hshort]. unfold strlen in *.
    destruct (chunks_of text size step) as [|c0 rest] eqn:E.
    + exfalso. pose proof (Hlen 0%nat) as H0. unfold strlen in H0. cbn in H0. lia.
    + assert (Hc : chunks_of text size step !! 0%nat = Some c0) by (by rewrite E).
      apply chunks_of_lookup in Hc as [_ ->]. cbn.
      unfold chunk_at. cbn. do 2 f_equal. apply take_ge. subst size. lia.
Qed.

(** C10. A non-empty text of length [L] is cut into [ceil (L / step)]
    chunks, [step = chunkSize - overlap]; when [L mod step] is not zero
    and at most [overlap], the text of the final chunk is a suffix of the
    text of the chunk before it (the two exist as soon as [step < L]), so
    that its code units are stored at least twice; they can be stored more
    often still: seven code units cut with [chunkSize = 5], [overlap = 3]
    have the last one in three chunks. *)
Theorem chunkText_count :
  forall (text : jsstring) (chunkSize overlap : Z) (fuel : nat),
    valid chunkSize overlap ->
    text <> [] ->
    (length text <= fuel)%nat ->
    exists chunks,
      chunkText fuel text (Some chunkSize) (Some overlap) = Some (Return chunks)
      /\ let n := Z.of_nat (length chunks) in
         let step := chunkSize - overlap in
         let L := strlen text in
         (n - 1) * step < L <= n * step
         /\ n = (L + step - 1) / step
         /\ (0 < L mod step <= overlap ->
             forall (k : nat) p final,
               chunks !! k = Some p ->
               chunks !! S k = Some final ->
               length chunks = S (S k) ->
               Chunking.text final `suffix_of` Chunking.text p)
         /\ (step < L ->
             exists p final,
               chunks !! (length chunks - 2)%nat = Some p
               /\ chunks !! (length chunks - 1)%nat = Some final)
         /\ chunkText 7 Samples.seven (Some 5) (Some 3)
            = Some (Return Samples.four_chunks).
Proof.
  intros text chunkSize overlap fuel Hv Hne Hfuel. pose proof Hv as [Hsize Hov].
  eexists. split; [by apply chunkText_spec|]. cbn zeta.
  set (size := Z.to_nat chunkSize). set (step := Z.to_nat (chunkSize - overlap)).
  assert (Hstep : (0 < step)%nat) by (subst step; lia).
  assert (HL : (0 < length text)%nat) by (destruct text; [done | cbn; lia]).
  pose proof (ceil_div_bounds (length text) step Hstep HL) as B.
  rewrite chunks_of_length. unfold strlen.
  set (n := ceil_div (length text) step) in *.
  assert (Hn : (1 <= n)%nat).
  { destruct n; [|lia]. cbn in B. lia. }
  assert (Hbounds : (Z.of_nat n - 1) * (chunkSize - overlap) < Z.of_nat (length text)
                    <= Z.of_nat n * (chunkSize - overlap)).
  { subst step. nia. }
  split; [exact Hbounds|]. split; [|split; [|split]].
  - apply (Z.div_unique_pos _ _ _
      (Z.of_nat (length text) + (chunkSize - overlap) - 1
       - Z.of_nat n * (chunkSize - overlap))); lia.
  - intros Hmod k p final Hp Hf Hk.
    apply chunks_of_lookup in Hp as [_ ->].
    apply chunks_of_lookup in Hf as [_ ->].
    assert (k = (n - 2)%nat) as -> by lia.
    replace (S (n - 2)) with (n - 1)%nat by lia.
    unfold chunk_at. cbn.
    pose proof (Z.div_mod (Z.of_nat (length text)) (chunkSize - overlap) ltac:(lia)) as D.
    pose proof (Z.mod_pos_bound (Z.of_nat (length text)) (chunkSize - overlap) ltac:(lia)) as R.
    set (q := Z.of_nat (length text) / (chunkSize - overlap)) in *.
    set (r := Z.of_nat (length text) mod (chunkSize - overlap)) in *.
    clearbody q r.
    assert (Hs : Z.of_nat step = chunkSize - overlap) by (subst step; lia).
    assert (Hq : q = Z.of_nat n - 1).
    { assert (q < Z.of_nat n) by nia. assert (Z.of_nat n - 2 < q) by nia. lia. }
    assert (Hlast : Z.of_nat (length text)
                    = Z.of_nat ((n - 1) * step) + r) by nia.
    rewrite (take_ge (drop ((n - 1) * step) text)) by (rewrite length_drop; subst size; lia).
    rewrite (take_ge (drop ((n - 2) * step) text)).
    2:{ rewrite length_drop. subst size step. nia. }
    exists (take step (drop ((n - 2) * step) text)).
    rewrite <- (take_drop step (drop ((n - 2) * step) text)) at 1.
    f_equal. rewrite drop_drop. f_equal. nia.
  - intros Hlong.
    assert (2 <= n)%nat.
    { destruct (le_lt_dec 2 n); [done|]. assert (n = 1%nat) by lia. subst step. nia. }
    exists (chunk_at text size step (n - 2)), (chunk_at text size step (n - 1)).
    split; apply chunks_of_lookup; (split; [fold n; lia | reflexivity]).
  - vm_compute. reflexivity.
Qed.

End ChunkingProperties.

(* ===================================================================== *)
(** * Properties of the embedding client                                  *)
(* ===================================================================== *)

Section EmbeddingsProperties.
Import JS Embeddings.
Context {number : Type}.

(** A response that parses but holds no vector fails the attempt like
    any thrown error. *)
Lemma try_create_no_payload (response : CreateEmbeddingResponse number) :
  head (data response) ≫= embedding = None ->
  try_create (Return response)
  = Throw (Error (lit "No embedding returned from OpenAI")).
Proof. intros H. cbn. by rewrite H. Qed.

(** Three iterations are enough for the loop to end. *)
Lemma generateEmbedding_returns (api : service number) (text : jsstring) (fuel : nat) :
  (3 <= fuel)%nat -> is_Some (generateEmbedding fuel api text).
Proof.
  intros Hfuel. destruct fuel as [|[|[|fuel]]]; try lia.
  unfold generateEmbedding. cbn.
  destruct (try_create (api 0%nat)); [by eexists|]. cbn.
  destruct (try_create (api 1%nat)); [by eexists|]. cbn.
  destruct (try_create (api 2%nat)); by eexists.
Qed.

(** C3. Given fuel for three iterations, [generateEmbedding] returns
    after at most three calls to the service.  Its effects are a prefix
    of: call, wait 250, call, wait 500, call, ending with a call; so each
    wait precedes the next attempt and none follows the last.  Every
    attempt before the last failed, a response without a vector counting
    as a failure, and the result is that of the last attempt: its vector,
    or its error after three attempts.  Two failures followed by a success
    give the vector after the waits 250 and 500; three failures give the
    third error after the same two waits. *)
Theorem generateEmbedding_retries :
  forall (api : service number) (text : jsstring) (fuel : nat),
    (3 <= fuel)%nat ->
    exists result trace,
      generateEmbedding fuel api text = Some (result, trace)
      /\ (1 <= attempts trace <= 3)%nat
      /\ trace = take (2 * attempts trace - 1) (full_trace text)
      /\ delays trace = take (attempts trace - 1) [250; 500]
      /\ result = try_create (api (attempts trace - 1)%nat)
      /\ (forall n, (n < attempts trace - 1)%nat -> failed api n)
      /\ (failed api (attempts trace - 1) -> attempts trace = 3%nat)
      /\ (forall response : CreateEmbeddingResponse number,
            head (data response) ≫= embedding = None ->
            try_create (Return response)
            = Throw (Error (lit "No embedding returned from OpenAI")))
      /\ (forall vector,
            failed api 0 -> failed api 1 -> try_create (api 2%nat) = Return vector ->
            result = Return vector /\ delays trace = [250; 500])
      /\ (forall e,
            failed api 0 -> failed api 1 -> try_create (api 2%nat) = Throw e ->
            result = Throw e /\ delays trace = [250; 500]
            /\ attempts trace = 3%nat).
Proof.
  intros api text fuel Hfuel.
  destruct fuel as [|[|[|fuel]]]; try lia.
  unfold generateEmbedding. cbn.
  destruct (try_create (api 0%nat)) as [v0|e0] eqn:E0;
    [|cbn; destruct (try_create (api 1%nat)) as [v1|e1] eqn:E1;
       [|cbn; destruct (try_create (api 2%nat)) as [v2|e2] eqn:E2]].
  all: eexists _, _; (split; [reflexivity|]); cbn.
  all: repeat match goal with |- _ /\ _ => split end.
  all: intros.
  all: repeat match goal with H : failed _ _ |- _ => destruct H as [? ?] end.
  all: try match goal with
           | Hn : (?n < _)%nat |- failed _ ?n => destruct n as [|[|n]]
           end.
  all: try solve [ lia | congruence | reflexivity
                 | eexists; eassumption
                 | apply try_create_no_payload; assumption
                 | repeat split; congruence ].
Qed.

End EmbeddingsProperties.

(* ===================================================================== *)
(** * Properties of the document listing                                  *)
(* ===================================================================== *)

Section DocumentsProperties.
Import JS Documents.

Lemma well_keyed_insert m k s :
  well_keyed m -> source s = k -> listable k = true -> well_keyed (<[k := s]> m).
Proof.
  intros Hm Hs Hk k' s'. rewrite lookup_insert. case_decide as E.
  - intros [= <-]. subst. done.
  - apply Hm.
Qed.

Lemma rows_of_skip src row rows :
  has_source src row = false -> rows_of src (row :: rows) = rows_of src rows.
Proof. intros H. unfold rows_of. cbn. by rewrite H. Qed.

Lemma rows_of_keep src row rows :
  has_source src row = true -> rows_of src (row :: rows) = row :: rows_of src rows.
Proof. intros H. unfold rows_of. cbn. by rewrite H. Qed.

(** A row that leaves [summaries] as it is does not count for any source
    that has or can get an entry. *)
Lemma after_scan_skip m row rows :
  well_keyed m ->
  (forall src, listable src = true -> has_source src row = false) ->
  forall src, after_scan m (row :: rows) src = after_scan m rows src.
Proof.
  intros Hm Hskip src. unfold after_scan, summary_of.
  destruct (m !! src) as [s|] eqn:E.
  - destruct (Hm _ _ E) as [_ Hl]. by rewrite rows_of_skip by auto.
  - destruct (listable src) eqn:Hl; [|done]. by rewrite rows_of_skip by auto.
Qed.

Lemma scan_spec rows :
  forall m, well_keyed m ->
    exists m', scan m rows = Return m'
               /\ well_keyed m'
               /\ forall src, m' !! src = after_scan m rows src.
Proof.
  induction rows as [|row rows IH]; intros m Hm.
  - exists m. split; [done|]. split; [done|]. intros src.
    unfold after_scan, summary_of, add_rows. cbn.
    destruct (m !! src) as [[s c t]|] eqn:E.
    + cbn. do 2 f_equal. lia.
    + by destruct (listable src).
  - cbn [scan]. unfold visit.
    destruct (row_metadata row ≫= metadata_source) as [s|] eqn:Es.
    2:{ destruct (IH m Hm) as (m' & -> & Hm' & Hl). exists m'.
        split; [done|]. split; [done|]. intros src.
        rewrite Hl, after_scan_skip; [done | done |].
        intros src' _. unfold has_source. by rewrite Es. }
    destruct (truthy s) eqn:Ht; cbn [negb].
    2:{ destruct (IH m Hm) as (m' & -> & Hm' & Hl). exists m'.
        split; [done|]. split; [done|]. intros src.
        rewrite Hl, after_scan_skip; [done | done |].
        intros src' Hl'. unfold has_source, streq. rewrite Es.
        apply bool_decide_eq_false. intros ->.
        unfold listable in Hl'. rewrite Ht in Hl'. done. }
    unfold get.
    destruct (m !! s) as [x|] eqn:Ex.
    + (* the source has an entry already *)
      rewrite Ex.
      assert (Hx : source x = s /\ listable s = true) by (by apply Hm).
      destruct Hx as [Hxs Hxl].
      destruct (IH (<[s := increment x]> m)) as (m' & -> & Hm' & Hl).
      { by apply well_keyed_insert. }
      exists m'. split; [done|]. split; [done|]. intros src.
      rewrite Hl. unfold after_scan, summary_of. rewrite lookup_insert.
      case_decide as E.
      * subst src. rewrite Ex.
        rewrite rows_of_keep by (unfold has_source, streq; rewrite Es;
                                 by apply bool_decide_eq_true).
        unfold add_rows, increment. cbn. do 2 f_equal. lia.
      * rewrite rows_of_skip; [done|].
        unfold has_source, streq. rewrite Es. by apply bool_decide_eq_false.
    + case_bool_decide as Hp.
      * (* the key names a property of the prototype *)
        rewrite Ex.
        destruct (IH m Hm) as (m' & -> & Hm' & Hl). exists m'.
        split; [done|]. split; [done|]. intros src.
        rewrite Hl, after_scan_skip; [done | done |].
        intros src' Hl'. unfold has_source, streq. rewrite Es.
        apply bool_decide_eq_false. intros ->.
        unfold listable in Hl'. rewrite bool_decide_eq_true_2 in Hl' by done.
        by rewrite andb_false_r in Hl'.
      * (* a new entry is made, then counted *)
        rewrite lookup_insert_eq. rewrite insert_insert_eq.
        assert (Hls : listable s = true).
        { unfold listable. rewrite Ht. by rewrite bool_decide_eq_false_2. }
        destruct (IH (<[s := increment (mkSummary s 0 (row_created_at row))]> m))
          as (m' & -> & Hm' & Hl).
        { by apply well_keyed_insert. }
        exists m'. split; [done|]. split; [done|]. intros src.
        rewrite Hl. unfold after_scan. rewrite lookup_insert.
        case_decide as E.
        -- subst src. rewrite Ex. unfold summary_of. rewrite Hls.
           rewrite rows_of_keep by (unfold has_source, streq; rewrite Es;
                                    by apply bool_decide_eq_true).
           unfold add_rows, increment. cbn [source chunk_count created_at length].
           do 2 f_equal. lia.
        -- unfold summary_of.
           rewrite rows_of_skip; [done|].
           unfold has_source, streq. rewrite Es. by apply bool_decide_eq_false.
Qed.

(** In a well-keyed object, the values with a given source are the entry
    stored under it, if any. *)
Lemma values_by_source (m : gmap jsstring DocumentSummary) (src : jsstring) :
  well_keyed m ->
  filter (fun s => source s = src) (Object_values m) = option_list (m !! src).
Proof.
  intros Hm.
  assert (P : filter (fun s => source s = src) (Object_values m)
              ≡ₚ option_list (m !! src)).
  { unfold Object_values. induction m as [|k x m Hk IH] using map_ind.
    - by rewrite map_to_list_empty, lookup_empty.
    - rewrite map_to_list_insert by done. cbn [fmap list_fmap snd].
      assert (Hm' : well_keyed m).
      { intros k' s' Hs'. apply Hm. rewrite lookup_insert_ne; [done|].
        intros ->. congruence. }
      destruct (Hm k x) as [Hx _]; [by rewrite lookup_insert_eq|].
      rewrite lookup_insert. case_decide as E.
      + subst src. rewrite filter_cons_True by done.
        rewrite (IH Hm'), Hk. done.
      + rewrite filter_cons_False by congruence. by apply IH. }
  destruct (m !! src); cbn in *.
  - by apply Permutation_singleton_r.
  - by apply Permutation_nil_r.
Qed.

(** C9, as the code has it. [GET] answers 200 with a listing in which
    every non-empty source that is not the name of a property of
    [Object.prototype], and that some row has, appears exactly once, with
    the number of rows of that source as [chunk_count] and the
    [created_at] of the first such row in the order of the scan; a source
    with no row does not appear, and every summary listed is that of such
    a source. *)
Theorem GET_groups_by_source :
  forall (data : option (list Row)) (src : jsstring),
    listable src = true ->
    let rows := default [] data in
    exists summaries,
      GET (mkSelect data None) = mkResponse 200 (Summaries summaries)
      /\ match rows_of src rows with
         | [] => filter (fun s => source s = src) summaries = []
         | first :: _ =>
             filter (fun s => source s = src) summaries
             = [mkSummary src (Z.of_nat (length (rows_of src rows)))
                  (row_created_at first)]
         end
      /\ (forall s, s ∈ summaries ->
            listable (source s) = true /\ rows_of (source s) rows <> []).
Proof.
  intros data src Hsrc rows.
  destruct (scan_spec rows ∅) as (m & Hscan & Hm & Hl).
  { intros k s. by rewrite lookup_empty. }
  exists (Object_values m). split; [|split].
  - unfold GET. cbn. fold rows. by rewrite Hscan.
  - rewrite (values_by_source m src Hm), Hl.
    unfold after_scan, summary_of. rewrite lookup_empty, Hsrc.
    by destruct (rows_of src rows).
  - intros s Hs. unfold Object_values in Hs.
    apply list_elem_of_fmap in Hs as ([k s'] & -> & Hin).
    apply elem_of_map_to_list in Hin. cbn.
    destruct (Hm _ _ Hin) as [-> Hk]. split; [done|].
    rewrite Hl in Hin. unfold after_scan, summary_of in Hin.
    rewrite lookup_empty, Hk in Hin.
    by destruct (rows_of k rows).
Qed.

End DocumentsProperties.

(* ===================================================================== *)
(** * Properties of ingestion                                             *)
(* ===================================================================== *)

Section UploadProperties.
Import JS Upload.
Context {number : Type}.

Lemma Promise_all_Return {A} (results : list (completion A)) (l : list A) :
  Promise_all results = Return l -> results = map Return l.
Proof.
  revert l. induction results as [|[a|e] results IH]; intros l; cbn.
  - by intros [= <-].
  - destruct (Promise_all results) as [l'|e]; [|done].
    intros [= <-]. cbn. f_equal. by apply IH.
  - done.
Qed.

(** Each fulfilled call keeps the text and the index of its chunk. *)
Lemma embed_chunk_Return fuel (w : World number) i chunk e :
  embed_chunk fuel w i chunk = Some (Return e) ->
  text e = Chunking.text chunk /\ index e = Chunking.index chunk.
Proof.
  unfold embed_chunk.
  destruct (Embeddings.generateEmbedding _ _ _) as [[[v|err] tr]|]; cbn; [|done|done].
  by intros [= <-].
Qed.

Lemma embed_all_returns fuel (w : World number) (chunks : list Chunking.Chunk) :
  (3 <= fuel)%nat ->
  is_Some (mapM (fun ic => embed_chunk fuel w (fst ic) (snd ic))
             (imap (fun i c => (i, c)) chunks)).
Proof.
  intros Hfuel. apply mapM_is_Some, Forall_forall. intros [i c] _. cbn.
  unfold embed_chunk.
  destruct (generateEmbedding_returns
              (embeddings_create w i) (Chunking.text c) fuel Hfuel) as [r ->].
  by eexists.
Qed.

Lemma rows_for_batch fuel (w : World number) filename chunks results embeddings :
  mapM (fun ic => embed_chunk fuel w (fst ic) (snd ic))
    (imap (fun i c => (i, c)) chunks) = Some results ->
  Promise_all results = Return embeddings ->
  rows_for filename chunks (map (to_row filename chunks) embeddings).
Proof.
  intros Hmap Hall. apply Promise_all_Return in Hall as ->.
  apply mapM_Some in Hmap. apply Forall2_fmap_r in Hmap.
  pose proof (Forall2_length _ _ _ Hmap) as Hlen. rewrite length_imap in Hlen.
  split; [by rewrite length_map|].
  intros i chunk Hi.
  assert (Hic : imap (fun i c => (i, c)) chunks !! i = Some (i, chunk))
    by (by rewrite list_lookup_imap, Hi).
  destruct (Forall2_lookup_l _ _ _ _ _ Hmap Hic) as (e & He & Hemb).
  cbn in Hemb. apply embed_chunk_Return in Hemb as [Ht Hx].
  exists (to_row filename chunks e). split.
  - by rewrite list_lookup_fmap, He.
  - cbn. auto.
Qed.

Lemma ingest_spec fuel (w : World number) table content filename :
  (3 <= fuel)%nat ->
  (length content <= fuel)%nat ->
  exists response table',
    ingest fuel w table content filename = Some (response, table')
    /\ ingested fuel table content filename response table'.
Proof.
  intros Hfuel Hlen. unfold ingest.
  assert (Hchunks : Chunking.chunkText fuel content None None
                    = Some (Return (chunks_of content 500 450))).
  { change (Chunking.chunkText fuel content None None)
      with (Chunking.chunkText fuel content (Some 500) (Some 50)).
    rewrite chunkText_spec; [done | unfold valid; lia | done]. }
  rewrite Hchunks. cbn [mbind option_bind].
  set (chunks := chunks_of content 500 450) in *.
  destruct (embed_all_returns fuel w chunks Hfuel) as [results Hres].
  rewrite Hres. cbn [mbind option_bind].
  destruct (Promise_all results) as [embeddings|e] eqn:Hall.
  2:{ eexists _, _. split; [reflexivity|]. split; cbn; [done | lia]. }
  unfold insert. destruct (insert_error w) as [msg|].
  { eexists _, _. split; [reflexivity|]. split; cbn; [done | lia]. }
  eexists _, _. split; [reflexivity|]. split; cbn; [lia|]. intros _.
  pose proof (rows_for_batch fuel w filename chunks results embeddings Hres Hall) as Hrows.
  exists chunks, (map (to_row filename chunks) embeddings).
  split; [exact Hchunks|]. split; [done|]. split; [|exact Hrows].
  cbn. do 2 f_equal. apply Hrows.
Qed.

(** Rows of one batch agree on [total_chunks]; so do all the rows of the
    table under the file name when the name was not in use before. *)
Lemma rows_for_same_total filename chunks (rows table : list (NewRow number)) :
  rows_for filename chunks rows ->
  (forall r1 r2, r1 ∈ rows -> r2 ∈ rows ->
     total_chunks (metadata r1) = total_chunks (metadata r2))
  /\ ((forall r, r ∈ table -> source (metadata r) <> filename) ->
      same_total filename (table ++ rows)).
Proof.
  intros [Hlen Hrows].
  assert (Hall : forall r, r ∈ rows ->
                   total_chunks (metadata r) = Z.of_nat (length chunks)).
  { intros r Hr. apply list_elem_of_lookup in Hr as [i Hi].
    assert (Hlt : (i < length chunks)%nat)
      by (rewrite <- Hlen; by eapply lookup_lt_Some).
    apply lookup_lt_is_Some in Hlt as [chunk Hc].
    destruct (Hrows i chunk Hc) as (row & Hrow & _ & _ & _ & Ht). congruence. }
  split.
  - intros r1 r2 H1 H2. by rewrite !Hall.
  - intros Hfresh r1 r2 H1 H2 S1 S2.
    apply elem_of_app in H1 as [H1|H1]; [by destruct (Hfresh r1)|].
    apply elem_of_app in H2 as [H2|H2]; [by destruct (Hfresh r2)|].
    by rewrite !Hall.
Qed.

(** C8, as the code has it. A [POST] with fuel for its loops returns.  If
    the answer is not 200 the table is unchanged.  If it is 200, the rows
    added are one per chunk of the content, in order: row [i] holds the
    text of chunk [i], the file name as source, the index of chunk [i] and
    the number of chunks as [total_chunks], which is therefore the same in
    all rows of the batch; and all rows of the table under that file name
    agree on [total_chunks] when no row was stored under it before. *)
Theorem POST_rows_written :
  forall (fuel : nat) (w : World number) (table : list (NewRow number))
         (request : UploadRequest),
    (3 <= fuel)%nat ->
    (from_option length 0%nat (req_content request) <= fuel)%nat ->
    exists response table',
      POST fuel w table request = Some (response, table')
      /\ (status response <> 200 -> table' = table)
      /\ (status response = 200 ->
          exists content filename chunks rows,
            req_content request = Some content
            /\ req_filename request = Some filename
            /\ Chunking.chunkText fuel content None None = Some (Return chunks)
            /\ table' = table ++ rows
            /\ body response = Created (Z.of_nat (length chunks))
            /\ rows_for filename chunks rows
            /\ (forall r1 r2, r1 ∈ rows -> r2 ∈ rows ->
                  total_chunks (metadata r1) = total_chunks (metadata r2))
            /\ ((forall r, r ∈ table -> source (metadata r) <> filename) ->
                same_total filename table')).
Proof.
  intros fuel w table [c f] Hfuel Hlen. unfold POST.
  cbn [req_content req_filename from_option] in *.
  destruct c as [content|];
    [|eexists _, _; split; [reflexivity|]; split; cbn; [done | lia]].
  destruct (truthy content); cbn [negb];
    [|eexists _, _; split; [reflexivity|]; split; cbn; [done | lia]].
  destruct f as [filename|];
    [|eexists _, _; split; [reflexivity|]; split; cbn; [done | lia]].
  destruct (truthy filename); cbn [negb];
    [|eexists _, _; split; [reflexivity|]; split; cbn; [done | lia]].
  destruct (strlen content >? 50000);
    [eexists _, _; split; [reflexivity|]; split; cbn; [done | lia]|].
  destruct (ingest_spec fuel w table content filename Hfuel Hlen)
    as (response & table' & -> & Hkeep & Hadd).
  exists response, table'. split; [done|]. split; [done|].
  intros H200. destruct (Hadd H200) as (chunks & rows & Hc & -> & Hb & Hrows).
  exists content, filename, chunks, rows.
  destruct (rows_for_same_total filename chunks rows table Hrows) as [Hbatch Hall].
  split; [done|]. split; [done|]. split; [done|]. split; [done|].
  split; [done|]. split; [done|]. split; [exact Hbatch | exact Hall].
Qed.

End UploadProperties.

(* ===================================================================== *)
(** * Properties of answering                                             *)
(* ===================================================================== *)

Section RagProperties.
Import JS Platform Rag.
Context {number : Type} (zero : number) (number_to_json : number -> jsstring).

(** Code units below 128 are their own UTF-8 encoding. *)
Lemma encode_ascii_app (a s : jsstring) :
  Forall (fun c => 0 <= c < 128) a -> encode (a ++ s) = a ++ encode s.
Proof.
  induction 1 as [|c a Hc _ IH]; [done|].
  cbn [app encode]. unfold is_high_surrogate, is_low_surrogate, utf8_bytes.
  destruct (Z.leb_spec 55296 c); [lia|]. cbn [andb].
  destruct (Z.leb_spec 56320 c); [lia|]. cbn [andb].
  destruct (Z.ltb_spec c 128); [|lia]. cbn. by rewrite IH.
Qed.

Lemma encode_trailer (matches : list (RetrievedDocument number)) :
  encode (trailer zero number_to_json matches)
  = [10] ++ SOURCE_MARKER
    ++ encode (stringify number_to_json (sourcesPayload zero matches)).
Proof.
  unfold trailer. rewrite app_assoc, encode_ascii_app; [by rewrite <- app_assoc|].
  vm_compute. repeat constructor; discriminate.
Qed.

(** On a readable stream the loop enqueues the encoding of every text
    increment, in order, and leaves the stream readable. *)
Lemma forward_readable (events : list StreamEvent) :
  forall chunks,
    forward events (mkController chunks Readable)
    = (mkController (chunks ++ map encode (increments events)) Readable, None).
Proof.
  induction events as [|event events IH]; intros chunks.
  - cbn. by rewrite app_nil_r.
  - cbn [forward]. unfold increments. cbn [List.filter].
    destruct (is_text_delta event).
    + cbn [enqueue state enqueued]. rewrite IH. cbn [map].
      unfold increments. by rewrite <- app_assoc.
    + apply IH.
Qed.

(** The stream after a generation that ends normally. *)
Lemma stream_completed (events : list StreamEvent) (payload : json number) :
  ReadableStream (start number_to_json (events, None) payload)
  = mkController
      (map encode (increments events)
       ++ [encode (nl ++ SOURCE_MARKER ++ stringify number_to_json payload)])
      Closed.
Proof.
  unfold ReadableStream, start, try_block, new_controller. cbn [fst snd].
  rewrite forward_readable. reflexivity.
Qed.

(** The stream after a generation that raises [e], when nothing was read
    meanwhile: the error has emptied the queue. *)
Lemma stream_failed (events : list StreamEvent) (e : exn) (payload : json number) :
  ReadableStream (start number_to_json (events, Some e) payload)
  = mkController [] (Errored e).
Proof.
  unfold ReadableStream, start, try_block, new_controller. cbn [fst snd].
  rewrite forward_readable. reflexivity.
Qed.

(** The handler on a request that gets as far as the store's answer. *)
Lemma POST_retrieved fuel (w : World number) (request : RagRequest) q vector trace candidates :
  retrieved fuel w request q vector trace candidates ->
  let matches := narrow (document_source request) candidates in
  let before := map (Embedding (number := number)) trace
                ++ [MatchDocuments vector 0.7%Q 3] in
  let prompt := contextPrompt matches q in
  POST zero number_to_json fuel w request
  = Some (match matches with
          | [] => (before,
                   Json 404 (lit "No relevant chunks found. Try rephrasing or uploading."))
          | _ :: _ =>
              (before ++ [MessagesStream (lit "claude-sonnet-4-5-20250929") 2048
                            system_instruction prompt],
               Streaming 200
                 (ReadableStream
                    (start number_to_json (messages_stream w prompt)
                       (sourcesPayload zero matches))))
          end).
Proof.
  intros [Hq Ht Hk He Hr Hc]. cbn zeta. unfold POST.
  rewrite Hq, Ht, Hk. cbn [negb]. rewrite He. cbn [mbind option_bind fst snd].
  rewrite Hr, <- Hc.
  by destruct (narrow (document_source request) candidates).
Qed.

Lemma generation_calls_before (trace : list Embeddings.effect) (l : list (call number)) :
  generation_calls (map (Embedding (number := number)) trace ++ l)
  = generation_calls l.
Proof.
  unfold generation_calls. rewrite List.filter_app, length_app.
  assert (E : List.filter is_generation (map (Embedding (number := number)) trace) = []).
  { induction trace as [|x trace IH]; [done | by cbn]. }
  by rewrite E.
Qed.

Lemma source_is_true (src : jsstring) (m : RetrievedDocument number) :
  source_is src m = true <->
  get_property (metadata m) (lit "source") = Some (JString src).
Proof.
  unfold source_is, streq.
  destruct (get_property (metadata m) (lit "source")) as [[| | |s| |]|];
    try (split; [discriminate | discriminate]).
  rewrite bool_decide_eq_true. split; [by intros -> | by intros [= ->]].
Qed.

(** C1. When the request reaches generation and the model's stream ends
    normally, the chunks of the response body are the encodings of the
    text increments in the order received, followed by one chunk; the
    bytes of the body are those of the increments, then a newline, the
    marker [__SOURCES__] and the UTF-8 of the JSON array made, in order,
    from the matches that went into the prompt (an object with [content],
    [metadata] and [similarity] each); and the stream is closed. *)
Theorem POST_stream_completed :
  forall fuel (w : World number) (request : RagRequest) q vector trace candidates events,
    retrieved fuel w request q vector trace candidates ->
    let matches := narrow (document_source request) candidates in
    matches <> [] ->
    messages_stream w (contextPrompt matches q) = (events, None) ->
    exists calls readable,
      POST zero number_to_json fuel w request = Some (calls, Streaming 200 readable)
      /\ last calls = Some (MessagesStream (lit "claude-sonnet-4-5-20250929") 2048
                              system_instruction (contextPrompt matches q))
      /\ enqueued readable
         = map encode (increments events) ++ [encode (trailer zero number_to_json matches)]
      /\ bytes readable
         = concat (map encode (increments events))
           ++ [10] ++ SOURCE_MARKER
           ++ encode (stringify number_to_json (JArray (map (payload_entry zero) matches)))
      /\ (forall m v, In m matches -> metadata m = Some v ->
            payload_entry zero m
            = JObject [(lit "content", JString (content m));
                       (lit "metadata", v);
                       (lit "similarity", JNumber (default zero (similarity m)))])
      /\ state readable = Closed.
Proof.
  intros fuel w request q vector trace candidates events Hret matches Hne Hstream.
  pose proof (POST_retrieved fuel w request q vector trace candidates Hret) as HP.
  cbn zeta in HP. fold matches in HP.
  destruct matches as [|m0 rest] eqn:Em; [done|]. rewrite <- Em in *.
  rewrite Hstream, stream_completed in HP.
  eexists _, _. split; [exact HP|]. cbn [enqueued state bytes].
  split; [by rewrite last_snoc|]. split; [reflexivity|]. split; [|split; [|reflexivity]].
  - unfold bytes. cbn [enqueued]. rewrite concat_app. cbn [concat].
    rewrite app_nil_r.
    change (JArray (map (payload_entry zero) matches)) with (sourcesPayload zero matches).
    by rewrite <- encode_trailer.
  - intros m v _ Hv. unfold payload_entry. by rewrite Hv.
Qed.

(** C2. The store is asked for its ranked candidates without any source;
    a non-empty [document_source] then keeps, in order, exactly the
    candidates whose [metadata.source] is that string.  When nothing is
    left, whatever the candidates were, the answer is the 404 "no relevant
    chunks" and the log holds no call to the generative model. *)
Theorem POST_no_relevant_context :
  forall fuel (w : World number) (request : RagRequest) q vector trace candidates,
    retrieved fuel w request q vector trace candidates ->
    let matches := narrow (document_source request) candidates in
    (forall src,
       document_source request = Some src -> truthy src = true ->
       matches = List.filter (source_is src) candidates
       /\ forall m, In m matches <->
                    In m candidates
                    /\ get_property (metadata m) (lit "source") = Some (JString src))
    /\ (matches = [] ->
        exists calls,
          POST zero number_to_json fuel w request
          = Some (calls,
                  Json 404 (lit "No relevant chunks found. Try rephrasing or uploading."))
          /\ calls = map (Embedding (number := number)) trace
                     ++ [MatchDocuments vector 0.7%Q 3]
          /\ generation_calls calls = 0%nat)
    /\ (matches <> [] ->
        exists calls readable,
          POST zero number_to_json fuel w request = Some (calls, Streaming 200 readable)
          /\ generation_calls calls = 1%nat).
Proof.
  intros fuel w request q vector trace candidates Hret matches.
  pose proof (POST_retrieved fuel w request q vector trace candidates Hret) as HP.
  cbn zeta in HP. fold matches in HP.
  split; [|split].
  - intros src Hsrc Ht. subst matches. unfold narrow. rewrite Hsrc, Ht.
    split; [done|]. intros m. rewrite List.filter_In, source_is_true. done.
  - intros Hm. rewrite Hm in HP. eexists. split; [exact HP|]. split; [done|].
    by rewrite generation_calls_before.
  - intros Hm. destruct matches as [|m0 rest] eqn:Em; [done|].
    eexists _, _. split; [exact HP|].
    rewrite <- app_assoc. by rewrite generation_calls_before.
Qed.

(** ** The body while it is read *)

Lemma increments_cons (event : StreamEvent) (events : list StreamEvent) :
  increments (event :: events) = increments [event] ++ increments events.
Proof. unfold increments. cbn [List.filter]. by destruct (is_text_delta event). Qed.

Lemma increments_app (l1 l2 : list StreamEvent) :
  increments (l1 ++ l2) = increments l1 ++ increments l2.
Proof. unfold increments. by rewrite List.filter_app, map_app. Qed.

(** One event gives at most one increment. *)
Lemma increments_one (event : StreamEvent) :
  increments [event] = [] \/ exists text, increments [event] = [text].
Proof.
  unfold increments. cbn [List.filter].
  destruct (is_text_delta event); [right; by eexists | by left].
Qed.

Lemma run_app (payload : json number) (s1 s2 : list Delivery.turn) :
  forall b log,
    Delivery.run number_to_json payload (s1 ++ s2) b log
    = Delivery.run number_to_json payload s2
        (Delivery.run number_to_json payload s1 b log).1
        (Delivery.run number_to_json payload s1 b log).2.
Proof.
  induction s1 as [|[|] s1 IH]; intros b log; cbn [app Delivery.run]; [done | |].
  - destruct (Delivery.settle _ log). apply IH.
  - destruct (Delivery.consume b log). apply IH.
Qed.

(** While the iteration lasts the stream stays readable, every increment
    forwarded so far has been read or waits in the queue, and nothing
    waits in the queue while a read is pending. *)
Lemma run_iterating (payload : json number) (ending : option exn)
    (schedule : list Delivery.turn) :
  forall events received queue waiting,
    (waiting = true -> queue = []) ->
    (produces schedule <= length events)%nat ->
    exists received' queue' waiting',
      Delivery.run number_to_json payload schedule
        (Delivery.mkBody (Some (events, ending)) (mkController queue Readable) waiting)
        (map Value received)
      = (Delivery.mkBody (Some (drop (produces schedule) events, ending))
           (mkController queue' Readable) waiting',
         map Value received')
      /\ received' ++ queue'
         = received ++ queue
           ++ map encode (increments (take (produces schedule) events))
      /\ (waiting' = true -> queue' = []).
Proof.
  induction schedule as [|[|] schedule IH]; intros events received queue waiting Hw Hn.
  - exists received, queue, waiting. cbn. by rewrite app_nil_r.
  - destruct events as [|event events]; [cbn in Hn; lia|].
    cbn [Delivery.run produces Delivery.produce Delivery.upcoming Delivery.readable
           Delivery.waiting].
    rewrite forward_readable. cbn [take drop].
    rewrite (increments_cons event (take (produces schedule) events)), map_app.
    unfold Delivery.settle, Delivery.attempt, read.
    cbn [Delivery.waiting Delivery.readable Delivery.upcoming enqueued state].
    destruct waiting.
    + rewrite (Hw eq_refl). cbn [app].
      destruct (increments_one event) as [->|[text ->]]; cbn [map app].
      * apply IH; [done | cbn in Hn; lia].
      * replace (map Value received ++ [Value (encode text)])
          with (map Value (received ++ [encode text])) by (by rewrite map_app).
        destruct (IH events (received ++ [encode text]) [] false)
          as (received' & queue' & waiting' & E & Hq & Hw'); [done | cbn in Hn; lia|].
        exists received', queue', waiting'. split; [exact E|]. split; [|exact Hw'].
        rewrite Hq. by rewrite <- !app_assoc.
    + destruct (IH events received (queue ++ map encode (increments [event])) false)
        as (received' & queue' & waiting' & E & Hq & Hw'); [done | cbn in Hn; lia|].
      exists received', queue', waiting'. split; [exact E|]. split; [|exact Hw'].
      rewrite Hq. by rewrite <- !app_assoc.
  - cbn [Delivery.run produces]. unfold Delivery.consume, Delivery.attempt, read.
    cbn [Delivery.waiting Delivery.readable enqueued state Delivery.upcoming].
    destruct waiting; [by apply IH|].
    destruct queue as [|chunk queue].
    + by apply IH.
    + replace (map Value received ++ [Value chunk]) with (map Value (received ++ [chunk]))
        by (by rewrite map_app).
      destruct (IH events (received ++ [chunk]) queue false)
        as (received' & queue' & waiting' & E & Hq & Hw'); [done | exact Hn|].
      exists received', queue', waiting'. split; [exact E|]. split; [|exact Hw'].
      rewrite Hq. by rewrite <- !app_assoc.
Qed.

(** Once the stream is errored every read is rejected. *)
Lemma run_errored (payload : json number) (e : exn) (schedule : list Delivery.turn) :
  forall log,
    Delivery.run number_to_json payload schedule
      (Delivery.mkBody None (mkController [] (Errored e)) false) log
    = (Delivery.mkBody None (mkController [] (Errored e)) false,
       log ++ repeat (Rejected e) (reads schedule)).
Proof.
  induction schedule as [|[|] schedule IH]; intros log.
  - cbn. by rewrite app_nil_r.
  - cbn [Delivery.run reads]. apply IH.
  - cbn [Delivery.run reads]. unfold Delivery.consume, Delivery.attempt, read.
    cbn [Delivery.waiting Delivery.readable enqueued state Delivery.upcoming].
    rewrite IH. cbn [repeat]. by rewrite <- app_assoc.
Qed.

(** The turn in which the iteration raises [e], and the turns after it:
    the queue is discarded, a pending read is rejected, and so is every
    later read. *)
Lemma run_raises (payload : json number) (e : exn) (queue : list (list Z))
    (waiting : bool) (after : list Delivery.turn) (log : list read_result) :
  Delivery.run number_to_json payload (Delivery.Produce :: after)
    (Delivery.mkBody (Some ([], Some e)) (mkController queue Readable) waiting) log
  = (Delivery.mkBody None (mkController [] (Errored e)) false,
     log ++ repeat (Rejected e) (Nat.b2n waiting + reads after)).
Proof.
  cbn [Delivery.run].
  change (Delivery.produce number_to_json payload
            (Delivery.mkBody (Some ([], Some e)) (mkController queue Readable) waiting))
    with (Delivery.mkBody None (mkController [] (Errored e)) waiting).
  destruct waiting; cbn [Delivery.settle Delivery.waiting Nat.b2n Nat.add].
  - unfold Delivery.attempt, read.
    cbn [Delivery.readable enqueued state Delivery.upcoming].
    rewrite run_errored. cbn [repeat]. by rewrite <- app_assoc.
  - apply run_errored.
Qed.

(** A schedule with more than [n] turns of the producer, cut before turn
    [n + 1] of the producer. *)
Lemma produces_split (schedule : list Delivery.turn) :
  forall n, (n < produces schedule)%nat ->
    exists before after,
      schedule = before ++ Delivery.Produce :: after /\ produces before = n.
Proof.
  induction schedule as [|[|] schedule IH]; intros n Hn; [cbn in Hn; lia| |].
  - destruct n as [|n].
    + by exists [], schedule.
    + destruct (IH n) as (before & after & -> & Hb); [cbn in Hn; lia|].
      exists (Delivery.Produce :: before), after. split; [done | by cbn; rewrite Hb].
  - destruct (IH n Hn) as (before & after & -> & Hb).
    by exists (Delivery.Read :: before), after.
Qed.

Lemma values_Value (received : list (list Z)) : values (map Value received) = received.
Proof. induction received as [|c l IH]; [done|]. cbn [map]. unfold values in *. cbn. by rewrite IH. Qed.

Lemma values_Rejected (e : exn) (n : nat) : values (repeat (Rejected e) n) = [].
Proof. by induction n. Qed.

Lemma values_app (l1 l2 : list read_result) : values (l1 ++ l2) = values l1 ++ values l2.
Proof. unfold values. apply omap_app. Qed.

Lemma not_Done_Value (received : list (list Z)) : ~ In Done (map Value received).
Proof.
  induction received as [|c l IH]; cbn; [by intros []|].
  intros [H|H]; [discriminate | by apply IH].
Qed.

Lemma run_produce_only (payload : json number) (n : nat) :
  forall b log,
    Delivery.waiting b = false ->
    (Delivery.run number_to_json payload (repeat Delivery.Produce n) b log).2 = log.
Proof.
  induction n as [|n IH]; intros b log Hw; [done|].
  cbn [repeat Delivery.run]. unfold Delivery.settle.
  assert (Hw' : Delivery.waiting (Delivery.produce number_to_json payload b) = false).
  { unfold Delivery.produce. destruct (Delivery.upcoming b) as [[[|event rest] ending]|];
      [done| |done].
    by destruct (forward [event] (Delivery.readable b)) as [c [e|]]. }
  rewrite Hw'. by apply IH.
Qed.

Lemma run_produce_waiting (payload : json number) (n : nat) :
  forall b log,
    Delivery.waiting b = false ->
    Delivery.waiting
      (Delivery.run number_to_json payload (repeat Delivery.Produce n) b log).1 = false.
Proof.
  induction n as [|n IH]; intros b log Hw; [done|].
  cbn [repeat Delivery.run]. unfold Delivery.settle.
  assert (Hw' : Delivery.waiting (Delivery.produce number_to_json payload b) = false).
  { unfold Delivery.produce. destruct (Delivery.upcoming b) as [[[|event rest] ending]|];
      [done| |done].
    by destruct (forward [event] (Delivery.readable b)) as [c [e|]]. }
  rewrite Hw'. by apply IH.
Qed.

Lemma produces_repeat (n : nat) : produces (repeat Delivery.Produce n) = n.
Proof. induction n as [|n IH]; [done | by cbn; rewrite IH]. Qed.

(** The whole run of a failing generation, for a consumer whose reads fall
    anywhere. *)
Lemma run_failing (payload : json number) (events : list StreamEvent) (e : exn)
    (before after : list Delivery.turn) :
  produces before = length events ->
  exists received queue waiting,
    Delivery.run number_to_json payload before (Delivery.new_body (events, Some e)) []
    = (Delivery.mkBody (Some ([], Some e)) (mkController queue Readable) waiting,
       map Value received)
    /\ received ++ queue = map encode (increments events)
    /\ Delivery.run number_to_json payload (before ++ Delivery.Produce :: after)
         (Delivery.new_body (events, Some e)) []
       = (Delivery.mkBody None (mkController [] (Errored e)) false,
          map Value received
          ++ repeat (Rejected e) (Nat.b2n waiting + reads after)).
Proof.
  intros Hb.
  destruct (run_iterating payload (Some e) before events [] [] false)
    as (received & queue & waiting & E & Hq & _); [done | lia|].
  rewrite Hb, drop_all, firstn_all in *. cbn [app] in Hq.
  change (map Value []) with (@nil read_result) in E.
  exists received, queue, waiting. split; [exact E|]. split; [exact Hq|].
  rewrite run_app. unfold Delivery.new_body, new_controller, MessageStream.
  rewrite E. cbn [fst snd]. apply run_raises.
Qed.

(** C7. When the model's stream raises an error [e] after some events,
    the log holds one call to the generative model (there is no retry)
    and the response body ends errored with [e] and an empty queue.  For
    a consumer that reads one chunk at a time, its reads falling anywhere
    between the events: while the iteration lasts the stream is readable
    and every increment forwarded so far has been read or waits in the
    queue; when the error arrives, what the consumer has read stays read,
    what still waited in the queue is discarded, and the pending read, if
    any, and every later read are rejected with [e]; so the chunks read
    are always the encodings of the first increments, in order, never the
    marker or the payload, and no read reports a normal end. *)
Theorem POST_stream_failed :
  forall fuel (w : World number) (request : RagRequest) q vector trace candidates events e,
    retrieved fuel w request q vector trace candidates ->
    let matches := narrow (document_source request) candidates in
    matches <> [] ->
    messages_stream w (contextPrompt matches q) = (events, Some e) ->
    let run schedule :=
      Delivery.run number_to_json (sourcesPayload zero matches) schedule
        (Delivery.new_body (events, Some e)) [] in
    (exists calls readable,
       POST zero number_to_json fuel w request = Some (calls, Streaming 200 readable)
       /\ generation_calls calls = 1%nat
       /\ run (repeat Delivery.Produce (S (length events)))
          = (Delivery.mkBody None readable false, [])
       /\ enqueued readable = []
       /\ state readable = Errored e)
    /\ (forall schedule,
          (produces schedule <= length events)%nat ->
          exists received queue waiting,
            run schedule
            = (Delivery.mkBody (Some (drop (produces schedule) events, Some e))
                 (mkController queue Readable) waiting,
               map Value received)
            /\ received ++ queue
               = map encode (increments (take (produces schedule) events)))
    /\ (forall before after,
          produces before = length events ->
          exists received queue waiting,
            run before
            = (Delivery.mkBody (Some ([], Some e)) (mkController queue Readable) waiting,
               map Value received)
            /\ received ++ queue = map encode (increments events)
            /\ run (before ++ Delivery.Produce :: after)
               = (Delivery.mkBody None (mkController [] (Errored e)) false,
                  map Value received
                  ++ repeat (Rejected e) (Nat.b2n waiting + reads after)))
    /\ (forall schedule,
          values (run schedule).2 `prefix_of` map encode (increments events)
          /\ ~ In Done (run schedule).2).
Proof.
  intros fuel w request q vector trace candidates events e Hret matches Hne Hstream run.
  pose proof (POST_retrieved fuel w request q vector trace candidates Hret) as HP.
  cbn zeta in HP. fold matches in HP.
  assert (Hiter : forall schedule,
            (produces schedule <= length events)%nat ->
            exists received queue waiting,
              run schedule
              = (Delivery.mkBody (Some (drop (produces schedule) events, Some e))
                   (mkController queue Readable) waiting,
                 map Value received)
              /\ received ++ queue
                 = map encode (increments (take (produces schedule) events))).
  { intros schedule Hn.
    destruct (run_iterating (sourcesPayload zero matches) (Some e) schedule events
                [] [] false ltac:(done) Hn)
      as (received & queue & waiting & E & Hq & _).
    exists received, queue, waiting. split; [exact E | exact Hq]. }
  split; [|split; [exact Hiter|split]].
  - assert (HP' : exists calls,
               POST zero number_to_json fuel w request
               = Some (calls, Streaming 200 (mkController [] (Errored e)))
               /\ generation_calls calls = 1%nat).
    { clear Hiter. destruct matches as [|m0 rest] eqn:Em; [done|]. rewrite <- Em in *.
      rewrite Hstream, stream_failed in HP.
      eexists. split; [exact HP|].
      rewrite <- app_assoc. by rewrite generation_calls_before. }
    destruct HP' as (calls & HP' & Hcalls).
    exists calls, (mkController [] (Errored e)). split; [exact HP'|].
    split; [exact Hcalls|].
    split; [|done].
    destruct (run_failing (sourcesPayload zero matches) events e
                (repeat Delivery.Produce (length events)) [] (produces_repeat _))
      as (received & queue & waiting & E & _ & E').
    pose proof (run_produce_only (sourcesPayload zero matches) (length events)
                  (Delivery.new_body (events, Some e)) [] eq_refl) as Hlog.
    pose proof (run_produce_only (sourcesPayload zero matches) (S (length events))
                  (Delivery.new_body (events, Some e)) [] eq_refl) as Hlog'.
    unfold run.
    replace (repeat Delivery.Produce (S (length events)))
      with (repeat Delivery.Produce (length events) ++ [Delivery.Produce]) in *
      by (by rewrite <- repeat_cons).
    rewrite E' in *. cbn [snd] in Hlog'. by rewrite Hlog'.
  - intros before after Hb.
    apply (run_failing (sourcesPayload zero matches) events e before after Hb).
  - intros schedule.
    destruct (Nat.le_gt_cases (produces schedule) (length events)) as [Hn|Hn].
    + destruct (Hiter schedule Hn) as (received & queue & waiting & E & Hq).
      rewrite E. cbn [snd]. rewrite values_Value. split; [|apply not_Done_Value].
      rewrite <- (take_drop (produces schedule) events) at 1.
      rewrite increments_app, map_app, <- Hq, <- app_assoc. by eexists.
    + destruct (produces_split schedule (length events) Hn) as (before & after & -> & Hb).
      destruct (run_failing (sourcesPayload zero matches) events e before after Hb)
        as (received & queue & waiting & _ & Hq & E).
      unfold run. rewrite E. cbn [snd].
      rewrite values_app, values_Value, values_Rejected, app_nil_r.
      split; [rewrite <- Hq; by eexists|].
      rewrite in_app_iff. intros [H|H]; [by apply not_Done_Value in H|].
      by apply repeat_spec in H.
Qed.

End RagProperties.

(* ===================================================================== *)
(** * The properties at the concrete runs                                 *)
(* ===================================================================== *)

Section Instances.
Import JS Platform Samples.

(** ** Segmenter *)

Lemma valid_20_5 : valid 20 5.
Proof. unfold valid. lia. Defined.

Lemma fox_length : (length fox <= 20)%nat.
Proof. vm_compute. lia. Defined.

(** A text of 20 code units cut with [chunkSize = 20], [overlap = 5] gives
    two chunks, not one: the second starts at 15 and repeats the last five
    code units of the first. *)
Lemma chunkText_short_text_two_chunks :
  0 < strlen fox <= 20
  /\ Chunking.chunkText 20 fox (Some 20) (Some 5) = Some (Return two_chunks)
  /\ Chunking.chunkText 20 fox (Some 20) (Some 5)
     <> Some (Return [Chunking.mkChunk fox 0]).
Proof.
  split; [vm_compute; split; [reflexivity | discriminate]|].
  split; [vm_compute; reflexivity | vm_compute; discriminate].
Qed.

Lemma chunkText_lossless_witness :
  valid 20 5 /\ (length fox <= 20)%nat
  /\ exists chunks,
       Chunking.chunkText 20 fox (Some 20) (Some 5) = Some (Return chunks)
       /\ concat (map (fun c => take 15 (Chunking.text c)) chunks)
          ++ from_option (fun c => drop 15 (Chunking.text c)) [] (last chunks)
          = fox.
Proof.
  split; [exact valid_20_5|]. split; [exact fox_length|].
  apply (chunkText_lossless fox 20 5 20 valid_20_5 fox_length).
Defined.

Lemma chunkText_chunks_witness :
  valid 20 5 /\ (length fox <= 20)%nat
  /\ exists chunks,
       Chunking.chunkText 20 fox (Some 20) (Some 5) = Some (Return chunks)
       /\ head chunks = Some (Chunking.mkChunk fox 0)
       /\ ((1 < length chunks)%nat <-> 1 * (20 - 5) < strlen fox).
Proof.
  split; [exact valid_20_5|]. split; [exact fox_length|].
  destruct (chunkText_chunks fox 20 5 20 valid_20_5 fox_length)
    as (chunks & E & _ & Hk & _ & _ & Hhead & _).
  exists chunks. split; [exact E|]. split.
  - apply Hhead. vm_compute. split; [reflexivity | discriminate].
  - apply (Hk 1%nat).
Defined.

Lemma chunkText_count_witness :
  valid 20 5 /\ fox <> [] /\ (length fox <= 20)%nat
  /\ exists chunks,
       Chunking.chunkText 20 fox (Some 20) (Some 5) = Some (Return chunks)
       /\ Z.of_nat (length chunks) = (20 + 15 - 1) / 15
       /\ (forall p final,
             chunks !! 0%nat = Some p -> chunks !! 1%nat = Some final ->
             length chunks = 2%nat ->
             Chunking.text final `suffix_of` Chunking.text p).
Proof.
  assert (Hne : fox <> []) by (vm_compute; discriminate).
  split; [exact valid_20_5|]. split; [exact Hne|]. split; [exact fox_length|].
  destruct (chunkText_count fox 20 5 20 valid_20_5 Hne fox_length)
    as (chunks & E & _ & Hn & Hsuffix & _ & _).
  exists chunks. split; [exact E|]. split; [exact Hn|].
  apply Hsuffix. vm_compute. split; [reflexivity | discriminate].
Defined.

(** ** Embedding client *)

Lemma generateEmbedding_retries_witness :
  (3 <= 3)%nat
  /\ exists result trace,
       Embeddings.generateEmbedding 3 flaky fox = Some (result, trace)
       /\ result = Return vector
       /\ Embeddings.delays trace = [250; 500].
Proof.
  split; [lia|].
  destruct (generateEmbedding_retries flaky fox 3 ltac:(lia))
    as (result & trace & E & _ & _ & _ & _ & _ & _ & _ & Hok & _).
  exists result, trace. split; [exact E|].
  apply (Hok vector); [eexists; reflexivity | eexists; reflexivity | reflexivity].
Defined.

(** ** Document listing *)

(** The listing of two rows of one source, the later row first, carries
    the [created_at] of the first row scanned, which is not the
    earliest. *)
Lemma GET_created_at_first_seen :
  exists s row,
    Documents.GET (Documents.mkSelect (Some rows_out_of_order) None)
    = Documents.mkResponse 200 (Documents.Summaries [s])
    /\ In row (rows_of (Documents.source s) rows_out_of_order)
    /\ before (Documents.row_created_at row) (Documents.created_at s) = true.
Proof.
  exists (Documents.mkSummary (lit "notes.txt") 2 (lit "2024-02-01T00:00:00+00:00")),
         (listed_row "notes.txt" "2024-01-01T00:00:00+00:00").
  split; [vm_compute; reflexivity|].
  split; [vm_compute; auto | vm_compute; reflexivity].
Qed.

(** A source named like a property of [Object.prototype] is not listed. *)
Example GET_inherited_key :
  Documents.GET
    (Documents.mkSelect (Some [listed_row "constructor" "2024-01-01T00:00:00+00:00"]) None)
  = Documents.mkResponse 200 (Documents.Summaries []).
Proof. vm_compute. reflexivity. Qed.

Lemma GET_groups_by_source_witness :
  listable (lit "notes.txt") = true
  /\ exists summaries,
       Documents.GET (Documents.mkSelect (Some rows_out_of_order) None)
       = Documents.mkResponse 200 (Documents.Summaries summaries)
       /\ filter (fun s => Documents.source s = lit "notes.txt") summaries
          = [Documents.mkSummary (lit "notes.txt") 2 (lit "2024-02-01T00:00:00+00:00")].
Proof.
  assert (H : listable (lit "notes.txt") = true) by (vm_compute; reflexivity).
  split; [exact H|].
  destruct (GET_groups_by_source (Some rows_out_of_order) (lit "notes.txt") H)
    as (summaries & E & Hs & _).
  exists summaries. split; [exact E | exact Hs].
Defined.

(** ** Ingestion *)

(** After two uploads under one file name, of one chunk and of two, the
    rows stored under that name do not agree on [total_chunks]. *)
Lemma POST_same_source_different_totals :
  exists table,
    table_after_both = Some table
    /\ ~ same_total (lit "notes.txt") table.
Proof.
  eexists. split; [vm_compute; reflexivity|].
  intros H.
  set (r1 := Upload.mkRow (lit "a") vector (Upload.mkMetadata (lit "notes.txt") 0 1)).
  set (r2 := Upload.mkRow [97] vector (Upload.mkMetadata (lit "notes.txt") 1 2)).
  specialize (H r1 r2). cbn in H.
  assert (E : (1 : Z) = 2); [|discriminate].
  apply H; try reflexivity.
  - apply list_elem_of_In. vm_compute. auto.
  - apply list_elem_of_In. vm_compute. auto.
Qed.

Lemma POST_rows_written_witness :
  (3 <= 3)%nat
  /\ (from_option length 0%nat (Upload.req_content short_upload) <= 3)%nat
  /\ exists response table',
       Upload.POST 3 upload_world [] short_upload = Some (response, table')
       /\ (Upload.status response = 200 ->
           exists rows, table' = [] ++ rows
                        /\ rows_for (lit "notes.txt") [Chunking.mkChunk (lit "a") 0] rows).
Proof.
  assert (H : (from_option length 0%nat (Upload.req_content short_upload) <= 3)%nat)
    by (vm_compute; lia).
  split; [lia|]. split; [exact H|].
  destruct (POST_rows_written 3 upload_world [] short_upload ltac:(lia) H)
    as (response & table' & E & _ & Hok).
  exists response, table'. split; [exact E|]. intros H200.
  destruct (Hok H200) as (content & filename & chunks & rows & Hc & Hf & Hch & Ht & _ & Hr & _).
  exists rows. split; [exact Ht|].
  injection Hc as <-. injection Hf as <-.
  assert (Hchunks : chunks = [Chunking.mkChunk (lit "a") 0]).
  { assert (E2 : Chunking.chunkText 3 (lit "a") None None
                 = Some (Return [Chunking.mkChunk (lit "a") 0])) by (vm_compute; reflexivity).
    rewrite E2 in Hch. by injection Hch as <-. }
  rewrite <- Hchunks. exact Hr.
Defined.

(** ** Answering *)

Lemma retrieved_sample (outcome : option exn) (src : option string) :
  retrieved 3 (rag_world outcome) (ask src) asked vector flaky_trace
    [fox_match; other_match].
Proof. split; vm_compute; reflexivity. Defined.

Lemma POST_stream_completed_witness :
  retrieved 3 (rag_world None) (ask (Some "fox.txt"%string)) asked vector flaky_trace
    [fox_match; other_match]
  /\ Rag.narrow (Some (lit "fox.txt")) [fox_match; other_match] <> []
  /\ exists calls readable,
       Rag.POST 0 render 3 (rag_world None) (ask (Some "fox.txt"%string))
       = Some (calls, Rag.Streaming 200 readable)
       /\ enqueued readable
          = map encode [lit "The fox "; lit "is quick."]
            ++ [encode (trailer 0 render [fox_match])]
       /\ state readable = Closed.
Proof.
  assert (Hne : Rag.narrow (Some (lit "fox.txt")) [fox_match; other_match] <> [])
    by (vm_compute; discriminate).
  split; [apply retrieved_sample|]. split; [exact Hne|].
  destruct (POST_stream_completed 0 render 3 (rag_world None)
              (ask (Some "fox.txt"%string)) asked vector flaky_trace
              [fox_match; other_match] events
              (retrieved_sample None (Some "fox.txt"%string)) Hne eq_refl)
    as (calls & readable & E & _ & Hq & _ & _ & Hs).
  exists calls, readable. split; [exact E|]. split; [exact Hq | exact Hs].
Defined.

Lemma POST_no_relevant_context_witness :
  retrieved 3 (rag_world None) (ask (Some "missing.txt"%string)) asked vector
    flaky_trace [fox_match; other_match]
  /\ Rag.narrow (Some (lit "missing.txt")) [fox_match; other_match] = []
  /\ exists calls,
       Rag.POST 0 render 3 (rag_world None) (ask (Some "missing.txt"%string))
       = Some (calls,
               Rag.Json 404 (lit "No relevant chunks found. Try rephrasing or uploading."))
       /\ generation_calls calls = 0%nat.
Proof.
  assert (Hnone : Rag.narrow (Some (lit "missing.txt")) [fox_match; other_match] = [])
    by (vm_compute; reflexivity).
  split; [apply retrieved_sample|]. split; [exact Hnone|].
  destruct (POST_no_relevant_context 0 render 3 (rag_world None)
              (ask (Some "missing.txt"%string)) asked vector flaky_trace
              [fox_match; other_match]
              (retrieved_sample None (Some "missing.txt"%string)))
    as (_ & Hempty & _).
  destruct (Hempty Hnone) as (calls & E & _ & Hg).
  exists calls. split; [exact E | exact Hg].
Defined.

Lemma POST_stream_failed_witness :
  retrieved 3 (rag_world (Some overloaded)) (ask None) asked vector flaky_trace
    [fox_match; other_match]
  /\ Rag.narrow None [fox_match; other_match] <> []
  /\ (exists calls readable,
        Rag.POST 0 render 3 (rag_world (Some overloaded)) (ask None)
        = Some (calls, Rag.Streaming 200 readable)
        /\ generation_calls calls = 1%nat
        /\ state readable = Errored overloaded)
  /\ Delivery.run render (Rag.sourcesPayload 0 [fox_match; other_match])
       MoreSamples.prompt_reader (Delivery.new_body (events, Some overloaded)) []
     = (Delivery.mkBody None (mkController [] (Errored overloaded)) false,
        [Value [84; 104; 101; 32; 102; 111; 120; 32]; Rejected overloaded]).
Proof.
  assert (Hne : Rag.narrow None [fox_match; other_match] <> [])
    by (vm_compute; discriminate).
  split; [apply retrieved_sample|]. split; [exact Hne|].
  destruct (POST_stream_failed 0 render 3 (rag_world (Some overloaded))
              (ask None) asked vector flaky_trace
              [fox_match; other_match] events overloaded
              (retrieved_sample (Some overloaded) None) Hne eq_refl)
    as ((calls & readable & E & Hg & _ & _ & Hs) & _ & Hfail & _).
  split; [exists calls, readable; split; [exact E | split; [exact Hg | exact Hs]]|].
  destruct (Hfail [Delivery.Produce; Delivery.Produce; Delivery.Read; Delivery.Produce]
              [Delivery.Read] eq_refl)
    as (received & queue & waiting & Hbefore & _ & Hafter).
  assert (Hw : waiting = false).
  { assert (Hb : Delivery.waiting
                   (Delivery.run render
                      (Rag.sourcesPayload 0
                         (Rag.narrow (Rag.document_source (ask None))
                            [fox_match; other_match]))
                      [Delivery.Produce; Delivery.Produce; Delivery.Read; Delivery.Produce]
                      (Delivery.new_body (events, Some overloaded)) []).1
                 = false) by (vm_compute; reflexivity).
    rewrite Hbefore in Hb. exact Hb. }
  assert (Hr : received = [encode (lit "The fox ")]).
  { assert (Hlog : (Delivery.run render
                      (Rag.sourcesPayload 0
                         (Rag.narrow (Rag.document_source (ask None))
                            [fox_match; other_match]))
                      [Delivery.Produce; Delivery.Produce; Delivery.Read; Delivery.Produce]
                      (Delivery.new_body (events, Some overloaded)) []).2
                   = [Value (encode (lit "The fox "))]) by (vm_compute; reflexivity).
    rewrite Hbefore in Hlog. cbn [snd] in Hlog.
    destruct received as [|chunk [|? ?]]; [discriminate | | discriminate].
    by injection Hlog as ->. }
  rewrite Hr, Hw in Hafter. exact Hafter.
Defined.

(** The increments forwarded before the error do not all remain: a
    consumer that reads only after the error finds the stream errored and
    its queue empty, though two increments had been handed over. *)
Lemma POST_unread_increments_discarded :
  let payload := Rag.sourcesPayload 0 [fox_match; other_match] in
  let body := Delivery.new_body (events, Some overloaded) in
  Delivery.run render payload (repeat Delivery.Produce 3) body []
  = (Delivery.mkBody (Some ([], Some overloaded))
       (mkController [[84; 104; 101; 32; 102; 111; 120; 32];
                      [105; 115; 32; 113; 117; 105; 99; 107; 46]] Readable) false,
     [])
  /\ Delivery.run render payload (repeat Delivery.Produce 4 ++ [Delivery.Read]) body []
     = (Delivery.mkBody None (mkController [] (Errored overloaded)) false,
        [Rejected overloaded])
  /\ exists calls readable,
       Rag.POST 0 render 3 (rag_world (Some overloaded)) (ask None)
       = Some (calls, Rag.Streaming 200 readable)
       /\ bytes readable = []
       /\ bytes readable <> concat (map encode (increments events)).
Proof.
  split; [vm_compute; reflexivity|]. split; [vm_compute; reflexivity|].
  eexists _, _. split; [vm_compute; reflexivity|].
  split; [reflexivity | vm_compute; discriminate].
Qed.

End Instances.

(* ===================================================================== *)
(** * More about the segmenter                                            *)
(* ===================================================================== *)

Section ChunkingMore.
Import JS Chunking.

Lemma chunk_at_length (t : jsstring) (size step k : nat) :
  length (Chunking.text (chunk_at t size step k))
  = Nat.min size (length t - k * step).
Proof. unfold chunk_at. cbn. by rewrite length_take, length_drop. Qed.

(** X1. With valid parameters no chunk is empty and none is longer than
    [chunkSize]: chunk [k] holds [min chunkSize (L - k * step)] code units,
    so every chunk that starts at least [chunkSize] before the end of the
    text is full. *)
Theorem chunkText_chunk_lengths :
  forall (t : jsstring) (chunkSize overlap : Z) (fuel : nat),
    valid chunkSize overlap ->
    (length t <= fuel)%nat ->
    exists chunks,
      chunkText fuel t (Some chunkSize) (Some overlap) = Some (Return chunks)
      /\ forall (k : nat) c,
           chunks !! k = Some c ->
           strlen (Chunking.text c)
           = Z.min chunkSize (strlen t - Z.of_nat k * (chunkSize - overlap))
           /\ 0 < strlen (Chunking.text c) <= chunkSize.
Proof.
  intros t chunkSize overlap fuel Hv Hfuel. pose proof Hv as [Hsize Hov].
  eexists. split; [by apply chunkText_spec|].
  intros k c Hk. apply chunks_of_lookup in Hk as [Hlt ->].
  apply lt_ceil_div in Hlt; [|lia].
  unfold strlen. rewrite chunk_at_length. nia.
Qed.

(** X2. Neighbouring chunks overlap as configured: what chunk [k] holds
    beyond its first [chunkSize - overlap] code units is what chunk [k + 1]
    begins with, its first [overlap] code units. *)
Theorem chunkText_neighbours_overlap :
  forall (t : jsstring) (chunkSize overlap : Z) (fuel : nat),
    valid chunkSize overlap ->
    (length t <= fuel)%nat ->
    exists chunks,
      chunkText fuel t (Some chunkSize) (Some overlap) = Some (Return chunks)
      /\ forall (k : nat) c c',
           chunks !! k = Some c ->
           chunks !! S k = Some c' ->
           drop (Z.to_nat (chunkSize - overlap)) (Chunking.text c)
           = take (Z.to_nat overlap) (Chunking.text c').
Proof.
  intros t chunkSize overlap fuel Hv Hfuel. pose proof Hv as [Hsize Hov].
  eexists. split; [by apply chunkText_spec|].
  intros k c c' Hk Hk'.
  apply chunks_of_lookup in Hk as [_ ->]. apply chunks_of_lookup in Hk' as [_ ->].
  unfold chunk_at. cbn [Chunking.text].
  set (size := Z.to_nat chunkSize). set (step := Z.to_nat (chunkSize - overlap)).
  set (o := Z.to_nat overlap).
  assert (Hsz : size = (step + o)%nat) by (subst size step o; lia).
  rewrite take_take, Nat.min_l by lia.
  rewrite Hsz, <- take_drop_commute, drop_drop.
  do 2 f_equal. lia.
Qed.

(** X3. With [overlap = 0] the chunks are contiguous and do not overlap:
    their texts, put end to end, are the text. *)
Theorem chunkText_no_overlap_concat :
  forall (t : jsstring) (chunkSize : Z) (fuel : nat),
    0 < chunkSize ->
    (length t <= fuel)%nat ->
    exists chunks,
      chunkText fuel t (Some chunkSize) (Some 0) = Some (Return chunks)
      /\ concat (map Chunking.text chunks) = t.
Proof.
  intros t chunkSize fuel Hsize Hfuel.
  assert (Hv : valid chunkSize 0) by (unfold valid; lia).
  eexists. split; [by apply chunkText_spec|].
  rewrite Z.sub_0_r. set (size := Z.to_nat chunkSize).
  unfold chunks_of. rewrite map_map.
  pose proof (coverage_from t size size ltac:(subst size; lia) (length t) 0%nat ltac:(lia)) as C.
  rewrite Nat.sub_0_r in C. cbn [drop] in C. rewrite <- C at 2.
  f_equal. apply map_ext. intros k. unfold chunk_at. cbn.
  by rewrite take_take, Nat.min_id.
Qed.

End ChunkingMore.

(* ===================================================================== *)
(** * More about the document listing and deletion                        *)
(* ===================================================================== *)

Section DocumentsMore.
Import JS Documents DocumentsStore.

Lemma visit_spec (m : gmap jsstring DocumentSummary) (row : Row) :
  well_keyed m -> visit m row = Return (visited m row) /\ well_keyed (visited m row).
Proof.
  intros Hm. unfold visit, visited.
  destruct (row_metadata row ≫= metadata_source) as [s|]; [|done].
  unfold listable. destruct (truthy s) eqn:Ht; cbn [negb andb]; [|done].
  unfold get. destruct (m !! s) as [x|] eqn:Ex.
  - rewrite Ex. destruct (Hm _ _ Ex) as [Hs Hl].
    unfold listable in Hl. rewrite Ht in Hl. cbn [andb] in Hl. rewrite Hl. cbn.
    split; [done|]. apply well_keyed_insert; [done | done |].
    unfold listable. by rewrite Ht, Hl.
  - case_bool_decide as Hp; cbn [negb].
    + by rewrite Ex.
    + rewrite lookup_insert_eq, insert_insert_eq. cbn. split; [done|].
      apply well_keyed_insert; [done | done |].
      unfold listable. rewrite Ht. by rewrite bool_decide_eq_false_2.
Qed.

Lemma total_count_perm (l l' : list DocumentSummary) :
  l ≡ₚ l' -> total_count l = total_count l'.
Proof.
  unfold total_count. induction 1; cbn in *; lia.
Qed.

(** Writing [y] under [k] changes the total by the count of [y], less the
    count of the entry it replaces. *)
Lemma total_count_insert (m : gmap jsstring DocumentSummary) k y :
  total_count (Object_values (<[k := y]> m))
  = chunk_count y + total_count (Object_values m)
    - from_option chunk_count 0 (m !! k).
Proof.
  unfold Object_values. destruct (m !! k) as [x|] eqn:E; cbn [from_option].
  - rewrite <- (insert_delete_eq m k y).
    rewrite (total_count_perm _ (y :: (map_to_list (delete k m)).*2)).
    2:{ rewrite map_to_list_insert by apply lookup_delete_eq. done. }
    rewrite (total_count_perm ((map_to_list m).*2) (x :: (map_to_list (delete k m)).*2)).
    2:{ rewrite <- (map_to_list_delete m k x E). done. }
    unfold total_count. cbn. lia.
  - rewrite (total_count_perm _ (y :: (map_to_list m).*2)).
    2:{ rewrite map_to_list_insert by done. done. }
    unfold total_count. cbn. lia.
Qed.

Lemma total_count_visited (m : gmap jsstring DocumentSummary) (row : Row) :
  total_count (Object_values (visited m row))
  = total_count (Object_values m) + (if counted row then 1 else 0).
Proof.
  unfold visited, counted.
  destruct (row_metadata row ≫= metadata_source) as [s|]; [|lia].
  destruct (listable s); [|lia].
  rewrite total_count_insert. destruct (m !! s); cbn; lia.
Qed.

Lemma scan_total (rows : list Row) :
  forall m, well_keyed m ->
    exists m', scan m rows = Return m'
               /\ total_count (Object_values m')
                  = total_count (Object_values m)
                    + Z.of_nat (length (List.filter counted rows)).
Proof.
  induction rows as [|row rows IH]; intros m Hm.
  - exists m. split; [done|]. cbn. lia.
  - cbn [scan]. destruct (visit_spec m row Hm) as [-> Hm'].
    destruct (IH _ Hm') as (m' & -> & Ht). exists m'. split; [done|].
    rewrite Ht, total_count_visited. cbn [List.filter].
    destruct (counted row); cbn [length]; lia.
Qed.

(** The listing is the collection of the values of an object that holds,
    under each source, the summary of its rows. *)
Lemma GET_listing (rows : list Row) :
  exists m,
    GET (mkSelect (Some rows) None) = mkResponse 200 (Summaries (Object_values m))
    /\ well_keyed m
    /\ forall src, m !! src = summary_of src rows.
Proof.
  destruct (scan_spec rows ∅) as (m & Hscan & Hm & Hl).
  { intros k s. by rewrite lookup_empty. }
  exists m. split; [|split; [done|]].
  - unfold GET. cbn. by rewrite Hscan.
  - intros src. rewrite Hl. unfold after_scan. by rewrite lookup_empty.
Qed.

Lemma summary_of_filter (src : jsstring) (keep : Row -> bool) (rows : list Row) :
  (forall row, has_source src row = true -> keep row = true) ->
  summary_of src (List.filter keep rows) = summary_of src rows.
Proof.
  intros Hkeep. unfold summary_of, rows_of.
  replace (List.filter (has_source src) (List.filter keep rows))
    with (List.filter (has_source src) rows); [done|].
  induction rows as [|row rows IH]; [done|]. cbn.
  destruct (has_source src row) eqn:Hs.
  - rewrite (Hkeep row Hs). cbn. rewrite Hs. by f_equal.
  - destruct (keep row); cbn; [by rewrite Hs | done].
Qed.

(** X4. [GET] answers 200 with a listing exactly when the query reports no
    error, whatever the rows are; when the query reports an error it
    answers 500 with the message of that error. *)
Theorem GET_status :
  forall result : SelectResult,
    (select_error result = None ->
     exists l, GET result = mkResponse 200 (Summaries l))
    /\ (forall msg, select_error result = Some msg ->
        GET result = mkResponse 500 (Failure msg)).
Proof.
  intros [data err]. cbn. split.
  - intros ->. destruct (scan_spec (default [] data) ∅) as (m & Hscan & _).
    { intros k s. by rewrite lookup_empty. }
    exists (Object_values m). unfold GET. cbn. by rewrite Hscan.
  - intros msg ->. reflexivity.
Qed.

(** X5. No source appears twice in the listing, and every summary listed
    counts at least one row. *)
Theorem GET_listing_distinct :
  forall rows : list Row,
    NoDup (map source (listing rows))
    /\ forall s, In s (listing rows) -> 1 <= chunk_count s.
Proof.
  intros rows. unfold listing.
  destruct (GET_listing rows) as (m & -> & Hm & Hl). cbn. split.
  - unfold Object_values.
    replace (map source (map_to_list m).*2) with ((map_to_list m).*1);
      [apply NoDup_fst_map_to_list|].
    assert (H : forall kv, kv ∈ map_to_list m -> kv.1 = source kv.2).
    { intros [k v] Hkv. apply elem_of_map_to_list in Hkv.
      cbn. by destruct (Hm _ _ Hkv) as [-> _]. }
    induction (map_to_list m) as [|kv l IH]; [done|]. cbn.
    f_equal; [apply H; left | apply IH; intros; apply H; by right].
  - intros s Hs. apply list_elem_of_In in Hs. unfold Object_values in Hs.
    apply list_elem_of_fmap in Hs as ([k v] & -> & Hkv).
    apply elem_of_map_to_list in Hkv. rewrite Hl in Hkv. cbn.
    unfold summary_of in Hkv. destruct (listable k); [|done].
    destruct (rows_of k rows); [done|]. injection Hkv as <-. cbn. lia.
Qed.

(** X6. The counts of the listing add up to the number of rows whose source
    is listed: rows with no metadata, no source, an empty source or a
    source named like a property of [Object.prototype] are not counted
    anywhere. *)
Theorem GET_total_count :
  forall rows : list Row,
    total_count (listing rows) = Z.of_nat (length (List.filter counted rows)).
Proof.
  intros rows. unfold listing, GET. cbn.
  destruct (scan_total rows ∅) as (m & -> & Ht).
  { intros k s. by rewrite lookup_empty. }
  cbn [body]. rewrite Ht. unfold Object_values. by rewrite map_to_list_empty.
Qed.

Lemma rows_of_deleted (src : jsstring) (rows : list Row) :
  rows_of src (List.filter (fun row => negb (has_source src row)) rows) = [].
Proof.
  unfold rows_of. induction rows as [|row rows IH]; [done|]. cbn.
  destruct (has_source src row) eqn:Hs; cbn; [done|]. by rewrite Hs.
Qed.

Lemma delete_nothing (src : jsstring) (rows : list Row) :
  rows_of src rows = [] ->
  List.filter (fun row => negb (has_source src row)) rows = rows.
Proof.
  unfold rows_of. induction rows as [|row rows IH]; [done|]. cbn.
  destruct (has_source src row); [done|]. cbn. intros H. f_equal. by apply IH.
Qed.

(** X7. A [DELETE] of a non-empty source that the store carries out answers
    200 and removes the rows of that source and no other, keeping the
    order; the listing then has no summary for that source and, for every
    other source, the summaries it had before. *)
Theorem DELETE_then_GET :
  forall (table : list Row) (src : jsstring),
    truthy src = true ->
    exists table',
      DELETE None table (Some src) = (mkDeleteResponse 200 Deleted, table')
      /\ table' = List.filter (fun row => negb (has_source src row)) table
      /\ List.filter (fun s => bool_decide (source s = src)) (listing table') = []
      /\ forall src',
           src' <> src ->
           List.filter (fun s => bool_decide (source s = src')) (listing table')
           = List.filter (fun s => bool_decide (source s = src')) (listing table).
Proof.
  intros table src Ht. eexists. unfold DELETE, delete_eq_source. rewrite Ht. cbn [negb].
  split; [reflexivity|]. split; [reflexivity|].
  set (table' := List.filter (fun row => negb (has_source src row)) table).
  assert (Hfilter : forall (l : list DocumentSummary) k,
             List.filter (fun s => bool_decide (source s = k)) l
             = filter (fun s => source s = k) l).
  { intros l k. induction l as [|x l IH]; [done|].
    rewrite filter_cons. cbn [List.filter].
    case_bool_decide; case_decide; try done; by f_equal. }
  unfold listing.
  destruct (GET_listing table') as (m' & -> & Hm' & Hl').
  destruct (GET_listing table) as (m & -> & Hm & Hl). cbn [body].
  split.
  - rewrite Hfilter, (values_by_source m' src Hm'), Hl'.
    unfold summary_of, table'. rewrite rows_of_deleted. by destruct (listable src).
  - intros src' Hne.
    rewrite !Hfilter, (values_by_source m' src' Hm'), (values_by_source m src' Hm), Hl', Hl.
    f_equal. apply summary_of_filter. intros row Hs.
    unfold has_source, streq in *.
    destruct (row_metadata row ≫= metadata_source) as [s|]; [|done].
    apply bool_decide_eq_true in Hs as ->. cbn.
    by rewrite bool_decide_eq_false_2.
Qed.

(** X8. A [DELETE] leaves the table as it is when the source is missing or
    empty (400), when the store reports an error (500, with its message),
    and when no row has the source: deleting what was never stored, or
    deleting twice, answers 200 and changes nothing. *)
Theorem DELETE_unchanged :
  forall (store_error : option jsstring) (table : list Row) (body_source : option jsstring),
    let result := DELETE store_error table body_source in
    (from_option truthy false body_source = false ->
     result = (mkDeleteResponse 400 (DeleteFailure (lit "Missing source to delete")), table))
    /\ (forall msg, from_option truthy false body_source = true ->
          store_error = Some msg ->
          result = (mkDeleteResponse 500 (DeleteFailure msg), table))
    /\ (forall src, body_source = Some src -> truthy src = true ->
          store_error = None ->
          rows_of src table = [] ->
          result = (mkDeleteResponse 200 Deleted, table))
    /\ (forall src, body_source = Some src -> truthy src = true ->
          store_error = None ->
          DELETE None (snd result) (Some src) = (mkDeleteResponse 200 Deleted, snd result)).
Proof.
  intros store_error table body_source result. subst result.
  unfold DELETE, delete_eq_source. split; [|split; [|split]].
  - destruct body_source as [src|]; cbn; [|done]. by intros ->.
  - intros msg Ht ->. destruct body_source as [src|]; cbn in *; [|done]. by rewrite Ht.
  - intros src -> Ht -> Hrows. rewrite Ht. cbn. f_equal. by apply delete_nothing.
  - intros src -> Ht ->. rewrite Ht. cbn. f_equal. apply delete_nothing, rows_of_deleted.
Qed.

End DocumentsMore.

(* ===================================================================== *)
(** * More about ingestion                                                *)
(* ===================================================================== *)

Section UploadMore.
Import JS Upload.
Context {number : Type}.

Lemma Promise_all_Throw {A} (results : list (completion A)) (e : exn) :
  Promise_all results = Throw e -> In (Throw e) results.
Proof.
  induction results as [|[a|e'] results IH]; cbn; [done | |].
  - destruct (Promise_all results); [done|]. intros [= ->]. right. by apply IH.
  - intros [= ->]. by left.
Qed.

Lemma Promise_all_all_Return {A} (results : list (completion A)) :
  (forall r, In r results -> exists a, r = Return a) ->
  exists l, Promise_all results = Return l.
Proof.
  induction results as [|r results IH]; intros H; [by eexists|].
  destruct (H r (or_introl eq_refl)) as [a ->]. cbn.
  destruct IH as [l ->]; [intros; apply H; by right|]. by eexists.
Qed.

(** What a call of [embed_chunk] gives is what [generateEmbedding] gives
    for the text of the chunk. *)
Lemma embed_chunk_cases fuel (w : World number) i chunk r :
  embed_chunk fuel w i chunk = Some r ->
  match r with
  | Return e =>
      text e = Chunking.text chunk /\ index e = Chunking.index chunk
      /\ embeds fuel w i chunk (embedding e)
  | Throw err => rejects fuel w i chunk err
  end.
Proof.
  unfold embed_chunk, embeds, rejects.
  destruct (Embeddings.generateEmbedding _ _ _) as [[[v|err] tr]|]; cbn; [| |done].
  - intros [= <-]. cbn. eauto.
  - intros [= <-]. eauto.
Qed.

(** The results of the calls for all the chunks, and what [ingest] makes of
    them. *)
Lemma ingest_cases fuel (w : World number) table content filename :
  (3 <= fuel)%nat ->
  (length content <= fuel)%nat ->
  let chunks := upload_chunks content in
  exists results,
    Forall2 (fun ic r => embed_chunk fuel w (fst ic) (snd ic) = Some r)
      (imap (fun i c => (i, c)) chunks) results
    /\ ingest fuel w table content filename
       = Some match Promise_all results with
              | Throw e => (mkResponse 500 (Failure (message e)), table)
              | Return embeddings =>
                  match insert_error w with
                  | Some msg => (mkResponse 500 (Failure msg), table)
                  | None =>
                      (mkResponse 200 (Created (Z.of_nat (length embeddings))),
                       table ++ map (to_row filename chunks) embeddings)
                  end
              end.
Proof.
  intros Hfuel Hlen chunks. unfold ingest.
  assert (Hchunks : Chunking.chunkText fuel content None None = Some (Return chunks)).
  { change (Chunking.chunkText fuel content None None)
      with (Chunking.chunkText fuel content (Some 500) (Some 50)).
    rewrite chunkText_spec; [done | unfold valid; lia | done]. }
  rewrite Hchunks. cbn [mbind option_bind].
  destruct (embed_all_returns fuel w chunks Hfuel) as [results Hres].
  rewrite Hres. cbn [mbind option_bind].
  exists results. split; [by apply mapM_Some|].
  destruct (Promise_all results); [|done].
  unfold insert. destruct (insert_error w); [done|]. by rewrite length_map.
Qed.

Lemma POST_validated fuel (w : World number) table request :
  POST fuel w table request
  = match validated request with
    | Some (content, filename) => ingest fuel w table content filename
    | None => POST fuel w table request
    end
  /\ (validated request = None ->
      exists msg, POST fuel w table request = Some (mkResponse 400 (Failure msg), table)).
Proof.
  unfold validated, POST. destruct request as [[c|] [f|]]; cbn.
  - destruct (truthy c); cbn; [|split; [done | eauto]].
    destruct (truthy f); cbn; [|split; [done | eauto]].
    rewrite Z.gtb_ltb, Z.ltb_antisym.
    destruct (strlen c <=? 50000); cbn; split; try done; eauto.
  - destruct (truthy c); cbn; split; try done; eauto.
  - split; [done | eauto].
  - split; [done | eauto].
Qed.

Lemma validated_Some (request : UploadRequest) content filename :
  validated request = Some (content, filename) ->
  req_content request = Some content /\ req_filename request = Some filename
  /\ 0 < strlen content <= 50000.
Proof.
  unfold validated. destruct request as [[c|] [f|]]; cbn; try done.
  destruct (truthy c) eqn:Hc; cbn; [|done]. destruct (truthy f); cbn; [|done].
  destruct (Z.leb_spec (strlen c) 50000); [|done]. intros [= <- <-].
  repeat split; try done. destruct c; [done|]. unfold strlen. cbn. lia.
Qed.

(** The four ways a JSON upload can end. *)
Lemma POST_outcome fuel (w : World number) table request :
  (3 <= fuel)%nat ->
  (from_option length 0%nat (req_content request) <= fuel)%nat ->
  (validated request = None
   /\ exists msg, POST fuel w table request = Some (mkResponse 400 (Failure msg), table))
  \/ exists content filename,
       validated request = Some (content, filename)
       /\ ((exists i chunk e,
              upload_chunks content !! i = Some chunk
              /\ rejects fuel w i chunk e
              /\ POST fuel w table request
                 = Some (mkResponse 500 (Failure (message e)), table))
           \/ exists embeddings,
                Forall2 (fun ic e =>
                           text e = Chunking.text (snd ic)
                           /\ index e = Chunking.index (snd ic)
                           /\ embeds fuel w (fst ic) (snd ic) (embedding e))
                  (imap (fun i c => (i, c)) (upload_chunks content)) embeddings
                /\ POST fuel w table request
                   = Some match insert_error w with
                          | Some msg => (mkResponse 500 (Failure msg), table)
                          | None =>
                              (mkResponse 200 (Created (Z.of_nat (length embeddings))),
                               table ++ map (to_row filename (upload_chunks content))
                                          embeddings)
                          end).
Proof.
  intros Hfuel Hlen. destruct (POST_validated fuel w table request) as [HP Hnone].
  destruct (validated request) as [[content filename]|] eqn:Hv; [|left; auto].
  right. exists content, filename. split; [done|].
  destruct (validated_Some _ _ _ Hv) as (Hc & _ & _).
  rewrite Hc in Hlen. cbn in Hlen.
  destruct (ingest_cases fuel w table content filename Hfuel Hlen) as (results & HF & Hi).
  rewrite HP, Hi. destruct (Promise_all results) as [embeddings|e] eqn:Hall.
  - right. exists embeddings. split; [|done].
    apply Promise_all_Return in Hall as ->. apply Forall2_fmap_r in HF.
    eapply Forall2_impl; [exact HF|]. intros [i c] e He. cbn in *.
    apply (embed_chunk_cases fuel w i c (Return e) He).
  - left. apply Promise_all_Throw in Hall.
    apply list_elem_of_In, list_elem_of_lookup in Hall as [i Hi'].
    destruct (Forall2_lookup_r _ _ _ _ _ HF Hi') as ([i' c] & Hic & He).
    apply list_lookup_imap_Some in Hic as (c' & Hc' & [= -> ->]). cbn in He.
    exists i, c', e. split; [done|]. split; [|done].
    apply (embed_chunk_cases fuel w i c' (Throw e) He).
Qed.

Lemma embeds_not_rejects fuel (w : World number) i chunk v e :
  embeds fuel w i chunk v -> rejects fuel w i chunk e -> False.
Proof. intros [t1 H1] [t2 H2]. congruence. Qed.

(** X9. A JSON upload is answered 200 exactly when the body passes the
    checks (content and file name non-empty strings, at most 50,000 code
    units), [generateEmbedding] returns a vector for every chunk of the
    content, and the insert reports no error: one failed chunk or a failed
    insert fails the whole request. *)
Theorem POST_succeeds_iff :
  forall (fuel : nat) (w : World number) (table : list (NewRow number))
         (request : UploadRequest),
    (3 <= fuel)%nat ->
    (from_option length 0%nat (req_content request) <= fuel)%nat ->
    exists response table',
      POST fuel w table request = Some (response, table')
      /\ (status response = 200 <->
          exists content filename,
            validated request = Some (content, filename)
            /\ (forall i chunk,
                  upload_chunks content !! i = Some chunk ->
                  exists v, embeds fuel w i chunk v)
            /\ insert_error w = None).
Proof.
  intros fuel w table request Hfuel Hlen.
  destruct (POST_outcome fuel w table request Hfuel Hlen)
    as [[Hv [msg HP]]|(content & filename & Hv & [(i & chunk & e & Hi & Hrej & HP)|(embs & HF & HP)])].
  - eexists _, _. split; [exact HP|]. cbn [status body]. split; [lia|].
    intros (c & f & Hv' & _). congruence.
  - eexists _, _. split; [exact HP|]. cbn [status body]. split; [lia|].
    intros (c & f & Hv' & Hall & _). rewrite Hv in Hv'. injection Hv' as <- <-.
    destruct (Hall i chunk Hi) as [v Hemb]. destruct (embeds_not_rejects _ _ _ _ _ _ Hemb Hrej).
  - destruct (insert_error w) as [msg|] eqn:Hins.
    + eexists _, _. split; [exact HP|]. cbn [status body]. split; [lia|].
      intros (c & f & _ & _ & Hnone). done.
    + eexists _, _. split; [exact HP|]. cbn [status body]. split; [|done]. intros _.
      exists content, filename. split; [done|]. split; [|done].
      intros i chunk Hi.
      assert (Hic : imap (fun i c => (i, c)) (upload_chunks content) !! i = Some (i, chunk))
        by (by rewrite list_lookup_imap, Hi).
      destruct (Forall2_lookup_l _ _ _ _ _ HF Hic) as (e & _ & _ & _ & Hemb).
      by exists (embedding e).
Qed.

(** X10. The rows added by a JSON upload answered 200 follow the chunks of
    the content in order: row [i] holds the at most 500 code units from
    position [450 * i] on, has [chunk_index] [i], and carries the vector
    that [generateEmbedding] returned for that very text at position
    [i]. *)
Theorem POST_rows_in_order :
  forall (fuel : nat) (w : World number) (table : list (NewRow number))
         (request : UploadRequest),
    (3 <= fuel)%nat ->
    (from_option length 0%nat (req_content request) <= fuel)%nat ->
    exists response table',
      POST fuel w table request = Some (response, table')
      /\ (status response = 200 ->
          exists content rows,
            req_content request = Some content
            /\ table' = table ++ rows
            /\ length rows = length (upload_chunks content)
            /\ forall (i : nat) row,
                 rows !! i = Some row ->
                 Upload.content row = take 500 (drop (i * 450) content)
                 /\ chunk_index (metadata row) = Z.of_nat i
                 /\ embeds fuel w i (Chunking.mkChunk (Upload.content row) (Z.of_nat i))
                      (row_embedding row)).
Proof.
  intros fuel w table request Hfuel Hlen.
  destruct (POST_outcome fuel w table request Hfuel Hlen)
    as [[Hv [msg HP]]|(content & filename & Hv & [(i & chunk & e & Hi & Hrej & HP)|(embs & HF & HP)])].
  - eexists _, _. split; [exact HP|]. cbn [status body]. lia.
  - eexists _, _. split; [exact HP|]. cbn [status body]. lia.
  - destruct (insert_error w) as [msg|]; (eexists _, _; split; [exact HP|]); cbn [status body]; [lia|].
    intros _. destruct (validated_Some _ _ _ Hv) as (Hc & _ & _).
    exists content, (map (to_row filename (upload_chunks content)) embs).
    split; [done|]. split; [done|].
    pose proof (Forall2_length _ _ _ HF) as Hl. rewrite length_imap in Hl.
    split; [by rewrite length_map|].
    intros i row Hrow. rewrite list_lookup_fmap in Hrow.
    destruct (embs !! i) as [e|] eqn:He; [|done]. injection Hrow as <-.
    destruct (Forall2_lookup_r _ _ _ _ _ HF He) as ([i' c] & Hic & Ht & Hx & Hemb).
    apply list_lookup_imap_Some in Hic as (c' & Hc' & [= -> ->]). cbn in *.
    apply chunks_of_lookup in Hc' as [_ ->]. unfold chunk_at in *. cbn in *.
    rewrite Ht, Hx. by repeat split.
Qed.

(** X11. A JSON upload answered 200 reports as [chunks_created] the number
    of chunks of its content, [ceil (length / 450)], which lies between 1
    and 112. *)
Theorem POST_chunks_created :
  forall (fuel : nat) (w : World number) (table : list (NewRow number))
         (request : UploadRequest),
    (3 <= fuel)%nat ->
    (from_option length 0%nat (req_content request) <= fuel)%nat ->
    exists response table',
      POST fuel w table request = Some (response, table')
      /\ (status response = 200 ->
          exists content n,
            req_content request = Some content
            /\ body response = Created n
            /\ n = (strlen content + 449) / 450
            /\ 1 <= n <= 112).
Proof.
  intros fuel w table request Hfuel Hlen.
  destruct (POST_outcome fuel w table request Hfuel Hlen)
    as [[Hv [msg HP]]|(content & filename & Hv & [(i & chunk & e & Hi & Hrej & HP)|(embs & HF & HP)])].
  - eexists _, _. split; [exact HP|]. cbn [status body]. lia.
  - eexists _, _. split; [exact HP|]. cbn [status body]. lia.
  - destruct (insert_error w) as [msg|]; (eexists _, _; split; [exact HP|]); cbn [status body]; [lia|].
    intros _. destruct (validated_Some _ _ _ Hv) as (Hc & _ & Hpos & Hmax).
    exists content, (Z.of_nat (length embs)). split; [done|]. split; [done|].
    pose proof (Forall2_length _ _ _ HF) as Hl. rewrite length_imap in Hl.
    rewrite <- Hl. unfold upload_chunks. rewrite chunks_of_length.
    unfold strlen in *.
    pose proof (ceil_div_bounds (length content) 450 ltac:(lia) ltac:(lia)) as B.
    set (n := ceil_div (length content) 450) in *.
    assert (1 <= n)%nat by (destruct n; [cbn in B; lia | lia]).
    split; [|lia].
    apply (Z.div_unique_pos _ _ _ (Z.of_nat (length content) + 449 - Z.of_nat n * 450)); lia.
Qed.

(** The failures of [Upload.POST]. *)
Lemma POST_failure_cases fuel (w : World number) (table : list (NewRow number))
    (request : UploadRequest) :
  (3 <= fuel)%nat ->
  (from_option length 0%nat (req_content request) <= fuel)%nat ->
  exists response table',
    POST fuel w table request = Some (response, table')
    /\ (status response = 500 ->
        table' = table
        /\ exists content msg,
             req_content request = Some content
             /\ body response = Failure msg
             /\ (insert_error w = Some msg
                 \/ exists i chunk e,
                      upload_chunks content !! i = Some chunk
                      /\ rejects fuel w i chunk e
                      /\ msg = message e)).
Proof.
  intros Hfuel Hlen.
  destruct (POST_outcome fuel w table request Hfuel Hlen)
    as [[Hv [msg HP]]|(content & filename & Hv & [(i & chunk & e & Hi & Hrej & HP)|(embs & HF & HP)])].
  - eexists _, _. split; [exact HP|]. cbn [status body]. lia.
  - eexists _, _. split; [exact HP|]. cbn [status body]. intros _. split; [done|].
    destruct (validated_Some _ _ _ Hv) as (Hc & _ & _).
    exists content, (message e). split; [done|]. split; [done|]. right.
    by exists i, chunk, e.
  - destruct (insert_error w) as [msg|] eqn:Hins;
      (eexists _, _; split; [exact HP|]); cbn [status body]; [|lia].
    intros _. split; [done|]. destruct (validated_Some _ _ _ Hv) as (Hc & _ & _).
    exists content, msg. split; [done|]. split; [done|]. by left.
Qed.

(** X12. A JSON upload is always answered, and an answer 500 leaves the
    table as it was and carries the message of one of four errors: the one
    with which [req.json()] was rejected (the body is not JSON); the
    [TypeError] of reading [content] from [null] (the body is the JSON
    text [null]); the error that the insert reported; or the error that
    [generateEmbedding] threw for one of the chunks. *)
Theorem POST_failure_message :
  forall (fuel : nat) (w : World number) (table : list (NewRow number))
         (json : completion UploadJson.Parsed),
    (3 <= fuel)%nat ->
    (from_option length 0%nat (fields json ≫= req_content) <= fuel)%nat ->
    exists response table',
      UploadJson.POST fuel w table json = Some (response, table')
      /\ (status response = 500 ->
          table' = table
          /\ exists msg,
               body response = Failure msg
               /\ ((exists e, json = Throw e /\ msg = message e)
                   \/ (json = Return UploadJson.Null
                       /\ msg = message UploadJson.null_body)
                   \/ (exists request content,
                         json = Return (UploadJson.Fields request)
                         /\ req_content request = Some content
                         /\ (insert_error w = Some msg
                             \/ exists i chunk e,
                                  upload_chunks content !! i = Some chunk
                                  /\ rejects fuel w i chunk e
                                  /\ msg = message e))))
      /\ (fields json = None -> status response = 500).
Proof.
  intros fuel w table [[|request]|e] Hfuel Hlen; cbn [UploadJson.POST].
  - eexists _, _. split; [reflexivity|]. cbn [status body]. split; [|done].
    intros _. split; [done|]. eexists. split; [reflexivity|]. right. left. done.
  - cbn in Hlen.
    destruct (POST_failure_cases fuel w table request Hfuel Hlen)
      as (response & table' & HP & H).
    exists response, table'. split; [exact HP|]. split; [|done].
    intros H500. destruct (H H500) as (-> & content & msg & Hc & Hb & Hmsg).
    split; [done|]. exists msg. split; [exact Hb|]. right. right.
    by exists request, content.
  - eexists _, _. split; [reflexivity|]. cbn [status body]. split; [|done].
    intros _. split; [done|]. eexists. split; [reflexivity|]. left. by exists e.
Qed.

End UploadMore.

(* ===================================================================== *)
(** * Facts about the string functions                                    *)
(* ===================================================================== *)

Section TextFacts.
Import JS Text.

Lemma startsWith_nil (s : jsstring) : startsWith s [] = true.
Proof. by destruct s. Qed.

Lemma startsWith_prefix (s p : jsstring) :
  startsWith s p = true <-> exists rest, s = p ++ rest.
Proof.
  revert s. induction p as [|x p IH]; intros s.
  - rewrite startsWith_nil. split; [by exists s | done].
  - destruct s as [|y s]; cbn; [split; [done | by intros [? ?]]|].
    rewrite andb_true_iff, Z.eqb_eq, IH. split.
    + intros [-> [rest ->]]. by exists rest.
    + intros [rest [= -> ->]]. split; [done | by exists rest].
Qed.

(** If [p] starts a text in which a code unit foreign to [p] comes after
    [x], then [p] starts [x]. *)
Lemma startsWith_before (p x y : jsstring) (c : Z) :
  ~ In c p -> startsWith (x ++ c :: y) p = true -> startsWith x p = true.
Proof.
  revert x. induction p as [|a p IH]; intros x Hc; [intros _; apply startsWith_nil|].
  destruct x as [|b x]; cbn.
  - rewrite andb_true_iff, Z.eqb_eq. intros [-> _]. destruct Hc. by left.
  - rewrite !andb_true_iff. intros [-> H]. split; [done|].
    apply IH; [|done]. intros Hin. apply Hc. by right.
Qed.

Lemma startsWith_app (x y p : jsstring) :
  startsWith x p = true -> startsWith (x ++ y) p = true.
Proof.
  rewrite !startsWith_prefix. intros [rest ->]. exists (rest ++ y). by rewrite app_assoc.
Qed.

(** [indexOf_from] gives the first position at which [p] occurs, or [-1]
    when there is none. *)
Lemma indexOf_from_spec (p : jsstring) :
  forall (s : jsstring) (from : Z),
    0 <= from ->
    (indexOf_from from s p = -1
     /\ forall k, (k <= length s)%nat -> startsWith (drop k s) p = false)
    \/ (exists k,
          (k <= length s)%nat
          /\ indexOf_from from s p = from + Z.of_nat k
          /\ startsWith (drop k s) p = true
          /\ forall j, (j < k)%nat -> startsWith (drop j s) p = false).
Proof.
  induction s as [|c s IH]; intros from Hfrom; cbn [indexOf_from].
  - destruct (startsWith [] p) eqn:E.
    + right. exists 0%nat. cbn. repeat split; [lia | lia | done | lia].
    + left. split; [done|]. intros k Hk. by destruct k.
  - destruct (startsWith (c :: s) p) eqn:E.
    + right. exists 0%nat. cbn. repeat split; [lia | lia | done | lia].
    + destruct (IH (from + 1) ltac:(lia)) as [(H1 & H2)|(k & Hk & H1 & H2 & H3)].
      * left. split; [done|]. intros [|k] Hk; [done|]. cbn in *. apply H2. lia.
      * right. exists (S k). cbn [length drop]. repeat split; [lia | lia | done |].
        intros [|j] Hj; [done|]. cbn. apply H3. lia.
Qed.

Lemma indexOf_spec (s p : jsstring) :
  (indexOf s p = -1
   /\ forall k, (k <= length s)%nat -> startsWith (drop k s) p = false)
  \/ (exists k,
        (k <= length s)%nat
        /\ indexOf s p = Z.of_nat k
        /\ startsWith (drop k s) p = true
        /\ forall j, (j < k)%nat -> startsWith (drop j s) p = false).
Proof.
  unfold indexOf. destruct (indexOf_from_spec p s 0 ltac:(lia)) as [H|(k & H)]; [by left|].
  right. exists k. by rewrite Z.add_0_l in H.
Qed.

(** The first occurrence, characterised. *)
Lemma indexOf_first (s p : jsstring) (k : nat) :
  (k <= length s)%nat ->
  startsWith (drop k s) p = true ->
  (forall j, (j < k)%nat -> startsWith (drop j s) p = false) ->
  indexOf s p = Z.of_nat k.
Proof.
  intros Hk Hat Hbefore.
  destruct (indexOf_spec s p) as [[_ Hno]|(k' & Hk' & -> & Hat' & Hbefore')].
  - rewrite Hno in Hat; done.
  - f_equal. destruct (Nat.lt_trichotomy k k') as [H|[H|H]]; [|done|].
    + rewrite (Hbefore' k H) in Hat. done.
    + rewrite (Hbefore k' H) in Hat'. done.
Qed.

Lemma indexOf_none (s p : jsstring) :
  (forall k, (k <= length s)%nat -> startsWith (drop k s) p = false) ->
  indexOf s p = -1.
Proof.
  intros Hno. destruct (indexOf_spec s p) as [[H _]|(k & Hk & _ & Hat & _)]; [done|].
  rewrite (Hno k Hk) in Hat. done.
Qed.

(** ** [trim] *)

Lemma trimStart_cases (s : jsstring) :
  trimStart s = [] \/ exists c rest, trimStart s = c :: rest /\ is_space c = false.
Proof.
  induction s as [|c s IH]; cbn; [by left|].
  destruct (is_space c) eqn:E; [done|]. right. by exists c, s.
Qed.

Lemma trimStart_fixed (c : Z) (s : jsstring) :
  is_space c = false -> trimStart (c :: s) = c :: s.
Proof. intros H. cbn. by rewrite H. Qed.

Lemma trimStart_suffix (s : jsstring) : exists spaces, s = spaces ++ trimStart s.
Proof.
  induction s as [|c s [spaces IH]]; cbn; [by exists []|].
  destruct (is_space c); [|by exists []]. exists (c :: spaces). cbn. by f_equal.
Qed.

(** A space at the end does not change what [trim] gives. *)
Lemma trimStart_snoc_space (s : jsstring) (c : Z) :
  is_space c = true ->
  trimStart (s ++ [c]) = match trimStart s with [] => [] | _ => trimStart s ++ [c] end.
Proof.
  intros Hc. induction s as [|d s IH]; cbn; [by rewrite Hc|].
  destruct (is_space d); [done|]. done.
Qed.

Lemma trimEnd_snoc_space (s : jsstring) (c : Z) :
  is_space c = true -> trimEnd (s ++ [c]) = trimEnd s.
Proof. intros Hc. unfold trimEnd. rewrite rev_app_distr. cbn. by rewrite Hc. Qed.

Lemma trim_snoc_space (s : jsstring) (c : Z) :
  is_space c = true -> trim (s ++ [c]) = trim s.
Proof.
  intros Hc. unfold trim. rewrite trimStart_snoc_space by done.
  destruct (trimStart s) eqn:E; [done|]. by rewrite trimEnd_snoc_space.
Qed.

(** What [trim] gives is empty or begins and ends with a code unit that is
    not a space; [trim] leaves it as it is. *)
Lemma trimEnd_cases (s : jsstring) :
  trimEnd s = [] \/ exists rest c, trimEnd s = rest ++ [c] /\ is_space c = false.
Proof.
  unfold trimEnd. destruct (trimStart_cases (rev s)) as [->|(c & rest & -> & Hc)]; [by left|].
  right. exists (rev rest), c. by cbn.
Qed.

Lemma trimEnd_fixed (s : jsstring) (c : Z) :
  is_space c = false -> trimEnd (s ++ [c]) = s ++ [c].
Proof.
  intros Hc. unfold trimEnd. rewrite rev_app_distr. cbn. rewrite Hc. cbn.
  by rewrite rev_involutive.
Qed.

Lemma trimEnd_prefix (s : jsstring) : exists spaces, s = trimEnd s ++ spaces.
Proof.
  unfold trimEnd. destruct (trimStart_suffix (rev s)) as [spaces H].
  exists (rev spaces). rewrite <- rev_app_distr, <- H. by rewrite rev_involutive.
Qed.

Lemma trim_idempotent (s : jsstring) : trim (trim s) = trim s.
Proof.
  unfold trim at 2 3. set (u := trimStart s).
  destruct (trimEnd_cases u) as [E|(rest & c & E & Hc)]; rewrite E; [done|].
  assert (Hhead : trimStart (rest ++ [c]) = rest ++ [c]).
  { destruct (trimEnd_prefix u) as [spaces Hu]. rewrite E in Hu.
    destruct (trimStart_cases s) as [Hs|(d & r & Hs & Hd)]; fold u in Hs.
    - rewrite Hs in Hu. by destruct rest.
    - rewrite Hs in Hu. destruct rest as [|b rest]; cbn in *.
      + by rewrite Hc.
      + injection Hu as <- _. by rewrite Hd. }
  unfold trim. rewrite Hhead. by apply trimEnd_fixed.
Qed.

(** ** [slice] and [startsWith] *)

Lemma slice_between (s : jsstring) (a b : nat) :
  (a <= b <= length s)%nat ->
  slice s (Z.of_nat a) (Z.of_nat b) = take (b - a) (drop a s).
Proof.
  intros H. unfold slice, clamp_index, strlen.
  destruct (Z.ltb_spec (Z.of_nat a) 0); [lia|].
  destruct (Z.ltb_spec (Z.of_nat b) 0); [lia|].
  rewrite !Z.min_l by lia. rewrite Nat2Z.id. f_equal. lia.
Qed.

Lemma startsWith_length (x p : jsstring) :
  startsWith x p = true -> (length p <= length x)%nat.
Proof. rewrite startsWith_prefix. intros [rest ->]. rewrite length_app. lia. Qed.

Lemma startsWith_long (x y p : jsstring) :
  (length p <= length x)%nat -> startsWith (x ++ y) p = startsWith x p.
Proof.
  revert x. induction p as [|a p IH]; intros x H; [by rewrite !startsWith_nil|].
  destruct x as [|b x]; cbn in *; [lia|]. f_equal. apply IH. lia.
Qed.

End TextFacts.

(* ===================================================================== *)
(** * The reply as the chat page reads it                                 *)
(* ===================================================================== *)

Section ChatProperties.
Import JS Text Platform Chat.
Context {number : Type} (zero : number) (number_to_json : number -> jsstring).
Context {Source : Type} (JSON_parse : jsstring -> completion (list Source)).

Lemma marker_length : length SOURCE_MARKER = 11%nat.
Proof. reflexivity. Qed.

Lemma marker_no_newline : ~ In 10 SOURCE_MARKER.
Proof. vm_compute. intuition discriminate. Qed.

(** Where the marker is found when the text before it holds none. *)
Lemma indexOf_after_answer (answer rest : jsstring) :
  indexOf answer SOURCE_MARKER = -1 ->
  indexOf (answer ++ 10 :: SOURCE_MARKER ++ rest) SOURCE_MARKER
  = Z.of_nat (S (length answer)).
Proof.
  intros Hnone.
  destruct (indexOf_spec answer SOURCE_MARKER) as [[_ Hno]|(k & _ & E & _)]; [|lia].
  apply indexOf_first.
  - rewrite length_app. cbn. lia.
  - replace (S (length answer)) with (length (answer ++ [10])) by (rewrite length_app; cbn; lia).
    replace (answer ++ 10 :: SOURCE_MARKER ++ rest)
      with ((answer ++ [10]) ++ SOURCE_MARKER ++ rest) by (by rewrite <- app_assoc).
    rewrite drop_app_length. apply startsWith_prefix. by exists rest.
  - intros j Hj. rewrite drop_app_le by lia.
    destruct (startsWith (drop j answer ++ 10 :: SOURCE_MARKER ++ rest) SOURCE_MARKER) eqn:E;
      [|done].
    apply startsWith_before in E; [|apply marker_no_newline].
    rewrite Hno in E; [done | lia].
Qed.

(** What the page does with a text in which the first marker is at [k]. *)
Lemma read_reply_at (fullText : jsstring) (k : nat) :
  indexOf fullText SOURCE_MARKER = Z.of_nat k ->
  (k + 11 <= length fullText)%nat ->
  read_reply JSON_parse fullText
  = parsed_reply (trim (take k fullText))
      (JSON_parse (let json := drop (k + 11) fullText in
                   if truthy json then json else lit "[]")).
Proof.
  intros Hk Hlen. unfold read_reply. rewrite Hk.
  destruct (Z.eqb_spec (Z.of_nat k) (-1)); [lia|]. cbn [negb].
  change 0 with (Z.of_nat 0).
  rewrite (slice_between fullText 0 k) by lia.
  unfold strlen. rewrite marker_length, <- Nat2Z.inj_add.
  rewrite (slice_between fullText (k + 11) (length fullText)) by lia.
  rewrite drop_0, Nat.sub_0_r.
  rewrite (take_ge (drop (k + 11) fullText)) by (rewrite length_drop; lia).
  cbv zeta. unfold parsed_reply. by destruct (JSON_parse _).
Qed.

(** A raw newline followed by an underscore stops the scan of a JSON
    text, wherever it stands. *)
Lemma scan_newline_underscore (a rest : jsstring) :
  forall p, scan p (a ++ 10 :: 95 :: rest) = None.
Proof.
  induction a as [|c a IH]; intros p.
  - by destruct p.
  - cbn [app scan]. destruct (step p c); [apply IH | done].
Qed.

(** X13. Round trip with the answering handler.  When the text of the
    answer holds no marker, the chat page, reading that text followed by a
    newline, the marker and a JSON text, hands exactly that JSON text to
    [JSON.parse] (the text of an empty array when there is none); with the
    handler's trailer, that is the JSON of the matches.  When [JSON.parse]
    returns, the message holds the answer trimmed and the parsed sources;
    when it throws, the message holds the message of the error and no
    sources. *)
Theorem read_reply_roundtrip :
  forall (answer : jsstring),
    indexOf answer SOURCE_MARKER = -1 ->
    (forall json,
       read_reply JSON_parse (answer ++ [10] ++ SOURCE_MARKER ++ json)
       = parsed_reply (trim answer)
           (JSON_parse (if truthy json then json else lit "[]")))
    /\ (forall matches : list (Rag.RetrievedDocument number),
          let json := stringify number_to_json (Rag.sourcesPayload zero matches) in
          read_reply JSON_parse (answer ++ trailer zero number_to_json matches)
          = parsed_reply (trim answer) (JSON_parse json)
          /\ (forall parsedSources,
                JSON_parse json = Return parsedSources ->
                read_reply JSON_parse (answer ++ trailer zero number_to_json matches)
                = mkMessage (trim answer) parsedSources)
          /\ (forall err,
                JSON_parse json = Throw err ->
                read_reply JSON_parse (answer ++ trailer zero number_to_json matches)
                = mkMessage (message err) [])).
Proof.
  intros answer Hnone.
  assert (H : forall json,
             read_reply JSON_parse (answer ++ [10] ++ SOURCE_MARKER ++ json)
             = parsed_reply (trim answer)
                 (JSON_parse (if truthy json then json else lit "[]"))).
  { intros json. cbn [app].
    set (full := answer ++ 10 :: SOURCE_MARKER ++ json).
    assert (Hlen : length full = (S (length answer) + 11 + length json)%nat).
    { subst full. rewrite length_app. cbn [length]. rewrite length_app, marker_length. lia. }
    rewrite (read_reply_at full (S (length answer)));
      [|by apply indexOf_after_answer | lia].
    f_equal.
    - subst full.
      replace (answer ++ 10 :: SOURCE_MARKER ++ json)
        with ((answer ++ [10]) ++ SOURCE_MARKER ++ json) by (by rewrite <- app_assoc).
      replace (S (length answer)) with (length (answer ++ [10]))
        by (rewrite length_app; cbn; lia).
      rewrite take_app_length. by apply trim_snoc_space.
    - assert (Hjson : drop (S (length answer) + 11) full = json).
      { subst full.
        replace (answer ++ 10 :: SOURCE_MARKER ++ json)
          with ((answer ++ [10] ++ SOURCE_MARKER) ++ json)
          by (by rewrite <- !app_assoc).
        replace (S (length answer) + 11)%nat
          with (length (answer ++ [10] ++ SOURCE_MARKER))
          by (rewrite !length_app, marker_length; cbn; lia).
        by rewrite drop_app_length. }
      cbv zeta. by rewrite Hjson. }
  split; [exact H|].
  intros matches json.
  assert (Hm : read_reply JSON_parse (answer ++ trailer zero number_to_json matches)
               = parsed_reply (trim answer) (JSON_parse json)).
  { unfold trailer. change Rag.nl with [10].
    change Rag.SOURCE_MARKER with SOURCE_MARKER. rewrite H. by cbn. }
  split; [exact Hm|]. rewrite Hm.
  split; [by intros parsedSources -> | by intros err ->].
Qed.

(** X14. A marker in the text of the answer loses the answer.  The page
    cuts at the first marker it finds, at position [k] of the answer, and
    hands to [JSON.parse] everything after it: the rest of the answer, the
    newline and the marker of the trailer, and the JSON.  A raw newline
    followed by an underscore is not JSON, so [JSON.parse] throws, and the
    message ends up with the message of that error and no sources. *)
Theorem read_reply_marker_in_answer :
  lexical JSON_parse ->
  forall (answer json : jsstring) (k : nat),
    indexOf answer SOURCE_MARKER = Z.of_nat k ->
    let fullText := answer ++ [10] ++ SOURCE_MARKER ++ json in
    indexOf fullText SOURCE_MARKER = Z.of_nat k
    /\ drop (k + 11) fullText = drop (k + 11) answer ++ [10] ++ SOURCE_MARKER ++ json
    /\ exists err,
         JSON_parse (drop (k + 11) fullText) = Throw err
         /\ read_reply JSON_parse fullText = mkMessage (message err) [].
Proof.
  intros Hlex answer json k Hk fullText.
  destruct (indexOf_spec answer SOURCE_MARKER) as [[E _]|(k' & Hk' & E & Hat & Hbefore)];
    [lia|].
  assert (k' = k) as -> by lia.
  pose proof (startsWith_length _ _ Hat) as Hroom.
  rewrite length_drop, marker_length in Hroom.
  assert (Hfound : indexOf fullText SOURCE_MARKER = Z.of_nat k).
  { apply indexOf_first.
    - subst fullText. rewrite length_app. lia.
    - subst fullText. rewrite drop_app_le by lia. by apply startsWith_app.
    - intros j Hj. subst fullText. rewrite drop_app_le by lia.
      rewrite startsWith_long by (rewrite length_drop, marker_length; lia).
      by apply Hbefore. }
  assert (Hrest : drop (k + 11) fullText
                  = drop (k + 11) answer ++ [10] ++ SOURCE_MARKER ++ json).
  { subst fullText. by rewrite drop_app_le by lia. }
  split; [exact Hfound|]. split; [exact Hrest|].
  assert (Hlen : (k + 11 <= length fullText)%nat)
    by (subst fullText; rewrite length_app; lia).
  rewrite (read_reply_at fullText k Hfound Hlen). cbv zeta.
  assert (Ht : truthy (drop (k + 11) fullText) = true).
  { rewrite Hrest. by destruct (drop (k + 11) answer). }
  rewrite Ht.
  destruct (JSON_parse (drop (k + 11) fullText)) as [parsedSources|err] eqn:Hparse.
  - apply Hlex in Hparse. rewrite Hrest in Hparse. unfold scans in Hparse.
    change ([10] ++ SOURCE_MARKER ++ json)
      with (10 :: 95 :: drop 1 SOURCE_MARKER ++ json) in Hparse.
    by rewrite scan_newline_underscore in Hparse.
  - by exists err.
Qed.

(** X15. While the body is being read the page never shows the marker or
    anything after it: the visible text is a prefix of the text received
    that holds no marker. *)
Theorem visibleText_hides_marker :
  forall fullText : jsstring,
    indexOf (visibleText fullText) SOURCE_MARKER = -1
    /\ visibleText fullText `prefix_of` fullText.
Proof.
  intros fullText. unfold visibleText.
  destruct (indexOf_spec fullText SOURCE_MARKER)
    as [[E _]|(k & Hk & E & Hat & Hbefore)]; rewrite E.
  - cbn. split; [exact E | done].
  - destruct (Z.eqb_spec (Z.of_nat k) (-1)); [lia|].
    change 0 with (Z.of_nat 0). rewrite (slice_between fullText 0 k) by lia.
    rewrite drop_0, Nat.sub_0_r. split; [|apply prefix_take].
    apply indexOf_none. intros j Hj. rewrite length_take in Hj.
    destruct (startsWith (drop j (take k fullText)) SOURCE_MARKER) eqn:Hs; [|done].
    pose proof (startsWith_length _ _ Hs) as Hroom.
    rewrite length_drop, length_take, marker_length in Hroom.
    assert (Hj' : (j < k)%nat) by lia.
    rewrite <- (Hbefore j Hj'). symmetry.
    rewrite <- (take_drop k fullText) at 1.
    rewrite drop_app_le by (rewrite length_take; lia).
    by apply startsWith_app.
Qed.

End ChatProperties.

(* ===================================================================== *)
(** * Properties of the PDF upload                                        *)
(* ===================================================================== *)

Section UploadPdfProperties.
Import JS Text UploadPdf.
Context {number : Type}.

Lemma trim_nil_of_falsy (t : jsstring) : truthy t = false -> truthy (trim t) = false.
Proof. by destruct t. Qed.

Lemma try_extract_cases (file : File) :
  match try_extract file with
  | Return text =>
      exists t, extraction file = Return (Some (mkPdfData (Some t)))
                /\ text = trim t /\ truthy text = true
  | Throw e =>
      (extraction file = Throw e)
      \/ (exists data, extraction file = Return data /\ blank data = true /\ e = empty_pdf)
  end.
Proof.
  unfold try_extract, blank. destruct (extraction file) as [[[[t|]]|]|e]; cbn.
  - destruct (truthy t) eqn:Ht; cbn.
    + destruct (truthy (trim t)) eqn:Ht'; cbn.
      * exists t. by rewrite Ht'.
      * right. eexists. split; [done|]. cbn. by rewrite Ht'.
    + right. eexists. split; [done|]. cbn. by rewrite trim_nil_of_falsy.
  - right. eexists. by split.
  - right. eexists. by split.
  - by left.
Qed.

Lemma catch_extract_empty_pdf : catch_extract empty_pdf = empty_pdf.
Proof. vm_compute. reflexivity. Qed.

(** The answers of [ingest] are 200 or 500. *)
Lemma ingest_status fuel (w : Upload.World number) table content filename response table' :
  Upload.ingest fuel w table content filename = Some (response, table') ->
  Upload.status response = 200 \/ Upload.status response = 500.
Proof.
  unfold Upload.ingest.
  destruct (Chunking.chunkText fuel content None None) as [[chunks|e]|]; cbn; [| |done].
  - destruct (mapM _ _) as [results|]; cbn; [|done].
    destruct (Upload.Promise_all results); [|intros [= <- _]; by right].
    unfold Upload.insert. destruct (Upload.insert_error w); intros [= <- _]; cbn; auto.
  - intros [= <- _]. by right.
Qed.

Lemma extract_Return (file : File) (text : jsstring) :
  extractTextFromPDF file = Return text ->
  exists t, extraction file = Return (Some (mkPdfData (Some t)))
            /\ text = trim t /\ truthy text = true /\ trim text = text.
Proof.
  unfold extractTextFromPDF.
  pose proof (try_extract_cases file) as H.
  destruct (try_extract file) as [text'|e]; [|done].
  intros [= <-]. destruct H as (t & Hx & -> & Ht).
  exists t. repeat split; try done. apply trim_idempotent.
Qed.

(** X16. When [extractTextFromPDF] returns, it returns the text that the
    library extracted with the white space at both ends removed; that text
    is not empty, and trimming it again changes nothing. *)
Theorem extractTextFromPDF_trimmed :
  forall (file : File) (text : jsstring),
    extractTextFromPDF file = Return text ->
    (exists t, extraction file = Return (Some (mkPdfData (Some t))) /\ text = trim t)
    /\ truthy text = true
    /\ trim text = text.
Proof.
  intros file text H.
  destruct (extract_Return file text H) as (t & Hx & Ht & Htruthy & Htrim).
  split; [by exists t|]. by split.
Qed.

(** X17. A PDF from which the library extracts no data, no text, or nothing
    but white space is reported with the handler's own message: the error
    thrown inside the [try] passes through the [catch] as it is. *)
Theorem extractTextFromPDF_blank :
  forall (file : File) (data : option PdfData),
    extraction file = Return data ->
    blank data = true ->
    extractTextFromPDF file
    = Throw (Error (lit "PDF appears to be empty or contains no extractable text.")).
Proof.
  intros file data Hx Hb. unfold extractTextFromPDF.
  pose proof (try_extract_cases file) as H.
  destruct (try_extract file) as [text|e].
  - destruct H as (t & Hx' & -> & Ht). rewrite Hx in Hx'. injection Hx' as ->.
    unfold blank in Hb. cbn in Hb. by rewrite Ht in Hb.
  - destruct H as [H|(data' & _ & _ & ->)]; [congruence|].
    by rewrite catch_extract_empty_pdf.
Qed.

Lemma POST_checked fuel (w : Upload.World number) table file filenameParam :
  is_pdf_upload file filenameParam = true ->
  POST fuel w table (Some file) filenameParam
  = match extractTextFromPDF file with
    | Throw error =>
        Some (Upload.mkResponse 500 (Upload.Failure (message error)), table)
    | Return content =>
        Upload.ingest fuel w table content (upload_name file filenameParam)
    end.
Proof.
  unfold is_pdf_upload, POST. fold (upload_name file filenameParam).
  intros H. apply andb_prop in H as [H Hpdf]. apply andb_prop in H as [Hname Hsize].
  rewrite Hname. cbn [negb].
  change (10 * 1024 * 1024) with 10485760. rewrite Z.gtb_ltb, Z.ltb_antisym, Hsize. cbn [negb].
  rewrite Hpdf. cbn [negb].
  destruct (extractTextFromPDF file) as [content|e] eqn:E; [|done].
  destruct (extract_Return file content E) as (_ & _ & _ & Ht & Htrim).
  rewrite Ht, Htrim. cbn [negb orb].
  destruct content; [done|]. by unfold strlen.
Qed.

Lemma POST_unchecked fuel (w : Upload.World number) table file filenameParam :
  is_pdf_upload file filenameParam = false ->
  exists msg,
    In msg ["Invalid filename."; "File too large. Limit is 10MB.";
            "Only PDF files are supported via file upload. Use text paste for .txt files."]%string
    /\ POST fuel w table (Some file) filenameParam = Some (bad_request msg, table).
Proof.
  unfold is_pdf_upload, POST. fold (upload_name file filenameParam).
  change (10 * 1024 * 1024) with 10485760. rewrite Z.gtb_ltb, Z.ltb_antisym.
  destruct (truthy (upload_name file filenameParam)); cbn [negb andb];
    [|intros _; eexists; split; [|reflexivity]; cbn; auto].
  destruct (size file <=? 10485760); cbn [negb andb];
    [|intros _; eexists; split; [|reflexivity]; cbn; auto].
  intros ->. cbn [negb]. eexists; split; [|reflexivity]; cbn; auto.
Qed.

(** X18. A multipart upload is never answered with the 400 of the handler's
    own check for an empty PDF: [extractTextFromPDF] has thrown before that
    check can fail, so a PDF with no text that passes the earlier checks is
    answered 500, with the same message, and the table is left alone. *)
Theorem POST_blank_pdf :
  forall (fuel : nat) (w : Upload.World number) (table : list (Upload.NewRow number))
         (file : option File) (filenameParam : option jsstring),
    (forall response table',
       POST fuel w table file filenameParam = Some (response, table') ->
       response <> bad_request "PDF appears to be empty or contains no extractable text.")
    /\ (forall f data,
          file = Some f ->
          is_pdf_upload f filenameParam = true ->
          extraction f = Return data ->
          blank data = true ->
          POST fuel w table file filenameParam
          = Some (Upload.mkResponse 500
                    (Upload.Failure
                       (lit "PDF appears to be empty or contains no extractable text.")),
                  table)).
Proof.
  intros fuel w table file filenameParam. split.
  - intros response table' HP.
    destruct file as [f|]; [|cbn in HP; injection HP as <- _; intros [= H]; vm_compute in H; done].
    destruct (is_pdf_upload f filenameParam) eqn:Hc.
    + rewrite (POST_checked fuel w table f filenameParam Hc) in HP.
      destruct (extractTextFromPDF f) as [content|e].
      * apply ingest_status in HP. intros ->. cbn in HP. lia.
      * injection HP as <- _. intros [= H].
    + destruct (POST_unchecked fuel w table f filenameParam Hc) as (msg & Hmsg & HP').
      rewrite HP' in HP. injection HP as <- _.
      cbn in Hmsg. destruct Hmsg as [<-|[<-|[<-|[]]]]; intros [= H]; vm_compute in H; done.
  - intros f data -> Hc Hx Hb.
    rewrite (POST_checked fuel w table f filenameParam Hc).
    assert (E : extractTextFromPDF f = Throw empty_pdf).
    { unfold extractTextFromPDF. pose proof (try_extract_cases f) as H.
      destruct (try_extract f) as [text|e].
      - destruct H as (t & Hx' & -> & Ht). rewrite Hx in Hx'. injection Hx' as ->.
        unfold blank in Hb. cbn in Hb. by rewrite Ht in Hb.
      - destruct H as [H|(data' & _ & _ & ->)]; [congruence|].
        by rewrite catch_extract_empty_pdf. }
    by rewrite E.
Qed.

(** X19. A multipart upload that passes the checks (a non-empty file name,
    at most 10 MB, the PDF type or a name ending in [.pdf]) and whose PDF
    holds text is ingested like a JSON upload of the trimmed text under the
    file name of the upload, whatever the length of that text: the limit of
    50,000 code units of the JSON path is not applied. *)
Theorem POST_pdf_ingests :
  forall (fuel : nat) (w : Upload.World number) (table : list (Upload.NewRow number))
         (file : File) (filenameParam : option jsstring) (t : jsstring),
    is_pdf_upload file filenameParam = true ->
    extraction file = Return (Some (mkPdfData (Some t))) ->
    truthy (trim t) = true ->
    POST fuel w table (Some file) filenameParam
    = Upload.ingest fuel w table (trim t) (upload_name file filenameParam).
Proof.
  intros fuel w table file filenameParam t Hc Hx Ht.
  rewrite (POST_checked fuel w table file filenameParam Hc).
  assert (E : extractTextFromPDF file = Return (trim t)).
  { unfold extractTextFromPDF, try_extract. rewrite Hx. cbn. rewrite Ht.
    destruct (truthy t) eqn:Ht'; [done|]. by rewrite trim_nil_of_falsy in Ht. }
  by rewrite E.
Qed.

(** X20. A multipart upload with no file, with no usable file name, of more
    than 10 MB, or that is not a PDF by type or by name is answered 400 and
    nothing is stored, whatever the file holds. *)
Theorem POST_rejected_unopened :
  forall (fuel : nat) (w : Upload.World number) (table : list (Upload.NewRow number))
         (file : option File) (filenameParam : option jsstring),
    from_option (fun f => is_pdf_upload f filenameParam) false file = false ->
    exists msg,
      POST fuel w table file filenameParam
      = Some (Upload.mkResponse 400 (Upload.Failure msg), table).
Proof.
  intros fuel w table [f|] filenameParam Hc; cbn in Hc.
  - destruct (POST_unchecked fuel w table f filenameParam Hc) as (msg & _ & HP).
    by exists (lit msg).
  - by eexists.
Qed.

End UploadPdfProperties.

(* ===================================================================== *)
(** * More about answering                                                *)
(* ===================================================================== *)

Section RagMore.
Import JS Text Platform Rag.
Context {number : Type} (zero : number) (number_to_json : number -> jsstring).

(** With fuel for three iterations [generateEmbedding] returns after at
    most three calls to the service. *)
Lemma generateEmbedding_attempts (api : Embeddings.service number) (text : jsstring)
    (fuel : nat) :
  (3 <= fuel)%nat ->
  exists result trace,
    Embeddings.generateEmbedding fuel api text = Some (result, trace)
    /\ (Embeddings.attempts trace <= 3)%nat.
Proof.
  intros Hfuel. destruct fuel as [|[|[|fuel]]]; try lia.
  unfold Embeddings.generateEmbedding. cbn.
  destruct (Embeddings.try_create (api 0%nat)); [eexists _, _; split; [done|cbn; lia]|]. cbn.
  destruct (Embeddings.try_create (api 1%nat)); [eexists _, _; split; [done|cbn; lia]|]. cbn.
  destruct (Embeddings.try_create (api 2%nat)); eexists _, _; (split; [done|cbn; lia]).
Qed.

(** Three failed attempts: the third error is thrown after the full trace. *)
Lemma generateEmbedding_exhausted (api : Embeddings.service number) (text : jsstring)
    (fuel : nat) (e : exn) :
  (3 <= fuel)%nat ->
  failed api 0 -> failed api 1 -> Embeddings.try_create (api 2%nat) = Throw e ->
  Embeddings.generateEmbedding fuel api text = Some (Throw e, full_trace text).
Proof.
  intros Hfuel [e0 H0] [e1 H1] H2. destruct fuel as [|[|[|fuel]]]; try lia.
  unfold Embeddings.generateEmbedding. cbn. rewrite H0. cbn. rewrite H1. cbn. by rewrite H2.
Qed.

(** X21. Every request with fuel for the retry loop is answered, and the
    calls made are those of the embedding of the question (at most three to
    the service), then possibly the store query, then possibly the
    generation, in that order.  A request with no question, an empty
    question or no API key makes no call at all; a JSON answer never comes
    with a generation call and a streamed answer comes with exactly one. *)
Theorem POST_call_discipline :
  forall (fuel : nat) (w : World number) (request : RagRequest),
    (3 <= fuel)%nat ->
    exists calls response,
      POST zero number_to_json fuel w request = Some (calls, response)
      /\ (askable w request = false -> calls = [] /\ exists status msg, response = Json status msg)
      /\ (exists trace tail,
            calls = map (Embedding (number := number)) trace ++ tail
            /\ (Embeddings.attempts trace <= 3)%nat
            /\ call_tail tail)
      /\ generation_calls calls
         = match response with Streaming _ _ => 1%nat | Json _ _ => 0%nat end.
Proof.
  intros fuel w request Hfuel. unfold POST, askable.
  destruct (question request) as [q|]; cbn [from_option andb];
    [|eexists _, _; split; [done|]; split; [eauto|]; split;
       [exists [], []; cbn; split; [done|]; split; [lia | constructor] | done]].
  destruct (truthy q); cbn [negb andb];
    [|eexists _, _; split; [done|]; split; [eauto|]; split;
       [exists [], []; cbn; split; [done|]; split; [lia | constructor] | done]].
  destruct (from_option truthy false (ANTHROPIC_API_KEY w)); cbn [negb];
    [|eexists _, _; split; [done|]; split; [eauto|]; split;
       [exists [], []; cbn; split; [done|]; split; [lia | constructor] | done]].
  destruct (generateEmbedding_attempts (embeddings_create w) q fuel Hfuel)
    as (result & trace & -> & Hatt).
  cbn [mbind option_bind fst snd].
  destruct result as [v|e].
  2:{ eexists _, _. split; [done|]. split; [done|]. split.
      - exists trace, []. rewrite app_nil_r. split; [done|]. split; [done | constructor].
      - rewrite <- (app_nil_r (map _ trace)). by rewrite generation_calls_before. }
  destruct (rpc_error (match_documents w v)) as [msg|].
  { eexists _, _. split; [done|]. split; [done|]. split.
    - exists trace, [MatchDocuments v 0.7%Q 3]. split; [done|]. split; [done | constructor].
    - by rewrite generation_calls_before. }
  destruct (narrow (document_source request) (default [] (rpc_data (match_documents w v))))
    as [|m0 rest] eqn:Em.
  - cbn [length Nat.eqb]. eexists _, _. split; [done|]. split; [done|]. split.
    + exists trace, [MatchDocuments v 0.7%Q 3]. split; [done|]. split; [done | constructor].
    + by rewrite generation_calls_before.
  - cbn [length Nat.eqb]. eexists _, _. split; [done|]. split; [done|]. split.
    + eexists trace, _. rewrite <- app_assoc. split; [done|]. split; [done|]. cbn [app].
      constructor.
    + rewrite <- app_assoc. by rewrite generation_calls_before.
Qed.

(** X22. Failures before generation.  When the embedding service fails
    three times the answer is 500 with the message of the third error,
    after three calls and two waits and with no store query; when the store
    query reports an error the answer is 500 with the message of the store
    after a fixed prefix, and nothing is generated. *)
Theorem POST_failures_before_generation :
  forall (fuel : nat) (w : World number) (request : RagRequest) (q : jsstring),
    (3 <= fuel)%nat ->
    question request = Some q ->
    askable w request = true ->
    (forall e,
       failed (embeddings_create w) 0 -> failed (embeddings_create w) 1 ->
       Embeddings.try_create (embeddings_create w 2%nat) = Throw e ->
       POST zero number_to_json fuel w request
       = Some (map (Embedding (number := number)) (full_trace q), Json 500 (message e)))
    /\ (forall v trace msg,
          Embeddings.generateEmbedding fuel (embeddings_create w) q = Some (Return v, trace) ->
          rpc_error (match_documents w v) = Some msg ->
          POST zero number_to_json fuel w request
          = Some (map (Embedding (number := number)) trace ++ [MatchDocuments v 0.7%Q 3],
                  Json 500 (lit "Supabase match_documents failed: " ++ msg))).
Proof.
  intros fuel w request q Hfuel Hq Hask. unfold askable in Hask. rewrite Hq in Hask.
  cbn in Hask. apply andb_prop in Hask as [Ht Hk]. split.
  - intros e H0 H1 H2. unfold POST. rewrite Hq, Ht, Hk. cbn [negb].
    by rewrite (generateEmbedding_exhausted _ q fuel e Hfuel H0 H1 H2).
  - intros v trace msg He Hr. unfold POST. rewrite Hq, Ht, Hk. cbn [negb].
    rewrite He. cbn [mbind option_bind fst snd]. by rewrite Hr.
Qed.

Lemma includes_intro (a p c : jsstring) : includes (a ++ p ++ c) p = true.
Proof.
  unfold includes.
  destruct (indexOf_spec (a ++ p ++ c) p) as [[_ Hno]|(k & _ & -> & _)].
  - specialize (Hno (length a)). rewrite drop_app_length in Hno.
    rewrite length_app in Hno. specialize (Hno ltac:(lia)).
    assert (H : startsWith (p ++ c) p = true) by (apply startsWith_prefix; by exists c).
    congruence.
  - by destruct (Z.eqb_spec (Z.of_nat k) (-1)); [lia|].
Qed.

Lemma build_context_block (matches : list (RetrievedDocument number))
    (m : RetrievedDocument number) :
  In m matches ->
  exists a c, build_context matches = a ++ (content m ++ nl ++ lit "---") ++ c.
Proof.
  unfold build_context. induction matches as [|m0 rest IH]; [done|].
  intros [->|Hin].
  - destruct rest as [|m1 rest]; cbn [map join].
    + exists [], []. by rewrite app_nil_r.
    + exists [], (nl ++ join nl (map (fun doc => content doc ++ nl ++ lit "---") (m1 :: rest))).
      reflexivity.
  - destruct (IH Hin) as (a & c & E). destruct rest as [|m1 rest]; [done|].
    cbn [map join] in *. rewrite E.
    exists ((content m0 ++ nl ++ lit "---") ++ nl ++ a), c.
    by rewrite <- !app_assoc.
Qed.

(** X24. What is cited is what the model was given.  The payload lists, in
    the order of the matches, objects whose [content] is the content of the
    match, and the prompt holds the content of every match, each followed
    by a newline and the delimiter [---]. *)
Theorem citations_are_context :
  forall (matches : list (RetrievedDocument number)) (q : jsstring),
    cited_contents (sourcesPayload zero matches)
    = map (fun m => Some (JString (content m))) matches
    /\ forall m, In m matches ->
         includes (contextPrompt matches q) (content m ++ nl ++ lit "---") = true.
Proof.
  intros matches q. split.
  - unfold cited_contents, sourcesPayload. rewrite map_map. apply map_ext.
    intros m. reflexivity.
  - intros m Hin. destruct (build_context_block matches m Hin) as (a & c & E).
    unfold contextPrompt. rewrite E.
    replace (lit "Context from documents:" ++ nl ++ nl
             ++ (a ++ (content m ++ nl ++ lit "---") ++ c) ++ nl
             ++ lit "Question: " ++ q ++ nl ++ nl
             ++ lit "Answer based ONLY on the context above. Be specific and cite which information came from which part of the context.")
      with ((lit "Context from documents:" ++ nl ++ nl ++ a)
            ++ (content m ++ nl ++ lit "---")
            ++ (c ++ nl ++ lit "Question: " ++ q ++ nl ++ nl
                ++ lit "Answer based ONLY on the context above. Be specific and cite which information came from which part of the context."))
      by (by rewrite <- !app_assoc).
    apply includes_intro.
Qed.

End RagMore.

(* ===================================================================== *)
(** * The body of a completed answer, while it is read                    *)
(* ===================================================================== *)

Section DeliveryProperties.
Import JS Platform Rag.
Context {number : Type} (number_to_json : number -> jsstring).

(** A closed stream hands out what is left in its queue and then reports
    its end. *)
Lemma run_closed (payload : json number) (schedule : list Delivery.turn) :
  forall queue log,
    Delivery.run number_to_json payload schedule
      (Delivery.mkBody None (mkController queue Closed) false) log
    = (Delivery.mkBody None (mkController (drop (reads schedule) queue) Closed) false,
       log ++ map Value (take (reads schedule) queue)
       ++ repeat Done (reads schedule - length queue)).
Proof.
  induction schedule as [|[|] schedule IH]; intros queue log.
  - cbn. by rewrite drop_0, take_0, app_nil_r.
  - cbn [Delivery.run reads]. apply IH.
  - cbn [Delivery.run reads]. unfold Delivery.consume, Delivery.attempt, read.
    cbn [Delivery.waiting Delivery.readable enqueued state Delivery.upcoming].
    destruct queue as [|chunk queue].
    + rewrite IH. cbn [length drop take map app]. rewrite drop_nil, take_nil.
      cbn [map app]. rewrite Nat.sub_0_r. cbn [repeat]. by rewrite <- app_assoc.
    + rewrite IH. cbn [length drop take map Nat.sub]. by rewrite <- app_assoc.
Qed.

(** The turn in which the iteration ends normally, and the turns after
    it: the trailer is enqueued and the stream is closed; a pending read
    gets the trailer, and the later reads what is in the queue and then
    the end of the stream. *)
Lemma run_ends (payload : json number) (queue : list (list Z)) (waiting : bool)
    (after : list Delivery.turn) (log : list read_result) :
  (waiting = true -> queue = []) ->
  let rest :=
    queue ++ [encode (nl ++ SOURCE_MARKER ++ stringify number_to_json payload)] in
  (Delivery.run number_to_json payload (Delivery.Produce :: after)
     (Delivery.mkBody (Some ([], None)) (mkController queue Readable) waiting) log).2
  = log ++ map Value (take (Nat.b2n waiting + reads after) rest)
    ++ repeat Done (Nat.b2n waiting + reads after - length rest).
Proof.
  intros Hw rest. cbn [Delivery.run].
  change (Delivery.produce number_to_json payload
            (Delivery.mkBody (Some ([], None)) (mkController queue Readable) waiting))
    with (Delivery.mkBody None (mkController rest Closed) waiting).
  destruct waiting; cbn [Delivery.settle Delivery.waiting Nat.b2n Nat.add].
  - subst rest. rewrite (Hw eq_refl). cbn [app].
    unfold Delivery.attempt, read.
    cbn [Delivery.readable enqueued state Delivery.upcoming].
    rewrite run_closed. cbn [snd take length map Nat.sub].
    rewrite take_nil, Nat.sub_0_r. cbn [map app]. by rewrite <- app_assoc.
  - by rewrite run_closed.
Qed.

(** X25. The body of C1 reaches a consumer whose reads fall anywhere
    between the events.  When the model's stream ends normally, the reads
    made until the iteration is over give the first increments; from then
    on the reads give, in order, what waited in the queue, then the chunk
    of the trailer, then the end of the stream.  So the chunks read are
    always the first chunks of the body of C1, no read is rejected, and a
    consumer that has been told the end of the stream has read every
    chunk. *)
Theorem body_read_to_the_end :
  forall (events : list StreamEvent) (payload : json number),
    let run schedule :=
      Delivery.run number_to_json payload schedule (Delivery.new_body (events, None)) [] in
    let whole :=
      map encode (increments events)
      ++ [encode (nl ++ SOURCE_MARKER ++ stringify number_to_json payload)] in
    (forall before after,
       produces before = length events ->
       exists received queue waiting,
         run before
         = (Delivery.mkBody (Some ([], None)) (mkController queue Readable) waiting,
            map Value received)
         /\ received ++ queue = map encode (increments events)
         /\ let reads := (length received + (Nat.b2n waiting + reads after))%nat in
            (run (before ++ Delivery.Produce :: after)).2
            = map Value (take reads whole) ++ repeat Done (reads - length whole))
    /\ (forall schedule,
          values (run schedule).2 `prefix_of` whole
          /\ (forall reason, ~ In (Rejected reason) (run schedule).2)
          /\ (In Done (run schedule).2 -> values (run schedule).2 = whole))
    /\ (run (repeat Delivery.Produce (S (length events))
             ++ repeat Delivery.Read (S (length whole)))).2
       = map Value whole ++ [Done].
Proof.
  intros events payload run whole.
  assert (Hend : forall before after,
            produces before = length events ->
            exists received queue waiting,
              run before
              = (Delivery.mkBody (Some ([], None)) (mkController queue Readable) waiting,
                 map Value received)
              /\ received ++ queue = map encode (increments events)
              /\ let reads := (length received + (Nat.b2n waiting + reads after))%nat in
                 (run (before ++ Delivery.Produce :: after)).2
                 = map Value (take reads whole) ++ repeat Done (reads - length whole)).
  { intros before after Hb.
    destruct (run_iterating number_to_json payload None before events [] [] false)
      as (received & queue & waiting & E & Hq & Hw); [done | lia|].
    rewrite Hb, drop_all, firstn_all in *. cbn [app] in Hq.
    change (map Value []) with (@nil read_result) in E.
    exists received, queue, waiting. split; [exact E|]. split; [exact Hq|].
    cbv zeta. unfold run. rewrite run_app.
    unfold Delivery.new_body, new_controller, MessageStream.
    unfold MessageStream in E. rewrite E. cbn [fst snd].
    rewrite (run_ends payload queue waiting after (map Value received) Hw).
    subst whole. rewrite <- Hq, <- app_assoc.
    set (rest := queue ++ [_]).
    rewrite take_app_add', map_app, <- app_assoc by done.
    rewrite length_app.
    by replace (length received + (Nat.b2n waiting + reads after)
                - (length received + length rest))%nat
      with (Nat.b2n waiting + reads after - length rest)%nat by lia. }
  split; [exact Hend|]. split.
  - intros schedule.
    destruct (Nat.le_gt_cases (produces schedule) (length events)) as [Hn|Hn].
    + destruct (run_iterating number_to_json payload None schedule events [] [] false
                  ltac:(done) Hn)
        as (received & queue & waiting & E & Hq & _).
      change (map Value []) with (@nil read_result) in E. cbn [app] in Hq.
      unfold run, Delivery.new_body, new_controller, MessageStream.
      unfold MessageStream in E. rewrite E. cbn [snd].
      rewrite values_Value. split; [|split].
      * subst whole. rewrite <- (take_drop (produces schedule) events) at 1.
        rewrite increments_app, map_app, <- Hq, <- !app_assoc. by eexists.
      * intros reason H. apply in_map_iff in H. by destruct H as (? & ? & _).
      * intros H. by apply not_Done_Value in H.
    + destruct (produces_split schedule (length events) Hn) as (before & after & -> & Hb).
      destruct (Hend before after Hb) as (received & queue & waiting & _ & Hq & E).
      cbv zeta in E. rewrite E. rewrite values_app, values_Value.
      assert (Hd : forall n, values (repeat Done n) = []) by (by induction n).
      rewrite Hd, app_nil_r. split; [|split].
      * apply prefix_take.
      * intros reason H. apply in_app_iff in H. destruct H as [H|H].
        -- apply in_map_iff in H. by destruct H as (? & ? & _).
        -- by apply repeat_spec in H.
      * intros H. apply in_app_iff in H. destruct H as [H|H];
          [by apply not_Done_Value in H|].
        destruct (length received + (Nat.b2n waiting + reads after) - length whole)%nat
          eqn:En; [done|].
        apply take_ge. lia.
  - destruct (Hend (repeat Delivery.Produce (length events))
                (repeat Delivery.Read (S (length whole))) (produces_repeat _))
      as (received & queue & waiting & E & Hq & E').
    pose proof (run_produce_only number_to_json payload (length events)
                  (Delivery.new_body (events, None)) [] eq_refl) as Hlog.
    fold (run (repeat Delivery.Produce (length events))) in Hlog.
    rewrite E in Hlog. cbn [snd] in Hlog.
    destruct received; [|discriminate].
    assert (Hw : waiting = false).
    { pose proof (run_produce_waiting number_to_json payload (length events)
                    (Delivery.new_body (events, None)) [] eq_refl) as Hw.
      fold (run (repeat Delivery.Produce (length events))) in Hw.
      by rewrite E in Hw. }
    subst waiting. cbv zeta in E'.
    replace (repeat Delivery.Produce (S (length events)) ++ repeat Delivery.Read (S (length whole)))
      with (repeat Delivery.Produce (length events)
            ++ Delivery.Produce :: repeat Delivery.Read (S (length whole))).
    2: { change (repeat Delivery.Produce (S (length events)))
           with (Delivery.Produce :: repeat Delivery.Produce (length events)).
         by rewrite repeat_cons, <- app_assoc. }
    rewrite E'. cbn [length Nat.add Nat.b2n].
    assert (Hr : forall n, reads (repeat Delivery.Read n) = n)
      by (induction n as [|n IH]; [done | by cbn; rewrite IH]).
    rewrite Hr, take_ge by lia.
    by replace (S (length whole) - length whole)%nat with 1%nat by lia.
Qed.

End DeliveryProperties.

(* ===================================================================== *)
(** * The colour of the similarity badge                                  *)
(* ===================================================================== *)

Section CitationsProperties.
Import JS Citations.

(** X23. The badge of a citation is never amber.  [similarityColor]
    multiplies by 100 a number that the component has already turned into a
    whole percentage, so every percentage from 1 up is shown in emerald and
    0 (or less) in red. *)
Theorem similarityColor_of_percent :
  forall percent : Z,
    similarityColor percent
    = (if 1 <=? percent then lit "text-emerald-400" else lit "text-red-400")
    /\ similarityColor percent <> lit "text-amber-400".
Proof.
  intros percent. unfold similarityColor.
  rewrite Z.gtb_ltb, Z.geb_leb.
  destruct (Z.ltb_spec 85 (percent * 100)), (Z.leb_spec 1 percent); try lia.
  - split; [done|]. vm_compute. discriminate.
  - destruct (Z.leb_spec 70 (percent * 100)); [lia|].
    split; [done|]. vm_compute. discriminate.
Qed.

End CitationsProperties.

(* ===================================================================== *)
(** * The further properties at concrete runs                             *)
(* ===================================================================== *)

Section MoreInstances.
Import JS Text Platform Samples MoreSamples.

Lemma chunkText_chunk_lengths_witness :
  valid 20 5 /\ (length fox <= 20)%nat
  /\ exists chunks,
       Chunking.chunkText 20 fox (Some 20) (Some 5) = Some (Return chunks)
       /\ forall (k : nat) c,
            chunks !! k = Some c -> 0 < strlen (Chunking.text c) <= 20.
Proof.
  split; [exact valid_20_5|]. split; [exact fox_length|].
  destruct (chunkText_chunk_lengths fox 20 5 20 valid_20_5 fox_length) as (chunks & E & H).
  exists chunks. split; [exact E|]. intros k c Hk. apply (H k c Hk).
Defined.

Lemma chunkText_neighbours_overlap_witness :
  valid 20 5 /\ (length fox <= 20)%nat
  /\ exists chunks,
       Chunking.chunkText 20 fox (Some 20) (Some 5) = Some (Return chunks)
       /\ forall c c',
            chunks !! 0%nat = Some c -> chunks !! 1%nat = Some c' ->
            drop 15 (Chunking.text c) = take 5 (Chunking.text c').
Proof.
  split; [exact valid_20_5|]. split; [exact fox_length|].
  destruct (chunkText_neighbours_overlap fox 20 5 20 valid_20_5 fox_length)
    as (chunks & E & H).
  exists chunks. split; [exact E|]. intros c c' H0 H1. apply (H 0%nat c c' H0 H1).
Defined.

Lemma chunkText_no_overlap_concat_witness :
  0 < 8 /\ (length fox <= 20)%nat
  /\ exists chunks,
       Chunking.chunkText 20 fox (Some 8) (Some 0) = Some (Return chunks)
       /\ concat (map Chunking.text chunks) = fox.
Proof.
  split; [lia|]. split; [exact fox_length|].
  apply (chunkText_no_overlap_concat fox 8 20 ltac:(lia) fox_length).
Defined.

Lemma DELETE_then_GET_witness :
  truthy (lit "notes.txt") = true
  /\ exists table',
       DocumentsStore.DELETE None stored_rows (Some (lit "notes.txt"))
       = (DocumentsStore.mkDeleteResponse 200 DocumentsStore.Deleted, table')
       /\ List.filter (fun s => bool_decide (Documents.source s = lit "notes.txt"))
            (listing table') = [].
Proof.
  assert (H : truthy (lit "notes.txt") = true) by (vm_compute; reflexivity).
  split; [exact H|].
  destruct (DELETE_then_GET stored_rows (lit "notes.txt") H) as (table' & E & _ & Hgone & _).
  exists table'. split; [exact E | exact Hgone].
Defined.

Lemma short_upload_fuel :
  (from_option length 0%nat (Upload.req_content short_upload) <= 3)%nat.
Proof. vm_compute. lia. Defined.

Lemma POST_succeeds_iff_witness :
  (3 <= 3)%nat
  /\ (from_option length 0%nat (Upload.req_content short_upload) <= 3)%nat
  /\ exists response table',
       Upload.POST 3 upload_world [] short_upload = Some (response, table')
       /\ (Upload.status response = 200 <->
           exists content filename,
             validated short_upload = Some (content, filename)
             /\ (forall i chunk,
                   upload_chunks content !! i = Some chunk ->
                   exists v, embeds 3 upload_world i chunk v)
             /\ Upload.insert_error upload_world = None).
Proof.
  split; [lia|]. split; [exact short_upload_fuel|].
  apply (POST_succeeds_iff 3 upload_world [] short_upload ltac:(lia) short_upload_fuel).
Defined.

Lemma POST_rows_in_order_witness :
  (3 <= 3)%nat
  /\ (from_option length 0%nat (Upload.req_content short_upload) <= 3)%nat
  /\ exists response table',
       Upload.POST 3 upload_world [] short_upload = Some (response, table')
       /\ (Upload.status response = 200 ->
           exists content rows,
             Upload.req_content short_upload = Some content
             /\ table' = [] ++ rows
             /\ length rows = length (upload_chunks content)
             /\ forall (i : nat) row,
                  rows !! i = Some row ->
                  Upload.content row = take 500 (drop (i * 450) content)
                  /\ Upload.chunk_index (Upload.metadata row) = Z.of_nat i
                  /\ embeds 3 upload_world i
                       (Chunking.mkChunk (Upload.content row) (Z.of_nat i))
                       (Upload.row_embedding row)).
Proof.
  split; [lia|]. split; [exact short_upload_fuel|].
  apply (POST_rows_in_order 3 upload_world [] short_upload ltac:(lia) short_upload_fuel).
Defined.

Lemma POST_chunks_created_witness :
  (3 <= 3)%nat
  /\ (from_option length 0%nat (Upload.req_content short_upload) <= 3)%nat
  /\ exists response table',
       Upload.POST 3 upload_world [] short_upload = Some (response, table')
       /\ (Upload.status response = 200 ->
           exists content n,
             Upload.req_content short_upload = Some content
             /\ Upload.body response = Upload.Created n
             /\ n = (strlen content + 449) / 450
             /\ 1 <= n <= 112).
Proof.
  split; [lia|]. split; [exact short_upload_fuel|].
  apply (POST_chunks_created 3 upload_world [] short_upload ltac:(lia) short_upload_fuel).
Defined.

Lemma POST_failure_message_witness :
  (3 <= 3)%nat
  /\ (from_option length 0%nat
        (fields (Return (UploadJson.Fields short_upload)) ≫= Upload.req_content) <= 3)%nat
  /\ exists response table',
       UploadJson.POST 3 (Upload.mkWorld (fun _ => down) None) []
         (Return (UploadJson.Fields short_upload))
       = Some (response, table')
       /\ (Upload.status response = 500 -> table' = []).
Proof.
  split; [lia|]. split; [exact short_upload_fuel|].
  destruct (POST_failure_message 3 (Upload.mkWorld (fun _ => down) None) []
              (Return (UploadJson.Fields short_upload))
              ltac:(lia) short_upload_fuel) as (response & table' & E & H & _).
  exists response, table'. split; [exact E|]. intros H500. apply (H H500).
Defined.

Lemma read_reply_roundtrip_witness :
  indexOf plain_answer Chat.SOURCE_MARKER = -1
  /\ Chat.read_reply parse_fox (plain_answer ++ trailer 0 render [fox_match])
     = Chat.mkMessage plain_answer [Rag.payload_entry 0 fox_match].
Proof.
  assert (H : indexOf plain_answer Chat.SOURCE_MARKER = -1) by (vm_compute; reflexivity).
  split; [exact H|].
  destruct (read_reply_roundtrip 0 render parse_fox plain_answer H) as [_ Hm].
  destruct (Hm [fox_match]) as (_ & Hok & _).
  apply (Hok [Rag.payload_entry 0 fox_match]). vm_compute. reflexivity.
Defined.

Lemma parse_fox_lexical : lexical parse_fox.
Proof.
  intros s v Hs. unfold parse_fox in Hs.
  destruct (streq s fox_json) eqn:E; [|discriminate].
  apply bool_decide_eq_true in E. subst s. vm_compute. reflexivity.
Defined.

Lemma read_reply_marker_in_answer_witness :
  lexical parse_fox
  /\ indexOf marked_answer Chat.SOURCE_MARKER = Z.of_nat 4
  /\ Chat.read_reply parse_fox (marked_answer ++ trailer 0 render [fox_match])
     = Chat.mkMessage (lit "Unexpected token") [].
Proof.
  assert (H : indexOf marked_answer Chat.SOURCE_MARKER = Z.of_nat 4)
    by (vm_compute; reflexivity).
  split; [exact parse_fox_lexical|]. split; [exact H|].
  destruct (read_reply_marker_in_answer parse_fox parse_fox_lexical
              marked_answer fox_json 4 H) as (_ & _ & err & Hparse & Hreply).
  assert (Herr : parse_fox
                   (drop (4 + 11) (marked_answer ++ [10] ++ Chat.SOURCE_MARKER ++ fox_json))
                 = Throw (Error (lit "Unexpected token"))) by (vm_compute; reflexivity).
  rewrite Herr in Hparse. injection Hparse as <-. exact Hreply.
Defined.

Lemma extractTextFromPDF_trimmed_witness :
  UploadPdf.extractTextFromPDF pdf_file = Return fox
  /\ truthy fox = true /\ trim fox = fox.
Proof.
  assert (H : UploadPdf.extractTextFromPDF pdf_file = Return fox) by (vm_compute; reflexivity).
  split; [exact H|].
  destruct (extractTextFromPDF_trimmed pdf_file fox H) as (_ & Ht & Htrim).
  split; [exact Ht | exact Htrim].
Defined.

Lemma extractTextFromPDF_blank_witness :
  UploadPdf.extraction blank_file
  = Return (Some (UploadPdf.mkPdfData (Some (lit "   "))))
  /\ blank (Some (UploadPdf.mkPdfData (Some (lit "   ")))) = true
  /\ UploadPdf.extractTextFromPDF blank_file
     = Throw (Error (lit "PDF appears to be empty or contains no extractable text.")).
Proof.
  assert (Hb : blank (Some (UploadPdf.mkPdfData (Some (lit "   ")))) = true)
    by (vm_compute; reflexivity).
  split; [reflexivity|]. split; [exact Hb|].
  apply (extractTextFromPDF_blank blank_file _ eq_refl Hb).
Defined.

Lemma POST_pdf_ingests_witness :
  is_pdf_upload pdf_file None = true
  /\ truthy (trim (lit "  The quick brown fox.  ")) = true
  /\ UploadPdf.POST 20 upload_world [] (Some pdf_file) None
     = Upload.ingest 20 upload_world [] (trim (lit "  The quick brown fox.  "))
         (upload_name pdf_file None).
Proof.
  assert (Hc : is_pdf_upload pdf_file None = true) by (vm_compute; reflexivity).
  assert (Ht : truthy (trim (lit "  The quick brown fox.  ")) = true)
    by (vm_compute; reflexivity).
  split; [exact Hc|]. split; [exact Ht|].
  apply (POST_pdf_ingests 20 upload_world [] pdf_file None _ Hc eq_refl Ht).
Defined.

Lemma POST_rejected_unopened_witness :
  from_option (fun f => is_pdf_upload f None) false (Some text_file) = false
  /\ exists msg,
       UploadPdf.POST 20 upload_world [] (Some text_file) None
       = Some (Upload.mkResponse 400 (Upload.Failure msg), []).
Proof.
  assert (H : from_option (fun f => is_pdf_upload f None) false (Some text_file) = false)
    by (vm_compute; reflexivity).
  split; [exact H|].
  apply (POST_rejected_unopened 20 upload_world [] (Some text_file) None H).
Defined.

Lemma POST_call_discipline_witness :
  (3 <= 3)%nat
  /\ exists calls response,
       Rag.POST 0 render 3 (rag_world None) (ask None) = Some (calls, response)
       /\ generation_calls calls
          = match response with Rag.Streaming _ _ => 1%nat | Rag.Json _ _ => 0%nat end.
Proof.
  split; [lia|].
  destruct (POST_call_discipline 0 render 3 (rag_world None) (ask None) ltac:(lia))
    as (calls & response & E & _ & _ & H).
  exists calls, response. split; [exact E | exact H].
Defined.

Lemma POST_failures_before_generation_witness :
  (3 <= 3)%nat
  /\ Rag.question (ask None) = Some asked
  /\ askable world_down (ask None) = true
  /\ Rag.POST 0 render 3 world_down (ask None)
     = Some (map (Rag.Embedding (number := Z)) (full_trace asked),
             Rag.Json 500 (lit "fetch failed")).
Proof.
  assert (Ha : askable world_down (ask None) = true) by (vm_compute; reflexivity).
  split; [lia|]. split; [reflexivity|]. split; [exact Ha|].
  destruct (POST_failures_before_generation 0 render 3 world_down (ask None) asked
              ltac:(lia) eq_refl Ha) as [H _].
  apply (H (Error (lit "fetch failed"))); [eexists; reflexivity | eexists; reflexivity | reflexivity].
Defined.

End MoreInstances.
